(** * Sector analysis (MICMAC): the analytic engine and the dataset importer

    A shallow embedding of the pure functions of the wizard page
    (computeXY, computeCut, quadrantLabel, buildPreviewResult, the matrix
    state updates of the Page component, loadGraph, and the import pipeline
    normalizeNumberCell / parseVariablesRows / parseMatrixTable /
    parseCsvVariables / parseCsvMatrix / datasetToCsvFiles).

    JavaScript numbers are IEEE 754 binary64 values: they are modelled by
    Rocq's primitive floats, whose operations are the same IEEE operations
    ([PrimFloat.add] is [+], [PrimFloat.div] is [/], [PrimFloat.ltb] is [<],
    [PrimFloat.leb] is [<=], [PrimFloat.eqb] is [===] on numbers).  Arrays
    are lists, read with stdpp's lookup ([l !! i] is [None] where JavaScript
    yields [undefined]) and updated in place with [alter].  The arrays of
    the importer come from the spreadsheet reader, which leaves the slot of
    an empty cell empty: they are lists of options.  The object that holds
    the quadrants is a finite map from strings, written one property at a
    time.  Strings are sequences of UTF-8 bytes.

    The later modules follow the code around these functions: the handlers
    of the inputs (setVarName, addVar, removeVar, setCell) with the resize
    effect, the preview and the results view derived from it (dataPoints,
    summary, the hidden variables), the outcomes of the importer,
    parseExcelFile, the choice of files in handleImportFiles,
    handleMinWeightChange, and the SectorAnalysis component. *)

From Stdlib Require Import ZArith Floats String Ascii List Lia.
From stdpp Require Import base list strings gmap pretty.

Local Open Scope string_scope.
Local Open Scope nat_scope.

(** ** JavaScript numbers *)

Module JsNumber.

(** [Number.isFinite(x)] for a value that is a number. *)
Definition isFinite (x : float) : bool :=
  negb (PrimFloat.is_nan x || PrimFloat.is_infinity x).

(** An array length (or a loop index) as a number.  Lengths are below 2^32,
    so the conversion is exact. *)
Definition ofNat (n : nat) : float :=
  PrimFloat.of_uint63 (Uint63.of_Z (Z.of_nat n)).

(** [a >= b] *)
Definition geb (a b : float) : bool := PrimFloat.leb b a.

(** [a !== b] on numbers *)
Definition neb (a b : float) : bool := negb (PrimFloat.eqb a b).

(** *** Order facts of IEEE comparison, from the primitive floats' specification *)

Lemma SFcompare_antisym (a b : spec_float) :
  SFcompare b a = option_map CompOpp (SFcompare a b).
Proof.
  destruct a as [sa|sa| |sa ma ea], b as [sb|sb| |sb mb eb]; cbn;
    try reflexivity; try (destruct sa; reflexivity); try (destruct sb; reflexivity);
    try (destruct sa, sb; reflexivity).
  f_equal. rewrite (Z.compare_antisym ea eb).
  change (PosDef.Pos.compare_cont Eq mb ma) with (Pos.compare mb ma).
  change (PosDef.Pos.compare_cont Eq ma mb) with (Pos.compare ma mb).
  rewrite (Pos.compare_antisym ma mb).
  destruct sa, sb, (ea ?= eb)%Z, (ma ?= mb)%positive; reflexivity.
Qed.

(** [a < b] excludes [a >= b]. *)
Lemma ltb_not_geb (a b : float) : PrimFloat.ltb a b = true -> geb a b = false.
Proof.
  unfold geb. rewrite ltb_spec, leb_spec. unfold SFltb, SFleb.
  rewrite (SFcompare_antisym (Prim2SF a) (Prim2SF b)).
  destruct (SFcompare (Prim2SF a) (Prim2SF b)) as [[]|]; cbn; congruence.
Qed.

(** [a >= b] excludes [a < b]. *)
Lemma geb_not_ltb (a b : float) : geb a b = true -> PrimFloat.ltb a b = false.
Proof.
  intros H. destruct (PrimFloat.ltb a b) eqn:E; [|reflexivity].
  apply ltb_not_geb in E. congruence.
Qed.

(** [a === b] gives [a >= b]: a tie is on the high side. *)
Lemma eqb_geb (a b : float) : PrimFloat.eqb a b = true -> geb a b = true.
Proof.
  unfold geb. rewrite FloatAxioms.eqb_spec, leb_spec. unfold SFeqb, SFleb.
  rewrite (SFcompare_antisym (Prim2SF a) (Prim2SF b)).
  destruct (SFcompare (Prim2SF a) (Prim2SF b)) as [[]|]; cbn; congruence.
Qed.

Lemma not_nan_spec (a : float) : PrimFloat.is_nan a = false -> Prim2SF a ≠ S754_nan.
Proof.
  unfold PrimFloat.is_nan. rewrite FloatAxioms.eqb_spec. unfold SFeqb. intros Hn Ha.
  rewrite Ha in Hn. cbn in Hn. discriminate.
Qed.

(** Two numbers that are not NaN are comparable: not [a < b] gives [a >= b]. *)
Lemma not_ltb_geb (a b : float) :
  PrimFloat.is_nan a = false -> PrimFloat.is_nan b = false ->
  PrimFloat.ltb a b = false -> geb a b = true.
Proof.
  intros Ha Hb. apply not_nan_spec in Ha, Hb.
  unfold geb. rewrite ltb_spec, leb_spec. unfold SFltb, SFleb.
  rewrite (SFcompare_antisym (Prim2SF a) (Prim2SF b)).
  destruct (Prim2SF a) as [sa|sa| |sa ma ea], (Prim2SF b) as [sb|sb| |sb mb eb];
    try contradiction; cbn;
    repeat match goal with
      | |- context [if ?s then _ else _] => destruct s; cbn
      | |- context [match ?c with Eq => _ | Lt => _ | Gt => _ end] => destruct c; cbn
      end; congruence.
Qed.

Lemma isFinite_not_nan (a : float) : isFinite a = true -> PrimFloat.is_nan a = false.
Proof.
  unfold isFinite. destruct (PrimFloat.is_nan a); [discriminate | reflexivity].
Qed.

End JsNumber.

(** ** MatrixEngine: computeXY, computeCut, quadrantLabel, buildPreviewResult *)

Module MatrixEngine.
Import JsNumber.

Abbreviation Matrix := (list (list float)).

(** [matrix[i]?.[j]] : [None] where the row or the cell is missing. *)
Definition cell (matrix : Matrix) (i j : nat) : option float :=
  row ← matrix !! i; row !! j.

(** [matrix[i]?.[j] ?? 0] *)
Definition cellOrZero (matrix : Matrix) (i j : nat) : float :=
  default 0%float (cell matrix i j).

Record XY := { dependency : list float; driving : list float }.

(** The body of the inner loop of computeXY at [(i, j)]. *)
Definition computeXY_step (matrix : Matrix) (i : nat) (acc : XY) (j : nat) : XY :=
  if decide (i = j) then acc
  else
    {| dependency := alter (fun d => PrimFloat.add d (cellOrZero matrix i j)) j (dependency acc);
       driving := alter (fun d => PrimFloat.add d (cellOrZero matrix i j)) i (driving acc) |}.

(** The inner [for (j = 0; j < n; j += 1)] loop for row [i]. *)
Definition computeXY_row (matrix : Matrix) (n : nat) (acc : XY) (i : nat) : XY :=
  foldl (computeXY_step matrix i) acc (seq 0 n).

Definition computeXY (matrix : Matrix) : XY :=
  let n := length matrix in
  foldl (computeXY_row matrix n)
        {| dependency := replicate n 0%float; driving := replicate n 0%float |}
        (seq 0 n).

Definition computeCut (values : list float) : float :=
  if decide (length values = 0) then 0%float
  else PrimFloat.div (foldl PrimFloat.add 0%float values) (ofNat (length values)).

Definition quadrantLabel (x y xCut yCut : float) : string :=
  if geb y yCut && PrimFloat.ltb x xCut then "Determinante"
  else if geb y yCut && geb x xCut then "Reguladora"
  else if PrimFloat.ltb y yCut && geb x xCut then "Resultado"
  else "Autonoma".

Record ComputeOut := {
  variables : list string;
  dependencia_x : list float;
  motricidad_y : list float;
  x_cut : float;
  y_cut : float;
  quadrants : gmap string string
}.

(** The test of the scan loop of buildPreviewResult:
    [i !== j && Number.isFinite(matrix[i]?.[j]) && matrix[i][j] !== 0]. *)
Definition liveCell (matrix : Matrix) (i j : nat) : bool :=
  if decide (i = j) then false
  else match cell matrix i j with
       | Some v => isFinite v && neb v 0%float
       | None => false
       end.

(** The two nested loops that set [hasValue]; the [break]s only stop the
    scan early. *)
Definition hasValue (n : nat) (matrix : Matrix) : bool :=
  existsb (fun i => existsb (fun j => liveCell matrix i j) (seq 0 n)) (seq 0 n).

(** [array[i]] read as a number operand: [undefined] behaves as NaN in the
    comparisons of quadrantLabel. *)
Definition numAt (values : list float) (i : nat) : float :=
  default PrimFloat.nan (values !! i).

(** [variables[i]] used as a property key. *)
Definition nameAt (names : list string) (i : nat) : string :=
  default "undefined" (names !! i).

(** [quadrants[key] = label] on the object literal [{}].  The key
    "__proto__" names the accessor that every object inherits from
    [Object.prototype]; its setter ignores a value that is a string, so the
    assignment creates no property.  Under every other key the assignment
    creates the property of the object, or replaces its value. *)
Definition setProperty (key label : string) (q : gmap string string) : gmap string string :=
  if decide (key = "__proto__") then q else <[key := label]> q.

Definition buildQuadrants (names : list string) (dep drv : list float)
    (xCut yCut : float) (n : nat) : gmap string string :=
  foldl (fun q i =>
           setProperty (nameAt names i) (quadrantLabel (numAt dep i) (numAt drv i) xCut yCut) q)
        ∅ (seq 0 n).

Definition buildPreviewResult (names : list string) (matrix : Matrix) : option ComputeOut :=
  let n := length names in
  if decide (n = 0 ∨ length matrix ≠ n) then None
  else if negb (hasValue n matrix) then None
  else
    let xy := computeXY matrix in
    let xCut := computeCut (dependency xy) in
    let yCut := computeCut (driving xy) in
    Some {| variables := names;
            dependencia_x := dependency xy;
            motricidad_y := driving xy;
            x_cut := xCut;
            y_cut := yCut;
            quadrants := buildQuadrants names (dependency xy) (driving xy) xCut yCut n |}.

(** *** Reference quantities of the specification *)

(** The row and column indices other than [k], in increasing order. *)
Definition others (n k : nat) : list nat :=
  filter (fun i => i ≠ k) (seq 0 n).

(** A sum of numbers taken in list order, starting from 0. *)
Definition sumOf (f : nat -> float) (idx : list nat) : float :=
  foldl (fun acc k => PrimFloat.add acc (f k)) 0%float idx.

(** The arithmetic mean, 0 for the empty vector. *)
Definition mean (values : list float) : float :=
  match values with
  | [] => 0%float
  | _ => PrimFloat.div (foldl PrimFloat.add 0%float values) (ofNat (length values))
  end.

Definition isSquare (n : nat) (matrix : Matrix) : Prop :=
  length matrix = n ∧ Forall (fun row => length row = n) matrix.

(** A cell that carries no signal for the scan: absent, zero or not finite. *)
Definition deadCell (matrix : Matrix) (i j : nat) : Prop :=
  match cell matrix i j with
  | Some v => isFinite v = false ∨ PrimFloat.eqb v 0%float = true
  | None => True
  end.

(** *** Generic facts about the loops *)

(** Case analysis on every [decide] of the goal; the impossible cases are
    closed by arithmetic. *)
Ltac decide_cases :=
  repeat case_decide; first [reflexivity | exfalso; lia].

Lemma foldl_guard_filter {A B : Type} (P : B -> Prop) {Pdec : ∀ x, Decision (P x)}
    (g : A -> B -> A) (l : list B) (a : A) :
  foldl (fun acc x => if decide (P x) then g acc x else acc) a l = foldl g a (filter P l).
Proof.
  revert a. induction l as [|x l IH]; intros a; [reflexivity|].
  rewrite filter_cons. cbn [foldl]. destruct (decide (P x)); cbn [foldl]; apply IH.
Qed.

(** A loop over [seq s len] whose body acts at one index [k] only. *)
Lemma foldl_seq_single {A : Type} (k : nat) (Q : nat -> Prop) {Qdec : ∀ x, Decision (Q x)}
    (g : A -> nat -> A) (s len : nat) (a : A) :
  foldl (fun acc j => if decide (Q j ∧ j = k) then g acc j else acc) a (seq s len)
  = if decide (Q k ∧ s ≤ k < s + len) then g a k else a.
Proof.
  revert s a. induction len as [|len IH]; intros s a; cbn [seq foldl].
  - destruct (decide _) as [[_ H]|]; [lia | reflexivity].
  - rewrite IH. destruct (decide (Q s ∧ s = k)) as [[Hq ->]|Hn].
    + destruct (decide (Q k ∧ S k ≤ k < S k + len)) as [[_ H]|_]; [lia|].
      destruct (decide (Q k ∧ k ≤ k < k + S len)) as [_|H]; [reflexivity|].
      exfalso; apply H; split; [assumption | lia].
    + destruct (decide (Q k ∧ S s ≤ k < S s + len)) as [[Hq H]|H];
        destruct (decide (Q k ∧ s ≤ k < s + S len)) as [[Hq' H']|H']; try reflexivity.
      * exfalso; apply H'; split; [assumption | lia].
      * exfalso. destruct (decide (s = k)) as [->|Hsk].
        -- apply Hn; split; [assumption | reflexivity].
        -- apply H; split; [assumption | lia].
Qed.

Lemma foldl_ext_eq {A B : Type} (f g : A -> B -> A) (l : list B) (a : A) :
  (∀ a x, f a x = g a x) -> foldl f a l = foldl g a l.
Proof.
  intros H. revert a. induction l as [|x l IH]; intros a; cbn [foldl]; [reflexivity|].
  rewrite H. apply IH.
Qed.

Lemma option_fmap_twice {A : Type} (f g : A -> A) (o : option A) :
  g <$> (f <$> o) = (fun d => g (f d)) <$> o.
Proof. destruct o; reflexivity. Qed.

Lemma option_fmap_ext_eq {A : Type} (f g : A -> A) (o : option A) :
  (∀ d, f d = g d) -> f <$> o = g <$> o.
Proof. intros H. destruct o; cbn; [f_equal; apply H | reflexivity]. Qed.

Lemma option_fmap_same {A : Type} (o : option A) : (fun d => d) <$> o = o.
Proof. destruct o; reflexivity. Qed.

(** *** What one step, one row and the whole of computeXY do to each entry *)

Section ComputeXY.
Variable matrix : Matrix.

Local Abbreviation c := (cellOrZero matrix).

Lemma step_dependency i acc j k :
  dependency (computeXY_step matrix i acc j) !! k
  = (fun d => if decide (i ≠ j ∧ j = k) then PrimFloat.add d (c i j) else d)
      <$> dependency acc !! k.
Proof.
  unfold computeXY_step. destruct (decide (i = j)) as [->|Hij]; cbn [dependency].
  - destruct (decide (j ≠ j ∧ j = k)) as [[H _]|_]; [congruence|].
    symmetry; apply option_fmap_same.
  - rewrite list_lookup_alter. destruct (decide (j = k)) as [->|Hjk].
    + destruct (decide (i ≠ k ∧ k = k)) as [_|H]; [reflexivity|].
      exfalso; apply H; split; [assumption | reflexivity].
    + destruct (decide (i ≠ j ∧ j = k)) as [[_ H]|_]; [congruence|].
      symmetry; apply option_fmap_same.
Qed.

Lemma step_driving i acc j k :
  driving (computeXY_step matrix i acc j) !! k
  = (fun d => if decide (i ≠ j ∧ i = k) then PrimFloat.add d (c i j) else d)
      <$> driving acc !! k.
Proof.
  unfold computeXY_step. destruct (decide (i = j)) as [->|Hij]; cbn [driving].
  - destruct (decide (j ≠ j ∧ j = k)) as [[H _]|_]; [congruence|].
    symmetry; apply option_fmap_same.
  - rewrite list_lookup_alter. destruct (decide (i = k)) as [->|Hik].
    + destruct (decide (k ≠ j ∧ k = k)) as [_|H]; [reflexivity|].
      exfalso; apply H; split; [assumption | reflexivity].
    + destruct (decide (i ≠ j ∧ i = k)) as [[_ H]|_]; [congruence|].
      symmetry; apply option_fmap_same.
Qed.

Lemma steps_dependency i js acc k :
  dependency (foldl (computeXY_step matrix i) acc js) !! k
  = (fun d => foldl (fun a j => if decide (i ≠ j ∧ j = k) then PrimFloat.add a (c i j) else a) d js)
      <$> dependency acc !! k.
Proof.
  revert acc. induction js as [|j js IH]; intros acc; cbn [foldl].
  - symmetry; apply option_fmap_same.
  - rewrite IH, step_dependency, option_fmap_twice. reflexivity.
Qed.

Lemma steps_driving i js acc k :
  driving (foldl (computeXY_step matrix i) acc js) !! k
  = (fun d => foldl (fun a j => if decide (i ≠ j ∧ i = k) then PrimFloat.add a (c i j) else a) d js)
      <$> driving acc !! k.
Proof.
  revert acc. induction js as [|j js IH]; intros acc; cbn [foldl].
  - symmetry; apply option_fmap_same.
  - rewrite IH, step_driving, option_fmap_twice. reflexivity.
Qed.

Lemma row_dependency n acc i k :
  dependency (computeXY_row matrix n acc i) !! k
  = (fun d => if decide (i ≠ k ∧ k < n) then PrimFloat.add d (c i k) else d)
      <$> dependency acc !! k.
Proof.
  unfold computeXY_row. rewrite steps_dependency.
  apply option_fmap_ext_eq; intros d.
  rewrite (foldl_seq_single k (fun j => i ≠ j) (fun a j => PrimFloat.add a (c i j))).
  decide_cases.
Qed.

Lemma row_driving n acc i k :
  driving (computeXY_row matrix n acc i) !! k
  = (fun d => if decide (i = k) then foldl (fun a j => PrimFloat.add a (c i j)) d (others n i) else d)
      <$> driving acc !! k.
Proof.
  unfold computeXY_row. rewrite steps_driving.
  apply option_fmap_ext_eq; intros d.
  destruct (decide (i = k)) as [->|Hik].
  - unfold others. rewrite <- foldl_guard_filter.
    apply foldl_ext_eq; intros a j.
    decide_cases.
  - generalize (seq 0 n); intros js. revert d.
    induction js as [|j js IH]; intros d; cbn [foldl]; [reflexivity|].
    destruct (decide (i ≠ j ∧ i = k)) as [[_ H]|_]; [congruence | apply IH].
Qed.

Lemma rows_dependency n rows acc k :
  dependency (foldl (computeXY_row matrix n) acc rows) !! k
  = (fun d => foldl (fun a i => if decide (i ≠ k ∧ k < n) then PrimFloat.add a (c i k) else a) d rows)
      <$> dependency acc !! k.
Proof.
  revert acc. induction rows as [|i rows IH]; intros acc; cbn [foldl].
  - symmetry; apply option_fmap_same.
  - rewrite IH, row_dependency, option_fmap_twice. reflexivity.
Qed.

Lemma rows_driving n rows acc k :
  driving (foldl (computeXY_row matrix n) acc rows) !! k
  = (fun d => foldl (fun a i => if decide (True ∧ i = k)
                               then foldl (fun a j => PrimFloat.add a (c i j)) a (others n i)
                               else a) d rows)
      <$> driving acc !! k.
Proof.
  revert acc. induction rows as [|i rows IH]; intros acc; cbn [foldl].
  - symmetry; apply option_fmap_same.
  - rewrite IH, row_driving, option_fmap_twice.
    apply option_fmap_ext_eq; intros d. f_equal.
    decide_cases.
Qed.

(** Entry [k] of the dependency vector is the column sum without the diagonal. *)
Lemma computeXY_dependency k :
  k < length matrix ->
  dependency (computeXY matrix) !! k
  = Some (sumOf (fun i => c i k) (others (length matrix) k)).
Proof.
  intros Hk. unfold computeXY. rewrite rows_dependency. cbn [dependency].
  rewrite lookup_replicate_2 by assumption. cbn. f_equal.
  unfold sumOf, others. rewrite <- foldl_guard_filter.
  apply foldl_ext_eq; intros a i.
  decide_cases.
Qed.

(** Entry [k] of the driving vector is the row sum without the diagonal. *)
Lemma computeXY_driving k :
  k < length matrix ->
  driving (computeXY matrix) !! k
  = Some (sumOf (fun j => c k j) (others (length matrix) k)).
Proof.
  intros Hk. unfold computeXY. rewrite rows_driving. cbn [driving].
  rewrite lookup_replicate_2 by assumption. cbn [fmap option_fmap option_map]. f_equal.
  unfold sumOf.
  rewrite (foldl_seq_single k (fun _ => True)
             (fun a i => foldl (fun a j => PrimFloat.add a (c i j)) a (others (length matrix) i))).
  decide_cases.
Qed.

Lemma computeXY_length :
  length (dependency (computeXY matrix)) = length matrix
  ∧ length (driving (computeXY matrix)) = length matrix.
Proof.
  unfold computeXY.
  assert (Hstep : ∀ i js acc,
            length (dependency (foldl (computeXY_step matrix i) acc js)) = length (dependency acc)
            ∧ length (driving (foldl (computeXY_step matrix i) acc js)) = length (driving acc)).
  { intros i js. induction js as [|j js IH]; intros acc; cbn [foldl]; [split; reflexivity|].
    destruct (IH (computeXY_step matrix i acc j)) as [-> ->].
    unfold computeXY_step. destruct (decide (i = j)); cbn [dependency driving];
      [split; reflexivity|]. rewrite !length_alter. split; reflexivity. }
  assert (Hrows : ∀ n rows acc,
            length (dependency (foldl (computeXY_row matrix n) acc rows)) = length (dependency acc)
            ∧ length (driving (foldl (computeXY_row matrix n) acc rows)) = length (driving acc)).
  { intros n rows. induction rows as [|i rows IH]; intros acc; cbn [foldl]; [split; reflexivity|].
    destruct (IH (computeXY_row matrix n acc i)) as [-> ->]. apply Hstep. }
  destruct (Hrows (length matrix) (seq 0 (length matrix))
              {| dependency := replicate (length matrix) 0%float;
                 driving := replicate (length matrix) 0%float |}) as [-> ->].
  cbn [dependency driving]. rewrite length_replicate. split; reflexivity.
Qed.

End ComputeXY.

Lemma sumOf_ext (f g : nat -> float) (idx : list nat) :
  (∀ i, i ∈ idx -> f i = g i) -> sumOf f idx = sumOf g idx.
Proof.
  unfold sumOf. generalize 0%float. induction idx as [|i idx IH]; intros a Hfg; [reflexivity|].
  cbn [foldl]. rewrite (Hfg i) by apply list_elem_of_here.
  apply IH. intros k Hk. apply Hfg. apply list_elem_of_further. exact Hk.
Qed.

Lemma others_ne n k i : i ∈ others n k -> i ≠ k.
Proof. unfold others. intros Hi. apply list_elem_of_filter in Hi as [Hi _]. exact Hi. Qed.

(** Two matrices that differ on the diagonal only have the same vectors. *)
Lemma computeXY_ignores_diagonal (matrix matrix' : Matrix) :
  length matrix' = length matrix ->
  (∀ i j, i ≠ j -> cellOrZero matrix' i j = cellOrZero matrix i j) ->
  computeXY matrix' = computeXY matrix.
Proof.
  intros Hlen Hoff.
  destruct (computeXY_length matrix) as [Hd Hv].
  destruct (computeXY_length matrix') as [Hd' Hv'].
  assert (Hdep : dependency (computeXY matrix') = dependency (computeXY matrix)).
  { apply list_eq. intros k. destruct (decide (k < length matrix)) as [Hk|Hk].
    - rewrite !computeXY_dependency by lia. rewrite Hlen. f_equal.
      apply sumOf_ext. intros i Hi. apply Hoff. apply others_ne in Hi. exact Hi.
    - rewrite !lookup_ge_None_2 by lia. reflexivity. }
  assert (Hdrv : driving (computeXY matrix') = driving (computeXY matrix)).
  { apply list_eq. intros k. destruct (decide (k < length matrix)) as [Hk|Hk].
    - rewrite !computeXY_driving by lia. rewrite Hlen. f_equal.
      apply sumOf_ext. intros j Hj. apply Hoff. apply others_ne in Hj. congruence.
    - rewrite !lookup_ge_None_2 by lia. reflexivity. }
  destruct (computeXY matrix'), (computeXY matrix). cbn in Hdep, Hdrv. congruence.
Qed.

Lemma computeCut_mean values : computeCut values = mean values.
Proof.
  unfold computeCut, mean. destruct values as [|v values]; [reflexivity|].
  destruct (decide (length (v :: values) = 0)) as [H|_]; [discriminate H | reflexivity].
Qed.

(** In a square matrix every cell of the index range is present. *)
Lemma square_cell n matrix i j :
  isSquare n matrix -> i < n -> j < n -> cell matrix i j = Some (cellOrZero matrix i j).
Proof.
  intros [Hlen Hrows] Hi Hj. unfold cellOrZero, cell.
  destruct (lookup_lt_is_Some_2 matrix i) as [row Hrow]; [lia|].
  rewrite Hrow. cbn.
  rewrite Forall_lookup in Hrows. specialize (Hrows i row Hrow).
  destruct (lookup_lt_is_Some_2 row j) as [v Hv]; [lia|].
  rewrite Hv. reflexivity.
Qed.

(** *** The quadrant map *)

Lemma setProperty_lookup key label q k :
  setProperty key label q !! k
  = if decide (key = k ∧ key ≠ "__proto__") then Some label else q !! k.
Proof.
  unfold setProperty. destruct (decide (key = "__proto__")) as [Hp|Hp].
  - destruct (decide (key = k ∧ key ≠ "__proto__")) as [[_ Hn]|_]; [contradiction | reflexivity].
  - destruct (decide (key = k ∧ key ≠ "__proto__")) as [[-> _]|Hn].
    + apply lookup_insert_eq.
    + apply lookup_insert_ne. intros ->. apply Hn. split; [reflexivity | assumption].
Qed.

Lemma buildQuadrants_lookup names dep drv xCut yCut n i :
  NoDup names -> n ≤ length names -> i < n -> nameAt names i ≠ "__proto__" ->
  buildQuadrants names dep drv xCut yCut n !! nameAt names i
  = Some (quadrantLabel (numAt dep i) (numAt drv i) xCut yCut).
Proof.
  intros Hnd. unfold buildQuadrants. induction n as [|n IH]; intros Hn Hi Hp; [lia|].
  rewrite seq_S, foldl_app. cbn [foldl Nat.add]. rewrite setProperty_lookup.
  destruct (decide (i = n)) as [->|Hne].
  - destruct (decide (nameAt names n = nameAt names n ∧ nameAt names n ≠ "__proto__"))
      as [_|Hbad]; [reflexivity|]. exfalso. apply Hbad. split; [reflexivity | exact Hp].
  - destruct (decide (nameAt names n = nameAt names i ∧ nameAt names n ≠ "__proto__"))
      as [[Heq _]|_]; [|apply IH; [lia | lia | exact Hp]].
    exfalso. unfold nameAt in Heq.
    destruct (lookup_lt_is_Some_2 names n) as [a Ha]; [lia|].
    destruct (lookup_lt_is_Some_2 names i) as [b Hb]; [lia|].
    rewrite Ha, Hb in Heq. cbn in Heq. subst b.
    apply Hne. symmetry. eapply NoDup_lookup; eassumption.
Qed.

(** No assignment of the loop creates a property named "__proto__". *)
Lemma buildQuadrants_proto names dep drv xCut yCut n :
  buildQuadrants names dep drv xCut yCut n !! "__proto__" = None.
Proof.
  unfold buildQuadrants. induction n as [|n IH]; [apply lookup_empty|].
  rewrite seq_S, foldl_app. cbn [foldl Nat.add]. rewrite setProperty_lookup.
  destruct (decide (nameAt names n = "__proto__" ∧ nameAt names n ≠ "__proto__"))
    as [[Heq Hne]|_]; [contradiction | exact IH].
Qed.

(** *** Acceptance *)

Lemma existsb_seq_false (f : nat -> bool) (n : nat) :
  existsb f (seq 0 n) = false ↔ ∀ i, i < n -> f i = false.
Proof.
  split.
  - intros H i Hi. destruct (f i) eqn:E; [|reflexivity].
    assert (Hex : existsb f (seq 0 n) = true).
    { apply existsb_exists. exists i. split; [apply in_seq; lia | assumption]. }
    congruence.
  - intros H. destruct (existsb f (seq 0 n)) eqn:E; [|reflexivity].
    apply existsb_exists in E. destruct E as (i & Hin & Hi).
    apply in_seq in Hin. rewrite H in Hi by lia. discriminate.
Qed.

Lemma liveCell_false matrix i j :
  i ≠ j -> liveCell matrix i j = false ↔ deadCell matrix i j.
Proof.
  intros Hij. unfold liveCell, deadCell, neb.
  destruct (decide (i = j)) as [|_]; [contradiction|].
  destruct (cell matrix i j) as [v|]; [|split; auto].
  destruct (isFinite v), (PrimFloat.eqb v 0%float); cbn; split; intros H;
    try discriminate; try reflexivity; auto; destruct H; discriminate.
Qed.

Lemma hasValue_false n matrix :
  hasValue n matrix = false ↔ ∀ i j, i < n -> j < n -> i ≠ j -> deadCell matrix i j.
Proof.
  unfold hasValue. rewrite existsb_seq_false. split.
  - intros H i j Hi Hj Hij. apply liveCell_false; [assumption|].
    specialize (H i Hi). rewrite existsb_seq_false in H. apply H; assumption.
  - intros H i Hi. apply existsb_seq_false. intros j Hj.
    destruct (decide (i = j)) as [->|Hij].
    + unfold liveCell. destruct (decide (j = j)); [reflexivity | contradiction].
    + apply liveCell_false; [assumption | apply H; assumption].
Qed.

(** *** The specification's scenario *)

Definition exampleNames : list string := ["A"; "B"; "C"].

Definition exampleMatrix : Matrix :=
  [[0; 2; 0]; [0; 0; 5]; [1; 0; 0]]%float.

Definition exampleResult : ComputeOut :=
  {| variables := ["A"; "B"; "C"];
     dependencia_x := [1; 2; 5]%float;
     motricidad_y := [2; 5; 1]%float;
     x_cut := PrimFloat.div 8 3;
     y_cut := PrimFloat.div 8 3;
     quadrants := <["C" := "Resultado"]> (<["B" := "Determinante"]> (<["A" := "Autonoma"]> ∅)) |}.

Example buildPreviewResult_example :
  buildPreviewResult exampleNames exampleMatrix = Some exampleResult.
Proof. vm_compute. reflexivity. Qed.

(** The same scenario with values stored on the diagonal: the result is the
    same. *)
Example buildPreviewResult_diagonal_ignored :
  buildPreviewResult exampleNames [[9; 2; 0]; [0; 7; 5]; [1; 0; 4]]%float
  = Some exampleResult.
Proof. vm_compute. reflexivity. Qed.

(** A matrix with the right number of rows whose rows have the wrong lengths. *)
Definition raggedMatrix : Matrix := [[0; 1; 7]; [0]]%float.

(** A matrix in which a cell is being edited and holds NaN. *)
Definition nanMatrix : Matrix := [[0; PrimFloat.nan]; [1; 0]]%float.

(** The condition under which the specification expects no result. *)
Definition expectedNoResult (names : list string) (matrix : Matrix) : Prop :=
  names = []
  ∨ ¬ isSquare (length names) matrix
  ∨ (∀ i j, i < length names -> j < length names -> i ≠ j -> deadCell matrix i j).

(** *** Claims about the engine *)

(** C1. For an accepted n×n matrix, entry j of the returned dependency vector
    is the sum of column j over the rows i ≠ j, entry i of the driving vector
    is the sum of row i over the columns j ≠ i (the diagonal cell is not part
    of either sum, and a matrix that differs on the diagonal only gives the
    same vectors), and the two cuts are the arithmetic means of the two
    vectors; the mean of the empty vector is 0. *)
Theorem buildPreviewResult_sums_and_cuts (names : list string) (matrix : Matrix)
    (r : ComputeOut) :
  buildPreviewResult names matrix = Some r ->
  isSquare (length names) matrix ->
  (∀ i j, i < length names -> j < length names ->
      cell matrix i j = Some (cellOrZero matrix i j))
  ∧ length (dependencia_x r) = length names
  ∧ length (motricidad_y r) = length names
  ∧ (∀ j, j < length names ->
      dependencia_x r !! j
      = Some (sumOf (fun i => cellOrZero matrix i j) (others (length names) j)))
  ∧ (∀ i, i < length names ->
      motricidad_y r !! i
      = Some (sumOf (fun j => cellOrZero matrix i j) (others (length names) i)))
  ∧ (∀ matrix' : Matrix,
       length matrix' = length matrix ->
       (∀ i j, i ≠ j -> cellOrZero matrix' i j = cellOrZero matrix i j) ->
       computeXY matrix' = computeXY matrix)
  ∧ x_cut r = mean (dependencia_x r)
  ∧ y_cut r = mean (motricidad_y r)
  ∧ computeCut [] = 0%float.
Proof.
  intros Hr Hsq. unfold buildPreviewResult in Hr.
  destruct (decide (length names = 0 ∨ length matrix ≠ length names)) as [|Hn];
    [discriminate|].
  destruct (negb (hasValue (length names) matrix)); [discriminate|].
  injection Hr as <-. cbn [dependencia_x motricidad_y x_cut y_cut].
  assert (Hlen : length matrix = length names) by lia.
  destruct (computeXY_length matrix) as [Hd Hv].
  split; [intros i j Hi Hj; apply (square_cell (length names)); assumption|].
  split; [lia|]. split; [lia|].
  split; [intros j Hj; rewrite <- Hlen; apply computeXY_dependency; lia|].
  split; [intros i Hi; rewrite <- Hlen; apply computeXY_driving; lia|].
  split; [intros matrix'; apply computeXY_ignores_diagonal|].
  split; [apply computeCut_mean|]. split; [apply computeCut_mean | reflexivity].
Qed.

Lemma buildPreviewResult_sums_and_cuts_example :
  isSquare 3 exampleMatrix
  ∧ dependencia_x exampleResult !! 2
    = Some (sumOf (fun i => cellOrZero exampleMatrix i 2) (others 3 2))
  ∧ motricidad_y exampleResult !! 1
    = Some (sumOf (fun j => cellOrZero exampleMatrix 1 j) (others 3 1))
  ∧ x_cut exampleResult = mean (dependencia_x exampleResult)
  ∧ y_cut exampleResult = mean (motricidad_y exampleResult).
Proof.
  assert (Hsq : isSquare 3 exampleMatrix).
  { split; [reflexivity | repeat constructor]. }
  assert (Hr : buildPreviewResult exampleNames exampleMatrix = Some exampleResult).
  { vm_compute. reflexivity. }
  destruct (buildPreviewResult_sums_and_cuts exampleNames exampleMatrix exampleResult Hr Hsq)
    as (_ & _ & _ & Hdep & Hdrv & _ & Hx & Hy & _).
  split; [exact Hsq|].
  split; [apply Hdep; cbn; lia|].
  split; [apply Hdrv; cbn; lia|].
  split; assumption.
Defined.

(** C2 (as the code has it). buildPreviewResult is a total function; it
    returns no result exactly when the variable list is empty, or the number
    of rows of the matrix differs from the number of variables, or every
    off-diagonal position of the n×n index range holds a cell that is absent,
    zero or not finite.  The lengths of the rows are not examined. *)
Theorem buildPreviewResult_none_iff (names : list string) (matrix : Matrix) :
  buildPreviewResult names matrix = None
  ↔ names = []
    ∨ length matrix ≠ length names
    ∨ (∀ i j, i < length names -> j < length names -> i ≠ j -> deadCell matrix i j).
Proof.
  unfold buildPreviewResult.
  destruct (decide (length names = 0 ∨ length matrix ≠ length names)) as [Hn|Hn].
  - split; [intros _|reflexivity].
    destruct Hn as [Hn|Hn]; [left; destruct names; [reflexivity|discriminate] | right; left; exact Hn].
  - destruct (hasValue (length names) matrix) eqn:Hv; cbn [negb].
    + split; [discriminate|]. intros [->|[H|H]].
      * exfalso; apply Hn; left; reflexivity.
      * exfalso; apply Hn; right; exact H.
      * apply hasValue_false in H. congruence.
    + split; [intros _|reflexivity]. right; right. apply hasValue_false. exact Hv.
Qed.

(** C2, the failing instance: a matrix that is not square, with as many rows
    as there are variables, is not turned down; the missing cells count as 0
    and the surplus cells are ignored. *)
Lemma buildPreviewResult_ragged_matrix :
  expectedNoResult ["A"; "B"] raggedMatrix
  ∧ dependencia_x <$> buildPreviewResult ["A"; "B"] raggedMatrix = Some [0; 1]%float
  ∧ motricidad_y <$> buildPreviewResult ["A"; "B"] raggedMatrix = Some [1; 0]%float.
Proof.
  split.
  - right; left. intros [_ H]. apply Forall_cons in H as [H _]. discriminate H.
  - split; vm_compute; reflexivity.
Qed.

(** The entry of the quadrant map for a name of the list, and the absence
    of an entry named "__proto__". *)
Lemma buildPreviewResult_quadrant names matrix r i name :
  buildPreviewResult names matrix = Some r -> NoDup names ->
  names !! i = Some name -> name ≠ "__proto__" ->
  ∃ xi yi, dependencia_x r !! i = Some xi ∧ motricidad_y r !! i = Some yi
           ∧ quadrants r !! name = Some (quadrantLabel xi yi (x_cut r) (y_cut r)).
Proof.
  intros Hr Hnd Hname Hp. unfold buildPreviewResult in Hr.
  destruct (decide (length names = 0 ∨ length matrix ≠ length names)); [discriminate|].
  destruct (negb (hasValue (length names) matrix)); [discriminate|].
  injection Hr as <-. cbn [quadrants dependencia_x motricidad_y x_cut y_cut].
  pose proof (lookup_lt_Some _ _ _ Hname) as Hi.
  destruct (computeXY_length matrix) as [Hd Hv].
  destruct (lookup_lt_is_Some_2 (dependency (computeXY matrix)) i) as [xi Hxi]; [lia|].
  destruct (lookup_lt_is_Some_2 (driving (computeXY matrix)) i) as [yi Hyi]; [lia|].
  exists xi, yi. split; [exact Hxi|]. split; [exact Hyi|].
  assert (Hkey : nameAt names i = name) by (unfold nameAt; rewrite Hname; reflexivity).
  rewrite <- Hkey at 1.
  rewrite buildQuadrants_lookup; [|assumption | lia | assumption | rewrite Hkey; exact Hp].
  unfold numAt. rewrite Hxi, Hyi. reflexivity.
Qed.

Lemma buildPreviewResult_proto names matrix r :
  buildPreviewResult names matrix = Some r -> quadrants r !! "__proto__" = None.
Proof.
  intros Hr. unfold buildPreviewResult in Hr.
  destruct (decide (length names = 0 ∨ length matrix ≠ length names)); [discriminate|].
  destruct (negb (hasValue (length names) matrix)); [discriminate|].
  injection Hr as <-. cbn [quadrants]. apply buildQuadrants_proto.
Qed.

(** C3. quadrantLabel depends on its four arguments only and implements the
    four-way comparison against the cuts: "Determinante" (Determinant),
    "Reguladora" (Regulatory), "Resultado" (Result), "Autonoma"
    (Autonomous).  A point on both cuts is "Reguladora", and a tie on one
    axis counts as the high side of that axis.  The engine classifies
    variable i by this function: with distinct variable names, the label it
    stores under the name of variable i is the label of the entries
    (dependency[i], driving[i]) of the two vectors it returns and of the two
    cuts it returns.  The one name without a label is "__proto__": the
    assignment under that key stores nothing. *)
Theorem quadrantLabel_classification (x y xCut yCut : float) :
  (geb y yCut = true ∧ PrimFloat.ltb x xCut = true ->
     quadrantLabel x y xCut yCut = "Determinante")
  ∧ (geb y yCut = true ∧ geb x xCut = true ->
     quadrantLabel x y xCut yCut = "Reguladora")
  ∧ (PrimFloat.ltb y yCut = true ∧ geb x xCut = true ->
     quadrantLabel x y xCut yCut = "Resultado")
  ∧ (PrimFloat.ltb y yCut = true ∧ PrimFloat.ltb x xCut = true ->
     quadrantLabel x y xCut yCut = "Autonoma")
  ∧ (PrimFloat.eqb x xCut = true ∧ PrimFloat.eqb y yCut = true ->
     quadrantLabel x y xCut yCut = "Reguladora")
  ∧ (PrimFloat.eqb x xCut = true ->
     (geb y yCut = true -> quadrantLabel x y xCut yCut = "Reguladora")
     ∧ (PrimFloat.ltb y yCut = true -> quadrantLabel x y xCut yCut = "Resultado"))
  ∧ (PrimFloat.eqb y yCut = true ->
     (geb x xCut = true -> quadrantLabel x y xCut yCut = "Reguladora")
     ∧ (PrimFloat.ltb x xCut = true -> quadrantLabel x y xCut yCut = "Determinante"))
  ∧ (∀ names matrix r i name,
       buildPreviewResult names matrix = Some r -> NoDup names ->
       names !! i = Some name -> name ≠ "__proto__" ->
       ∃ xi yi, dependencia_x r !! i = Some xi ∧ motricidad_y r !! i = Some yi
                ∧ quadrants r !! name = Some (quadrantLabel xi yi (x_cut r) (y_cut r)))
  ∧ (∀ names matrix r,
       buildPreviewResult names matrix = Some r -> quadrants r !! "__proto__" = None).
Proof.
  assert (Hreg : geb y yCut = true ∧ geb x xCut = true ->
                 quadrantLabel x y xCut yCut = "Reguladora").
  { intros [Hy Hx]. unfold quadrantLabel.
    rewrite Hy, Hx, (geb_not_ltb x xCut Hx). reflexivity. }
  assert (Hdet : geb y yCut = true ∧ PrimFloat.ltb x xCut = true ->
                 quadrantLabel x y xCut yCut = "Determinante").
  { intros [Hy Hx]. unfold quadrantLabel. rewrite Hy, Hx. reflexivity. }
  assert (Hres : PrimFloat.ltb y yCut = true ∧ geb x xCut = true ->
                 quadrantLabel x y xCut yCut = "Resultado").
  { intros [Hy Hx]. unfold quadrantLabel.
    rewrite (ltb_not_geb y yCut Hy), Hy, Hx. reflexivity. }
  split; [exact Hdet|]. split; [exact Hreg|]. split; [exact Hres|].
  split; [|split; [|split; [|split; [|split]]]].
  - intros [Hy Hx]. unfold quadrantLabel.
    rewrite (ltb_not_geb y yCut Hy), Hy, (ltb_not_geb x xCut Hx). reflexivity.
  - intros [Hx Hy]. apply Hreg. split; apply eqb_geb; assumption.
  - intros Hx. apply eqb_geb in Hx. split; intros Hy; [apply Hreg | apply Hres];
      split; assumption.
  - intros Hy. apply eqb_geb in Hy. split; intros Hx; [apply Hreg | apply Hdet];
      split; assumption.
  - intros names matrix r i name. apply buildPreviewResult_quadrant.
  - intros names matrix r. apply buildPreviewResult_proto.
Qed.

(** The classification at work: a point on both cuts, a point above the
    driving cut and left of the dependency cut, the third variable of the
    scenario, and a variable that is named "__proto__". *)
Lemma quadrantLabel_classification_example :
  quadrantLabel 2 2 2 2 = "Reguladora"
  ∧ quadrantLabel 1 5 2 2 = "Determinante"
  ∧ quadrants exampleResult !! "C" = Some "Resultado"
  ∧ (quadrants <$> buildPreviewResult ["__proto__"; "B"] [[0; 1]; [3; 0]]%float)
    = Some (<["B" := "Determinante"]> ∅).
Proof.
  split; [|split; [|split]].
  - apply (proj1 (proj2 (proj2 (proj2 (proj2 (quadrantLabel_classification 2 2 2 2)))))).
    split; reflexivity.
  - apply (proj1 (quadrantLabel_classification 1 5 2 2)). split; reflexivity.
  - destruct (quadrantLabel_classification 0 0 0 0) as (_ & _ & _ & _ & _ & _ & _ & Hstore & _).
    destruct (Hstore exampleNames exampleMatrix exampleResult 2 "C") as (xi & yi & Hx & Hy & Hq).
    + vm_compute. reflexivity.
    + unfold exampleNames. repeat (apply NoDup_cons; split;
        [intros Hin; repeat (apply elem_of_cons in Hin as [Hin|Hin]; [discriminate|]);
         apply elem_of_nil in Hin; exact Hin|]). apply NoDup_nil. exact I.
    + reflexivity.
    + discriminate.
    + rewrite Hq. vm_compute in Hx, Hy. injection Hx as <-. injection Hy as <-.
      vm_compute. reflexivity.
  - vm_compute. reflexivity.
Defined.

(** C5, the failing instance: a NaN cell next to a live cell.  The matrix is
    accepted, and the NaN is added into the row and column sums it belongs
    to (the sums over the finite cells alone would be 0), so the two cuts
    are NaN and every variable falls into "Autonoma". *)
Theorem buildPreviewResult_nan_cell :
  motricidad_y <$> buildPreviewResult ["A"; "B"] nanMatrix = Some [PrimFloat.nan; 1%float]
  ∧ dependencia_x <$> buildPreviewResult ["A"; "B"] nanMatrix = Some [1%float; PrimFloat.nan]
  ∧ x_cut <$> buildPreviewResult ["A"; "B"] nanMatrix = Some PrimFloat.nan
  ∧ y_cut <$> buildPreviewResult ["A"; "B"] nanMatrix = Some PrimFloat.nan
  ∧ quadrants <$> buildPreviewResult ["A"; "B"] nanMatrix
    = Some (<["B" := "Autonoma"]> (<["A" := "Autonoma"]> ∅)).
Proof. repeat split; vm_compute; reflexivity. Qed.

End MatrixEngine.

(** ** DatasetImporter: normalizeNumberCell, parseVariablesRows,
       parseMatrixTable, parseCsvVariables, parseCsvMatrix, datasetToCsvFiles *)

Module DatasetImporter.
Import JsNumber.

(** A value held by a slot of a row handed over by the spreadsheet reader
    ([any]). *)
Inductive Cell :=
| CNum (x : float)
| CStr (s : string)
| CBool (b : bool)
| CNull
| CUndefined.

(** A JavaScript array that may have empty slots is a list of options:
    [None] is an empty slot, [Some x] a slot that holds [x], and the length
    of the list is the [length] of the array.  The reader leaves the slot of
    an empty sheet cell empty.  [map] and [some] skip the empty slots ([map]
    leaves them empty in its result), [findIndex], an index read and the
    spread read them as [undefined], and [join] writes them as the empty
    string.  A table is the array of its rows; the reader fills it row after
    row, without empty slots. *)
Abbreviation Row := (list (option Cell)).
Abbreviation Table := (list (list (option Cell))).

(** [array[k]]: [None] ([undefined]) for an empty slot and past the end. *)
Definition slotAt {A : Type} (l : list (option A)) (k : nat) : option A :=
  match l !! k with
  | Some (Some x) => Some x
  | _ => None
  end.

(** [array.map(callback)]: the callback runs on the slots that hold a value. *)
Definition mapSlots {A B : Type} (f : nat -> A -> B) (l : list (option A)) : list (option B) :=
  imap (fun idx s => f idx <$> s) l.

(** [array.some(callback)] *)
Definition someSlot {A : Type} (p : A -> bool) (l : list (option A)) : bool :=
  existsb (fun s => match s with Some x => p x | None => false end) l.

(** An array without empty slots. *)
Definition dense {A : Type} (l : list A) : list (option A) := map Some l.

(** What the importer calls and the repository does not define: the
    conversions between numbers and strings of the language, and the
    spreadsheet library.  [readSheet text] stands for
    [XLSX.read(text, {type: "string"})] followed by
    [XLSX.utils.sheet_to_json(firstSheet, {header: 1, blankrows: false})]. *)
Class Builtins := {
  numberToString : float -> string;
  stringToNumber : string -> float;
  readSheet : string -> Table
}.

(** [{ variables, matrix }]: the names are the result of a [map] over the
    header, and each row of the matrix the result of a [map] over the names,
    so both can have empty slots. *)
Record ParsedDataset := {
  variables : list (option string);
  matrix : list (list (option float))
}.

(** [data.matrix[i]?.[j]] *)
Definition valueAt (data : ParsedDataset) (i j : nat) : option float :=
  row ← matrix data !! i; slotAt row j.

(** The exceptions of the importer, one constructor per message. *)
Inductive ImportError :=
| EmptyFile
| NoHeader
| BlankHeaderName (position : nat)
| WrongRowCount (expected found : nat)
| RowLabelMismatch (rowName expected : string) (row : nat)
| NonNumericValue (row col : nat)
| NoValidNames
| VariableCountMismatch
| HeaderMismatch.

(** A string between double quotes. *)
Definition quoted (s : string) : string :=
  String (ascii_of_nat 34) s +:+ String (ascii_of_nat 34) EmptyString.

Definition errorMessage (e : ImportError) : string :=
  match e with
  | EmptyFile => "El archivo no contiene datos."
  | NoHeader => "La primera fila debe listar los nombres de variables."
  | BlankHeaderName k =>
      "Asigna un nombre a la variable " +:+ pretty k +:+ " en la cabecera."
  | WrongRowCount n m =>
      "La matriz debe ser " +:+ pretty n +:+ "x" +:+ pretty n +:+ "; se encontraron "
        +:+ pretty m +:+ " filas con datos."
  | RowLabelMismatch rowName expected r =>
      "El nombre de fila " +:+ quoted rowName +:+ " no coincide con " +:+ quoted expected
        +:+ " en la fila " +:+ pretty r +:+ "."
  | NonNumericValue r c =>
      "Valor no numerico en la posicion (" +:+ pretty r +:+ ", " +:+ pretty c +:+ ")."
  | NoValidNames => "variables.csv no tiene nombres validos."
  | VariableCountMismatch => "Los archivos CSV no tienen la misma cantidad de variables."
  | HeaderMismatch =>
      "Los encabezados de matrix.csv deben coincidir con variables.csv en orden y nombre."
  end.

(** A computation that returns a value or throws. *)
Inductive Result (A : Type) :=
| Ok (a : A)
| Err (e : ImportError).
Arguments Ok {A} a.
Arguments Err {A} e.

#[global] Instance Result_bind : MBind Result := fun A B k r =>
  match r with
  | Ok a => k a
  | Err e => Err e
  end.

(** [array.map(callback)] on an array without empty slots, with a callback
    that may throw: the elements are visited in index order from [start] and
    the first exception ends the map. *)
Fixpoint mapResult {A B : Type} (f : nat -> A -> Result B) (start : nat) (l : list A)
    : Result (list B) :=
  match l with
  | [] => Ok []
  | x :: rest =>
      y ← f start x;
      ys ← mapResult f (S start) rest;
      Ok (y :: ys)
  end.

(** The callback of a [map] as it meets a slot: an empty slot is passed
    over, and stays empty. *)
Definition onSlot {A B : Type} (f : nat -> A -> Result B) (idx : nat) (s : option A)
    : Result (option B) :=
  match s with
  | Some x => y ← f idx x; Ok (Some y)
  | None => Ok None
  end.

(** [array.map(callback)] on an array that may have empty slots, with a
    callback that may throw. *)
Definition mapSlotsResult {A B : Type} (f : nat -> A -> Result B) (l : list (option A))
    : Result (list (option B)) :=
  mapResult (onSlot f) 0 l.

(** *** Strings

    A string is represented by its UTF-8 encoding, one character of the
    Rocq string per byte.  [trim] removes the white space and the line
    terminators of the language, recognised by their encodings.
    [toLowerCase] changes the letters A to Z only: the code compares the
    lower-cased text with the words name, variable, nombre, mat, var, .csv
    and .xlsx only, and the lower case of a character outside A to Z never
    makes one of these comparisons succeed or fail (it has a byte outside
    a to z, or is the letter k, which none of the words has). *)

Definition LF : string := String (ascii_of_nat 10) "".

(** The no-break space U+00A0. *)
Definition NBSP : string := String (ascii_of_nat 194) (String (ascii_of_nat 160) "").

(** White space of one byte: U+0009 to U+000D and U+0020. *)
Definition isSpace (a : ascii) : bool :=
  let n := nat_of_ascii a in
  ((9 <=? n) && (n <=? 13)) || (n =? 32).

(** White space of two bytes: U+00A0 (C2 A0). *)
Definition isSpace2 (a b : ascii) : bool :=
  (nat_of_ascii a =? 194) && (nat_of_ascii b =? 160).

(** White space of three bytes: U+1680 (E1 9A 80), U+2000 to U+200A
    (E2 80 80 to E2 80 8A), U+2028 and U+2029 (E2 80 A8, E2 80 A9), U+202F
    (E2 80 AF), U+205F (E2 81 9F), U+3000 (E3 80 80) and U+FEFF (EF BB BF). *)
Definition isSpace3 (a b c : ascii) : bool :=
  let x := nat_of_ascii a in
  let y := nat_of_ascii b in
  let z := nat_of_ascii c in
  ((x =? 225) && (y =? 154) && (z =? 128))
  || ((x =? 226) && (y =? 128)
      && (((128 <=? z) && (z <=? 138)) || (z =? 168) || (z =? 169) || (z =? 175)))
  || ((x =? 226) && (y =? 129) && (z =? 159))
  || ((x =? 227) && (y =? 128) && (z =? 128))
  || ((x =? 239) && (y =? 187) && (z =? 191)).

(** What follows the white-space character that [s] starts with, if it
    starts with one. *)
Definition skipSpace (s : string) : option string :=
  match s with
  | String a r1 =>
      if isSpace a then Some r1
      else match r1 with
           | String b r2 =>
               if isSpace2 a b then Some r2
               else match r2 with
                    | String c r3 => if isSpace3 a b c then Some r3 else None
                    | EmptyString => None
                    end
           | EmptyString => None
           end
  | EmptyString => None
  end.

Fixpoint trimStart (s : string) : string :=
  match s with
  | String a r1 =>
      if isSpace a then trimStart r1
      else match r1 with
           | String b r2 =>
               if isSpace2 a b then trimStart r2
               else match r2 with
                    | String c r3 => if isSpace3 a b c then trimStart r3 else s
                    | EmptyString => s
                    end
           | EmptyString => s
           end
  | EmptyString => EmptyString
  end.

(** [trimEnd s] keeps the bytes of [s] up to the point from which only
    white space follows. *)
Fixpoint trimEnd (s : string) : string :=
  match s with
  | String a rest => if decide (trimStart s = "") then "" else String a (trimEnd rest)
  | EmptyString => EmptyString
  end.

Definition trim (s : string) : string := trimEnd (trimStart s).

(** [s.replace(",", ".")]: the first comma only. *)
Fixpoint replaceComma (s : string) : string :=
  match s with
  | String a rest => if decide (a = ","%char) then String "."%char rest
                     else String a (replaceComma rest)
  | EmptyString => EmptyString
  end.

Definition lowerChar (a : ascii) : ascii :=
  let n := nat_of_ascii a in
  if (65 <=? n) && (n <=? 90) then ascii_of_nat (n + 32) else a.

Fixpoint toLowerCase (s : string) : string :=
  match s with
  | String a rest => String (lowerChar a) (toLowerCase rest)
  | EmptyString => EmptyString
  end.

(** [parts.join(sep)] for an array of strings without empty slots. *)
Definition join (sep : string) (parts : list string) : string :=
  String.concat sep parts.

(** The text [join] and the spread make of a slot: [undefined], and so an
    empty slot, is written as the empty string. *)
Definition slotText (s : option string) : string := default "" s.

(** *** Facts about trim *)

Lemma trimStart_skip s :
  trimStart s = match skipSpace s with Some r => trimStart r | None => s end.
Proof.
  destruct s as [|a [|b [|c r]]]; cbn [trimStart skipSpace]; try reflexivity.
  - destruct (isSpace a); reflexivity.
  - destruct (isSpace a); [reflexivity|]. destruct (isSpace2 a b); reflexivity.
  - destruct (isSpace a); [reflexivity|]. destruct (isSpace2 a b); [reflexivity|].
    destruct (isSpace3 a b c); reflexivity.
Qed.

Lemma skipSpace_shorter s r : skipSpace s = Some r -> String.length r < String.length s.
Proof.
  destruct s as [|a [|b [|c r']]]; cbn [skipSpace]; try discriminate.
  - destruct (isSpace a); [|discriminate]. intros [= <-]. cbn. lia.
  - destruct (isSpace a); [intros [= <-]; cbn; lia|].
    destruct (isSpace2 a b); [|discriminate]. intros [= <-]. cbn. lia.
  - destruct (isSpace a); [intros [= <-]; cbn; lia|].
    destruct (isSpace2 a b); [intros [= <-]; cbn; lia|].
    destruct (isSpace3 a b c); [|discriminate]. intros [= <-]. cbn. lia.
Qed.

Lemma append_cons (a : ascii) (x y : string) : String a x +:+ y = String a (x +:+ y).
Proof. reflexivity. Qed.

Lemma append_empty (y : string) : "" +:+ y = y.
Proof. reflexivity. Qed.

Lemma skipSpace_app x r y : skipSpace x = Some r -> skipSpace (x +:+ y) = Some (r +:+ y).
Proof.
  destruct x as [|a [|b [|c x']]]; rewrite ?append_cons, ?append_empty;
    cbn [skipSpace]; try discriminate.
  - destruct (isSpace a); [|discriminate]. intros [= <-]. reflexivity.
  - destruct (isSpace a); [intros [= <-]; reflexivity|].
    destruct (isSpace2 a b); [|discriminate]. intros [= <-].
    destruct y; reflexivity.
  - destruct (isSpace a); [intros [= <-]; reflexivity|].
    destruct (isSpace2 a b); [intros [= <-]; reflexivity|].
    destruct (isSpace3 a b c); [|discriminate]. intros [= <-]. reflexivity.
Qed.

(** White space in front of a string is removed with the white space the
    string starts with. *)
Lemma trimStart_app x y : trimStart x = "" -> trimStart (x +:+ y) = trimStart y.
Proof.
  remember (String.length x) as n eqn:Hn. revert x Hn.
  induction n as [n IH] using lt_wf_ind. intros x Hn Hx.
  destruct x as [|a x']; [reflexivity|].
  rewrite trimStart_skip in Hx.
  destruct (skipSpace (String a x')) as [r|] eqn:Hskip; [|discriminate].
  rewrite trimStart_skip, (skipSpace_app _ _ y Hskip).
  apply (IH (String.length r)); [|reflexivity | exact Hx].
  rewrite Hn. apply skipSpace_shorter. exact Hskip.
Qed.

(** What [trimEnd] removes is white space. *)
Lemma trimEnd_split s : ∃ t, s = trimEnd s +:+ t ∧ trimStart t = "".
Proof.
  induction s as [|a rest IH]; [exists ""; split; reflexivity|].
  cbn [trimEnd]. destruct (decide (trimStart (String a rest) = "")) as [Hall|Hsome].
  - exists (String a rest). split; [reflexivity | exact Hall].
  - destruct IH as (t & Hrest & Ht). exists t. split; [|exact Ht].
    rewrite append_cons, <- Hrest. reflexivity.
Qed.

Lemma trimEnd_idempotent s : trimEnd (trimEnd s) = trimEnd s.
Proof.
  induction s as [|a rest IH]; [reflexivity|]. cbn [trimEnd].
  destruct (decide (trimStart (String a rest) = "")) as [Hall|Hsome]; [reflexivity|].
  cbn [trimEnd]. rewrite IH.
  destruct (decide (trimStart (String a (trimEnd rest)) = "")) as [Hbad|_]; [|reflexivity].
  exfalso. apply Hsome. destruct (trimEnd_split rest) as (t & Hrest & Ht).
  rewrite Hrest at 1. rewrite <- append_cons, (trimStart_app _ t Hbad). exact Ht.
Qed.

(** The string does not start with white space. *)
Definition startsClean (s : string) : Prop := skipSpace s = None.

Lemma trimStart_startsClean s : startsClean (trimStart s).
Proof.
  unfold startsClean. remember (String.length s) as n eqn:Hn. revert s Hn.
  induction n as [n IH] using lt_wf_ind. intros s Hn.
  rewrite trimStart_skip. destruct (skipSpace s) as [r|] eqn:Hskip; [|exact Hskip].
  apply (IH (String.length r)); [|reflexivity].
  rewrite Hn. apply skipSpace_shorter. exact Hskip.
Qed.

Lemma trimStart_clean s : startsClean s -> trimStart s = s.
Proof. unfold startsClean. intros Hs. rewrite trimStart_skip, Hs. reflexivity. Qed.

Lemma trimEnd_startsClean s : startsClean s -> startsClean (trimEnd s).
Proof.
  unfold startsClean. intros Hs. destruct (skipSpace (trimEnd s)) as [r|] eqn:Hr; [|reflexivity].
  destruct (trimEnd_split s) as (t & Hsplit & _).
  rewrite Hsplit, (skipSpace_app _ _ t Hr) in Hs. discriminate.
Qed.

Lemma trim_idempotent s : trim (trim s) = trim s.
Proof.
  unfold trim. rewrite (trimStart_clean (trimEnd (trimStart s))).
  - apply trimEnd_idempotent.
  - apply trimEnd_startsClean, trimStart_startsClean.
Qed.

Lemma replaceComma_empty s : replaceComma s = "" ↔ s = "".
Proof.
  destruct s as [|a s]; cbn; [tauto|].
  destruct (decide (a = ","%char)); split; discriminate.
Qed.

Section Importer.
Context `{Builtins}.

(** [String(cell)] *)
Definition cellToString (cell : Cell) : string :=
  match cell with
  | CNum x => numberToString x
  | CStr s => s
  | CBool true => "true"
  | CBool false => "false"
  | CNull => "null"
  | CUndefined => "undefined"
  end.

(** [String(cell ?? "")] *)
Definition cellText (cell : Cell) : string :=
  match cell with
  | CNull | CUndefined => ""
  | _ => cellToString cell
  end.

(** [row[k]]: [undefined] for an empty slot and past the end of the row. *)
Definition cellAt (row : Row) (k : nat) : Cell :=
  default CUndefined (slotAt row k).

Definition normalizeNumberCell (cell : Cell) (rowIndex colIndex : nat) : Result float :=
  match cell with
  | CNum x =>
      if isFinite x then Ok x else Err (NonNumericValue rowIndex colIndex)
  | CStr s =>
      let normalized := replaceComma (trim s) in
      if decide (normalized = "") then Ok 0%float
      else
        let num := stringToNumber normalized in
        if isFinite num then Ok num
        else if decide (s = "") then Ok 0%float
        else Err (NonNumericValue rowIndex colIndex)
  | CNull | CUndefined => Ok 0%float
  | CBool _ => Err (NonNumericValue rowIndex colIndex)
  end.

Definition isNameHeader (h : string) : bool :=
  bool_decide (h = "name" ∨ h = "variable" ∨ h = "nombre").

(** The test of [header.findIndex] as it meets a slot: an empty slot is
    read as [undefined], which is none of the three words. *)
Definition isNameSlot (s : option string) : bool :=
  match s with
  | Some h => isNameHeader h
  | None => false
  end.

(** [array.findIndex(p)], [None] for -1; every index is visited. *)
Fixpoint findIndex {A : Type} (p : A -> bool) (l : list A) : option nat :=
  match l with
  | [] => None
  | x :: rest => if p x then Some 0 else S <$> findIndex p rest
  end.

Definition parseVariablesRows (rows : Table) : list string :=
  match rows with
  | [] => []
  | first :: rest =>
      let header := mapSlots (fun _ cell => toLowerCase (trim (cellText cell))) first in
      let found := findIndex isNameSlot header in
      let dataRows := if found is Some _ then rest else rows in
      let nameIdx := default 0 found in
      filter (fun v => v ≠ "") (map (fun row => trim (cellText (cellAt row nameIdx))) dataRows)
  end.

(** [(rows[0] ?? []).slice(1).map((cell) => String(cell ?? "").trim())] *)
Definition headerCells (rows : Table) : list (option string) :=
  mapSlots (fun _ cell => trim (cellText cell)) (tail (default [] (head rows))).

(** The callback of [headerCells.map]: a blank name throws. *)
Definition checkHeaderName (idx : nat) (name : string) : Result string :=
  if decide (name = "") then Err (BlankHeaderName (idx + 1)) else Ok name.

(** [cell !== null && cell !== undefined && String(cell).trim() !== ""] *)
Definition isFilled (cell : Cell) : bool :=
  match cell with
  | CNull | CUndefined => false
  | _ => bool_decide (trim (cellToString cell) ≠ "")
  end.

(** [rows.slice(1).filter((row) => row.some(...))] *)
Definition bodyRows (rows : Table) : Table :=
  filter (fun row => someSlot isFilled row = true) (tail rows).

(** The callback of [body.map]: the label check against [variables[rowIndex]],
    then one value per header name. *)
Definition parseRow (names : list (option string)) (rowIndex : nat) (row : Row)
    : Result (list (option float)) :=
  let rowName := trim (cellText (cellAt row 0)) in
  if decide (rowName ≠ "" ∧ slotAt names rowIndex ≠ Some rowName)
  then Err (RowLabelMismatch rowName (default "undefined" (slotAt names rowIndex))
              (rowIndex + 2))
  else mapSlotsResult
         (fun colIndex _ =>
            normalizeNumberCell (cellAt row (colIndex + 1)) (rowIndex + 2) (colIndex + 2))
         names.

Definition parseMatrixTable (rows : Table) : Result ParsedDataset :=
  if decide (rows = []) then Err EmptyFile
  else if decide (headerCells rows = []) then Err NoHeader
  else
    names ← mapSlotsResult checkHeaderName (headerCells rows);
    let body := bodyRows rows in
    if decide (length body ≠ length names)
    then Err (WrongRowCount (length names) (length body))
    else
      values ← mapResult (parseRow names) 0 body;
      Ok {| variables := names; matrix := values |}.

Definition parseCsvVariables (text : string) : Result (list string) :=
  let names := parseVariablesRows (readSheet text) in
  if decide (names = []) then Err NoValidNames else Ok names.

Definition parseCsvMatrix (text : string) : Result ParsedDataset :=
  parseMatrixTable (readSheet text).

Record CsvFiles := { varsFile : string; matrixFile : string }.

(** The texts of the two files, "variables.csv" and "matrix.csv".  The
    spread [...data.variables] reads an empty slot as [undefined], which
    [join] writes as the empty string; [Number(v ?? 0)] is [v] for a number,
    and [join] writes it with [String]. *)
Definition datasetToCsvFiles (data : ParsedDataset) : CsvFiles :=
  let names := map slotText (variables data) in
  let varsContent := join LF ("name" :: names) in
  let header := join "," ("" :: names) in
  let body :=
    mapSlots (fun idx name =>
                join "," (name :: map slotText
                                    (mapSlots (fun _ v => numberToString v)
                                              (default [] (matrix data !! idx)))))
             (variables data) in
  let matrixContent := join LF (header :: map slotText body) in
  {| varsFile := varsContent; matrixFile := matrixContent |}.

(** The callback of [parsed.variables.some((name, idx) => name !== names[idx])]
    as it meets a slot. *)
Definition differsAt (names : list string) (entry : nat * option string) : bool :=
  match entry.2 with
  | Some name => bool_decide (names !! entry.1 ≠ Some name)
  | None => false
  end.

(** The two-file branch of handleImportFiles, from the texts of the files to
    the dataset that is persisted. *)
Definition importCsvFiles (varsText matrixText : string) : Result ParsedDataset :=
  names ← parseCsvVariables varsText;
  parsed ← parseCsvMatrix matrixText;
  if decide (length names ≠ length (variables parsed)) then Err VariableCountMismatch
  else if existsb (differsAt names) (imap pair (variables parsed))
  then Err HeaderMismatch
  else Ok {| variables := dense names; matrix := matrix parsed |}.

(** *** Maps whose callback may throw *)

Lemma bind_Ok {A B : Type} (r : Result A) (k : A -> Result B) (b : B) :
  r ≫= k = Ok b -> ∃ a, r = Ok a ∧ k a = Ok b.
Proof. destruct r as [a|e]; cbn; [eauto | discriminate]. Qed.

Lemma mapResult_length {A B : Type} (f : nat -> A -> Result B) l start ys :
  mapResult f start l = Ok ys -> length ys = length l.
Proof.
  revert start ys. induction l as [|x l IH]; intros start ys Hm; cbn in Hm.
  - injection Hm as <-. reflexivity.
  - apply bind_Ok in Hm as (y & _ & Hm). apply bind_Ok in Hm as (ys' & Hys & Hm).
    injection Hm as <-. cbn. f_equal. eapply IH; eassumption.
Qed.

Lemma mapResult_lookup {A B : Type} (f : nat -> A -> Result B) l start ys i x :
  mapResult f start l = Ok ys -> l !! i = Some x ->
  ∃ y, ys !! i = Some y ∧ f (start + i) x = Ok y.
Proof.
  revert start ys i. induction l as [|x0 l IH]; intros start ys i Hm Hx; [discriminate|].
  cbn in Hm. apply bind_Ok in Hm as (y & Hy & Hm). apply bind_Ok in Hm as (ys' & Hys & Hm).
  injection Hm as <-. destruct i as [|i]; cbn in Hx.
  - injection Hx as <-. exists y. rewrite Nat.add_0_r. split; [reflexivity | assumption].
  - destruct (IH _ _ _ Hys Hx) as (y' & Hy' & Hf). exists y'. split; [assumption|].
    rewrite <- Hf. f_equal. lia.
Qed.

(** The exception raised is that of the first element whose callback throws. *)
Lemma mapResult_first_error {A B : Type} (f : nat -> A -> Result B) l start i x e :
  l !! i = Some x -> f (start + i) x = Err e ->
  (∀ k x', k < i -> l !! k = Some x' -> ∃ y, f (start + k) x' = Ok y) ->
  mapResult f start l = Err e.
Proof.
  revert start i. induction l as [|x0 l IH]; intros start i Hx He Hbefore; [discriminate|].
  destruct i as [|i]; cbn in Hx |- *.
  - injection Hx as ->. rewrite Nat.add_0_r in He. rewrite He. reflexivity.
  - destruct (Hbefore 0 x0) as (y & Hy); [lia | reflexivity|].
    rewrite Nat.add_0_r in Hy. rewrite Hy. cbn.
    rewrite (IH (S start) i); [reflexivity | assumption | |].
    + rewrite <- He. f_equal. lia.
    + intros k x' Hk Hx'. destruct (Hbefore (S k) x') as (y' & Hy'); [lia | exact Hx'|].
      exists y'. rewrite <- Hy'. f_equal. lia.
Qed.

(** A map none of whose callbacks throws returns their results in order. *)
Lemma mapResult_Ok_intro {A B : Type} (f : nat -> A -> Result B) l start ys :
  length ys = length l ->
  (∀ i x y, l !! i = Some x -> ys !! i = Some y -> f (start + i) x = Ok y) ->
  mapResult f start l = Ok ys.
Proof.
  revert start ys. induction l as [|x l IH]; intros start ys Hlen Hall.
  - destruct ys; [reflexivity | discriminate].
  - destruct ys as [|y ys]; [discriminate|]. cbn [mapResult].
    pose proof (Hall 0 x y eq_refl eq_refl) as H0. rewrite Nat.add_0_r in H0.
    rewrite H0. cbn. rewrite (IH (S start) ys); [reflexivity | cbn in Hlen; lia|].
    intros i x' y' Hx' Hy'. replace (S start + i) with (start + S i) by lia.
    apply Hall; assumption.
Qed.

(** A map that throws stopped at an element whose callback threw, after
    callbacks that returned. *)
Lemma mapResult_Err_inv {A B : Type} (f : nat -> A -> Result B) l start e :
  mapResult f start l = Err e ->
  ∃ i x, l !! i = Some x ∧ f (start + i) x = Err e
         ∧ ∀ k x', k < i -> l !! k = Some x' -> ∃ y, f (start + k) x' = Ok y.
Proof.
  revert start. induction l as [|x0 l IH]; intros start Hm; [discriminate|].
  cbn [mapResult] in Hm. destruct (f start x0) as [y|e0] eqn:Hf; cbn in Hm.
  - destruct (mapResult f (S start) l) as [ys|e1] eqn:Hrest; cbn in Hm; [discriminate|].
    injection Hm as ->. destruct (IH (S start) Hrest) as (i & x & Hx & He & Hbefore).
    exists (S i), x. split; [exact Hx|]. split.
    + rewrite <- He. f_equal. lia.
    + intros k x' Hk Hx'. destruct k as [|k].
      * cbn in Hx'. injection Hx' as <-. exists y. rewrite Nat.add_0_r. exact Hf.
      * destruct (Hbefore k x') as (y' & Hy'); [lia | exact Hx'|].
        exists y'. rewrite <- Hy'. f_equal. lia.
  - injection Hm as ->. exists 0, x0. split; [reflexivity|]. split.
    + rewrite Nat.add_0_r. exact Hf.
    + intros k x' Hk. lia.
Qed.

(** *** Maps over arrays with empty slots *)

Lemma slotAt_Some {A : Type} (l : list (option A)) (k : nat) (x : A) :
  slotAt l k = Some x ↔ l !! k = Some (Some x).
Proof.
  unfold slotAt. destruct (l !! k) as [[y|]|]; split; congruence.
Qed.

Lemma slotAt_lt {A : Type} (l : list (option A)) (k : nat) (x : A) :
  slotAt l k = Some x -> k < length l.
Proof. intros Hs. apply slotAt_Some in Hs. eapply lookup_lt_Some; exact Hs. Qed.

Lemma slotAt_dense {A : Type} (l : list A) (k : nat) : slotAt (dense l) k = l !! k.
Proof.
  unfold slotAt, dense. rewrite list_lookup_fmap. destruct (l !! k); reflexivity.
Qed.

Lemma slotAt_mapSlots {A B : Type} (f : nat -> A -> B) (l : list (option A)) (k : nat) :
  slotAt (mapSlots f l) k = f k <$> slotAt l k.
Proof.
  unfold slotAt, mapSlots. rewrite list_lookup_imap.
  destruct (l !! k) as [[x|]|]; reflexivity.
Qed.

Lemma length_mapSlots {A B : Type} (f : nat -> A -> B) (l : list (option A)) :
  length (mapSlots f l) = length l.
Proof. apply length_imap. Qed.

Lemma mapSlotsResult_length {A B : Type} (f : nat -> A -> Result B) l ys :
  mapSlotsResult f l = Ok ys -> length ys = length l.
Proof. apply mapResult_length. Qed.

(** In the result of a map, a slot that held a value holds the result of
    the callback on it, and an empty slot is empty. *)
Lemma mapSlotsResult_lookup {A B : Type} (f : nat -> A -> Result B) l ys i s :
  mapSlotsResult f l = Ok ys -> l !! i = Some s ->
  match s with
  | Some x => ∃ y, ys !! i = Some (Some y) ∧ f i x = Ok y
  | None => ys !! i = Some None
  end.
Proof.
  intros Hm Hs. destruct (mapResult_lookup _ _ _ _ _ _ Hm Hs) as (y & Hy & Hf).
  cbn [Nat.add] in Hf. destruct s as [x|]; cbn [onSlot] in Hf.
  - apply bind_Ok in Hf as (y' & Hy' & Hf). injection Hf as <-.
    exists y'. split; assumption.
  - injection Hf as <-. exact Hy.
Qed.

Lemma mapSlotsResult_slot {A B : Type} (f : nat -> A -> Result B) l ys i x :
  mapSlotsResult f l = Ok ys -> slotAt l i = Some x ->
  ∃ y, slotAt ys i = Some y ∧ f i x = Ok y.
Proof.
  intros Hm Hs. apply slotAt_Some in Hs.
  destruct (mapSlotsResult_lookup _ _ _ _ _ Hm Hs) as (y & Hy & Hf).
  exists y. split; [apply slotAt_Some; exact Hy | exact Hf].
Qed.

Lemma mapSlotsResult_empty {A B : Type} (f : nat -> A -> Result B) l ys i :
  mapSlotsResult f l = Ok ys -> slotAt l i = None -> slotAt ys i = None.
Proof.
  intros Hm Hs. unfold slotAt in Hs |- *.
  destruct (l !! i) as [s|] eqn:Hl.
  - destruct s as [x|]; [discriminate|].
    rewrite (mapSlotsResult_lookup _ _ _ _ _ Hm Hl). reflexivity.
  - rewrite lookup_ge_None_2; [reflexivity|].
    rewrite (mapSlotsResult_length _ _ _ Hm). apply lookup_ge_None. exact Hl.
Qed.

(** The exception of a map over slots is that of the first slot that holds
    a value on which the callback throws. *)
Lemma mapSlotsResult_first_error {A B : Type} (f : nat -> A -> Result B) l i x e :
  slotAt l i = Some x -> f i x = Err e ->
  (∀ k x', k < i -> slotAt l k = Some x' -> ∃ y, f k x' = Ok y) ->
  mapSlotsResult f l = Err e.
Proof.
  intros Hx He Hbefore. apply slotAt_Some in Hx.
  apply (mapResult_first_error (onSlot f) l 0 i (Some x)); [exact Hx | |].
  - cbn. rewrite He. reflexivity.
  - intros k s Hk Hs. cbn [Nat.add]. destruct s as [x'|]; cbn [onSlot].
    + destruct (Hbefore k x' Hk) as (y & Hy); [apply slotAt_Some; exact Hs|].
      rewrite Hy. eexists. reflexivity.
    + eexists. reflexivity.
Qed.

Lemma mapSlotsResult_Err_inv {A B : Type} (f : nat -> A -> Result B) l e :
  mapSlotsResult f l = Err e ->
  ∃ i x, slotAt l i = Some x ∧ f i x = Err e
         ∧ ∀ k x', k < i -> slotAt l k = Some x' -> ∃ y, f k x' = Ok y.
Proof.
  intros Hm. apply mapResult_Err_inv in Hm as (i & s & Hs & He & Hbefore).
  cbn [Nat.add] in He. destruct s as [x|]; cbn [onSlot] in He; [|discriminate].
  destruct (f i x) as [y|e0] eqn:Hf; cbn in He; [discriminate|]. injection He as ->.
  exists i, x. split; [apply slotAt_Some; exact Hs|]. split; [exact Hf|].
  intros k x' Hk Hx'. apply slotAt_Some in Hx'.
  destruct (Hbefore k (Some x') Hk Hx') as (y & Hy). cbn in Hy.
  destruct (f k x') as [y'|]; [eexists; reflexivity | discriminate].
Qed.

(** A map over slots none of whose callbacks throws. *)
Lemma mapSlotsResult_Ok_intro {A B : Type} (f : nat -> A -> Result B) l ys :
  length ys = length l ->
  (∀ i, match l !! i with
        | Some (Some x) => ∃ y, ys !! i = Some (Some y) ∧ f i x = Ok y
        | Some None => ys !! i = Some None
        | None => True
        end) ->
  mapSlotsResult f l = Ok ys.
Proof.
  intros Hlen Hall. apply mapResult_Ok_intro; [exact Hlen|].
  intros i s y Hs Hy. cbn [Nat.add]. specialize (Hall i). rewrite Hs in Hall.
  destruct s as [x|]; cbn [onSlot].
  - destruct Hall as (y' & Hy' & Hf). rewrite Hf. cbn. congruence.
  - congruence.
Qed.

(** *** The header check *)

(** [k] is the position of the first header slot that holds a blank name. *)
Definition firstBlank (hs : list (option string)) (k : nat) : Prop :=
  slotAt hs k = Some "" ∧ ∀ k', k' < k -> slotAt hs k' ≠ Some "".

(** No slot of the header holds a blank name. *)
Definition allNamed (hs : list (option string)) : Prop :=
  Forall (fun s => s ≠ Some "") hs.

Lemma checkHeaderName_Ok idx name y :
  checkHeaderName idx name = Ok y ↔ name ≠ "" ∧ y = name.
Proof.
  unfold checkHeaderName. destruct (decide (name = "")) as [->|Hne]; split.
  - discriminate.
  - intros [Hbad _]. contradiction.
  - intros [= <-]. split; [assumption | reflexivity].
  - intros [_ ->]. reflexivity.
Qed.

Lemma checkHeader_Ok names hs :
  mapSlotsResult checkHeaderName hs = Ok names -> names = hs ∧ allNamed hs.
Proof.
  intros Hm. pose proof (mapSlotsResult_length _ _ _ Hm) as Hlen. split.
  - apply list_eq. intros i. destruct (hs !! i) as [s|] eqn:Hs.
    + pose proof (mapSlotsResult_lookup _ _ _ _ _ Hm Hs) as Hi. destruct s as [x|].
      * destruct Hi as (y & Hy & Hf). apply checkHeaderName_Ok in Hf as [_ ->]. exact Hy.
      * exact Hi.
    + apply lookup_ge_None. apply lookup_ge_None in Hs. lia.
  - apply Forall_lookup. intros i s Hs ->.
    destruct (mapSlotsResult_lookup _ _ _ _ _ Hm Hs) as (y & _ & Hf).
    apply checkHeaderName_Ok in Hf as [Hne _]. contradiction.
Qed.

Lemma checkHeader_all_named hs :
  allNamed hs -> mapSlotsResult checkHeaderName hs = Ok hs.
Proof.
  intros Hall. apply mapSlotsResult_Ok_intro; [reflexivity|].
  intros i. destruct (hs !! i) as [[x|]|] eqn:Hs; [|reflexivity | exact I].
  exists x. split; [reflexivity|]. apply checkHeaderName_Ok. split; [|reflexivity].
  intros ->. unfold allNamed in Hall. rewrite Forall_lookup in Hall.
  exact (Hall i _ Hs eq_refl).
Qed.

Lemma checkHeader_Err hs e :
  mapSlotsResult checkHeaderName hs = Err e
  ↔ ∃ k, e = BlankHeaderName (k + 1) ∧ firstBlank hs k.
Proof.
  split.
  - intros Hm. apply mapSlotsResult_Err_inv in Hm as (k & name & Hname & He & Hbefore).
    unfold checkHeaderName in He.
    destruct (decide (name = "")) as [->|]; [|discriminate]. injection He as <-.
    exists k. split; [reflexivity|]. split; [exact Hname|].
    intros k' Hk Hname'. destruct (Hbefore k' "" Hk Hname') as (y & Hy).
    apply checkHeaderName_Ok in Hy as [Hne _]. contradiction.
  - intros (k & -> & Hk & Hbefore).
    apply (mapSlotsResult_first_error _ hs k ""); [exact Hk | reflexivity|].
    intros k' name Hk' Hname. exists name. apply checkHeaderName_Ok. split; [|reflexivity].
    intros ->. exact (Hbefore k' Hk' Hname).
Qed.

(** A header has a first blank name, or none of its names is blank. *)
Lemma allNamed_or_firstBlank hs : allNamed hs ∨ ∃ k, firstBlank hs k.
Proof.
  destruct (mapSlotsResult checkHeaderName hs) as [names|e] eqn:Hm.
  - left. apply checkHeader_Ok in Hm as [_ Hall]. exact Hall.
  - right. apply checkHeader_Err in Hm as (k & _ & Hk). exists k. exact Hk.
Qed.

Lemma allNamed_not_firstBlank hs k : allNamed hs -> ¬ firstBlank hs k.
Proof.
  intros Hall [Hk _]. apply slotAt_Some in Hk.
  unfold allNamed in Hall. rewrite Forall_lookup in Hall. exact (Hall k _ Hk eq_refl).
Qed.

(** *** What parseMatrixTable checks, in the order it checks it *)

(** The table has a first row, the header has at least one slot, no header
    name is blank, and there are as many filled data rows as header slots. *)
Definition passesStructure (rows : Table) : Prop :=
  rows ≠ [] ∧ headerCells rows ≠ []
  ∧ allNamed (headerCells rows)
  ∧ length (bodyRows rows) = length (headerCells rows).

(** The label of a data row is blank or is the header name of its position. *)
Definition labelOk (names : list (option string)) (rowIndex : nat) (row : Row) : Prop :=
  ¬ (trim (cellText (cellAt row 0)) ≠ ""
     ∧ slotAt names rowIndex ≠ Some (trim (cellText (cellAt row 0)))).

Lemma parseMatrixTable_structured rows :
  passesStructure rows ->
  parseMatrixTable rows
  = (values ← mapResult (parseRow (headerCells rows)) 0 (bodyRows rows);
     Ok {| variables := headerCells rows; matrix := values |}).
Proof.
  intros (Hrows & Hhdr & Hnamed & Hcount). unfold parseMatrixTable.
  destruct (decide (rows = [])); [contradiction|].
  destruct (decide (headerCells rows = [])); [contradiction|].
  rewrite checkHeader_all_named by assumption. cbn.
  destruct (decide (length (bodyRows rows) ≠ length (headerCells rows))); [contradiction|].
  reflexivity.
Qed.

Lemma parseMatrixTable_Ok rows ds :
  parseMatrixTable rows = Ok ds ->
  passesStructure rows
  ∧ variables ds = headerCells rows
  ∧ mapResult (parseRow (headerCells rows)) 0 (bodyRows rows) = Ok (matrix ds).
Proof.
  unfold parseMatrixTable. intros Hp.
  destruct (decide (rows = [])) as [|Hrows]; [discriminate|].
  destruct (decide (headerCells rows = [])) as [|Hhdr]; [discriminate|].
  apply bind_Ok in Hp as (names & Hnames & Hp).
  apply checkHeader_Ok in Hnames as [-> Hnamed].
  destruct (decide (length (bodyRows rows) ≠ length (headerCells rows))) as [|Hcount];
    [discriminate|].
  apply bind_Ok in Hp as (values & Hvalues & Hp). injection Hp as <-. cbn.
  split; [|split; [reflexivity | assumption]].
  repeat split; try assumption. lia.
Qed.

Lemma parseRow_Ok names rowIndex row vals :
  parseRow names rowIndex row = Ok vals ->
  labelOk names rowIndex row
  ∧ mapSlotsResult
      (fun colIndex _ =>
         normalizeNumberCell (cellAt row (colIndex + 1)) (rowIndex + 2) (colIndex + 2))
      names = Ok vals.
Proof.
  unfold parseRow, labelOk. intros Hp.
  destruct (decide (trim (cellText (cellAt row 0)) ≠ ""
                    ∧ slotAt names rowIndex ≠ Some (trim (cellText (cellAt row 0)))));
    [discriminate | split; assumption].
Qed.

Lemma parseRow_labelOk names rowIndex row :
  labelOk names rowIndex row ->
  parseRow names rowIndex row
  = mapSlotsResult
      (fun colIndex _ =>
         normalizeNumberCell (cellAt row (colIndex + 1)) (rowIndex + 2) (colIndex + 2))
      names.
Proof.
  unfold parseRow, labelOk. intros Hl.
  destruct (decide (trim (cellText (cellAt row 0)) ≠ ""
                    ∧ slotAt names rowIndex ≠ Some (trim (cellText (cellAt row 0)))));
    [contradiction | reflexivity].
Qed.

(** The one exception normalizeNumberCell raises. *)
Lemma normalizeNumberCell_Err cell r c e :
  normalizeNumberCell cell r c = Err e -> e = NonNumericValue r c.
Proof.
  destruct cell as [x|s|b| |]; cbn [normalizeNumberCell]; intros He.
  - destruct (isFinite x); [discriminate | congruence].
  - destruct (decide (replaceComma (trim s) = "")); [discriminate|].
    destruct (isFinite (stringToNumber (replaceComma (trim s)))); [discriminate|].
    destruct (decide (s = "")); [discriminate | congruence].
  - congruence.
  - discriminate.
  - discriminate.
Qed.

Lemma normalizeNumberCell_finite cell r c v :
  normalizeNumberCell cell r c = Ok v -> isFinite v = true.
Proof.
  destruct cell as [x|s|b| |]; cbn [normalizeNumberCell]; intros Hv.
  - destruct (isFinite x) eqn:Hx; [injection Hv as <-; exact Hx | discriminate].
  - destruct (decide (replaceComma (trim s) = "")); [injection Hv as <-; reflexivity|].
    destruct (isFinite (stringToNumber (replaceComma (trim s)))) eqn:Hx;
      [injection Hv as <-; exact Hx|].
    destruct (decide (s = "")); [injection Hv as <-; reflexivity | discriminate].
  - discriminate.
  - injection Hv as <-; reflexivity.
  - injection Hv as <-; reflexivity.
Qed.

(** In an accepted dataset the value under a header name is the normalized
    cell of its position. *)
Lemma parseMatrixTable_values rows ds i row j name :
  parseMatrixTable rows = Ok ds ->
  bodyRows rows !! i = Some row -> slotAt (variables ds) j = Some name ->
  ∃ v, normalizeNumberCell (cellAt row (j + 1)) (i + 2) (j + 2) = Ok v
       ∧ valueAt ds i j = Some v.
Proof.
  intros Hp Hrow Hj. apply parseMatrixTable_Ok in Hp as (_ & Hvars & Hvalues).
  destruct (mapResult_lookup _ _ _ _ _ _ Hvalues Hrow) as (vals & Hvals & Hparse).
  cbn in Hparse. apply parseRow_Ok in Hparse as [_ Hcells].
  rewrite Hvars in Hj.
  destruct (mapSlotsResult_slot _ _ _ _ _ Hcells Hj) as (v & Hv & Hnorm).
  exists v. split; [assumption|].
  unfold valueAt. rewrite Hvals. cbn. assumption.
Qed.

(** Under an empty slot of the header no cell is read: the slot of the
    matrix row is empty. *)
Lemma parseMatrixTable_empty_slot rows ds i row j :
  parseMatrixTable rows = Ok ds ->
  bodyRows rows !! i = Some row -> slotAt (variables ds) j = None ->
  valueAt ds i j = None.
Proof.
  intros Hp Hrow Hj. apply parseMatrixTable_Ok in Hp as (_ & Hvars & Hvalues).
  destruct (mapResult_lookup _ _ _ _ _ _ Hvalues Hrow) as (vals & Hvals & Hparse).
  cbn in Hparse. apply parseRow_Ok in Hparse as [_ Hcells].
  rewrite Hvars in Hj. unfold valueAt. rewrite Hvals. cbn.
  exact (mapSlotsResult_empty _ _ _ _ Hcells Hj).
Qed.

Lemma parseMatrixTable_rows rows ds :
  parseMatrixTable rows = Ok ds ->
  length (matrix ds) = length (variables ds)
  ∧ ∀ i vals, matrix ds !! i = Some vals ->
      length vals = length (variables ds)
      ∧ ∃ row, bodyRows rows !! i = Some row.
Proof.
  intros Hp. apply parseMatrixTable_Ok in Hp as ((_ & _ & _ & Hcount) & Hvars & Hvalues).
  split; [rewrite (mapResult_length _ _ _ _ Hvalues), Hvars; exact Hcount|].
  intros i vals Hvals.
  assert (Hi : i < length (bodyRows rows)).
  { rewrite <- (mapResult_length _ _ _ _ Hvalues). eapply lookup_lt_Some; eassumption. }
  destruct (lookup_lt_is_Some_2 _ _ Hi) as [row Hrow].
  destruct (mapResult_lookup _ _ _ _ _ _ Hvalues Hrow) as (vals' & Hvals' & Hparse).
  rewrite Hvals in Hvals'. injection Hvals' as <-.
  cbn in Hparse. apply parseRow_Ok in Hparse as [_ Hcells].
  split; [|exists row; exact Hrow].
  rewrite (mapSlotsResult_length _ _ _ Hcells), Hvars. reflexivity.
Qed.

(** *** Datasets the importer returns *)

(** A slot that holds a name that is trimmed and not blank. *)
Definition named (s : option string) : Prop :=
  ∃ v, s = Some v ∧ v ≠ "" ∧ trim v = v.

(** A slot that holds a finite number. *)
Definition finiteSlot (s : option float) : Prop :=
  ∃ v, s = Some v ∧ isFinite v = true.

(** No empty slot anywhere: at least one name; every name trimmed and not
    blank; one row of finite numbers per name, as long as the list of
    names. *)
Definition wellFormed (ds : ParsedDataset) : Prop :=
  variables ds ≠ []
  ∧ Forall named (variables ds)
  ∧ length (matrix ds) = length (variables ds)
  ∧ Forall (fun values => length values = length (variables ds) ∧ Forall finiteSlot values)
           (matrix ds).

(** What every dataset of parseMatrixTable satisfies: at least one header
    slot; the names that are there are trimmed and not blank; one row per
    header slot, as long as the header, with a finite number under every
    name and an empty slot under every empty slot of the header. *)
Definition shaped (ds : ParsedDataset) : Prop :=
  variables ds ≠ []
  ∧ (∀ j name, slotAt (variables ds) j = Some name -> name ≠ "" ∧ trim name = name)
  ∧ length (matrix ds) = length (variables ds)
  ∧ ∀ i values, matrix ds !! i = Some values ->
      length values = length (variables ds)
      ∧ (∀ j name, slotAt (variables ds) j = Some name ->
           ∃ v, slotAt values j = Some v ∧ isFinite v = true)
      ∧ (∀ j, slotAt (variables ds) j = None -> slotAt values j = None).

Lemma headerCells_trimmed rows j name :
  slotAt (headerCells rows) j = Some name -> trim name = name.
Proof.
  unfold headerCells. rewrite slotAt_mapSlots.
  destruct (slotAt (tail (default [] (head rows))) j); [|discriminate].
  intros [= <-]. apply trim_idempotent.
Qed.

(** Every dataset parseMatrixTable returns has this shape. *)
Lemma parseMatrixTable_shaped rows ds :
  parseMatrixTable rows = Ok ds -> shaped ds.
Proof.
  intros Hp. pose proof Hp as Hp'.
  apply parseMatrixTable_Ok in Hp' as ((_ & Hhdr & Hnamed & Hcount) & Hvars & Hvalues).
  destruct (parseMatrixTable_rows rows ds Hp) as [Hlen Hrows].
  split; [rewrite Hvars; exact Hhdr|]. split; [|split; [exact Hlen|]].
  - intros j name Hj. rewrite Hvars in Hj. split; [|eapply headerCells_trimmed; exact Hj].
    intros ->. unfold allNamed in Hnamed. rewrite Forall_lookup in Hnamed.
    apply slotAt_Some in Hj. exact (Hnamed j _ Hj eq_refl).
  - intros i values Hvals. destruct (Hrows i values Hvals) as [Hwidth [row Hrow]].
    split; [exact Hwidth|]. split.
    + intros j name Hj.
      destruct (parseMatrixTable_values rows ds i row j name Hp Hrow Hj) as (v & Hnorm & Hv).
      exists v. unfold valueAt in Hv. rewrite Hvals in Hv. cbn in Hv.
      split; [exact Hv | eapply normalizeNumberCell_finite; exact Hnorm].
    + intros j Hj. pose proof (parseMatrixTable_empty_slot rows ds i row j Hp Hrow Hj) as Hv.
      unfold valueAt in Hv. rewrite Hvals in Hv. exact Hv.
Qed.

(** A dataset of that shape whose header has no empty slot is well formed. *)
Lemma shaped_wellFormed ds :
  shaped ds -> Forall (fun s => is_Some s) (variables ds) -> wellFormed ds.
Proof.
  intros (Hne & Hnames & Hlen & Hrows) Hfull. split; [exact Hne|].
  rewrite Forall_lookup in Hfull.
  assert (Hslot : ∀ j, j < length (variables ds) -> ∃ name, slotAt (variables ds) j = Some name).
  { intros j Hj. destruct (lookup_lt_is_Some_2 _ _ Hj) as [s Hs].
    destruct (Hfull j s Hs) as [name ->]. exists name. apply slotAt_Some. exact Hs. }
  split; [|split; [exact Hlen|]].
  - apply Forall_lookup. intros j s Hs. destruct (Hfull j s Hs) as [name ->].
    exists name. split; [reflexivity|]. apply (Hnames j). apply slotAt_Some. exact Hs.
  - apply Forall_lookup. intros i values Hvals.
    destruct (Hrows i values Hvals) as (Hwidth & Hvalues & _).
    split; [exact Hwidth|]. apply Forall_lookup. intros j s Hs.
    destruct (Hslot j) as [name Hname]; [rewrite <- Hwidth; eapply lookup_lt_Some; exact Hs|].
    destruct (Hvalues j name Hname) as (v & Hv & Hfin). apply slotAt_Some in Hv.
    exists v. split; [congruence | exact Hfin].
Qed.

(** *** The round trip through the two files *)

(** The rows of cells that datasetToCsvFiles joins into the text of
    "variables.csv". *)
Definition variableRows (ds : ParsedDataset) : Table :=
  [Some (CStr "name")] :: map (fun s => [CStr <$> s]) (variables ds).

(** The rows of cells that datasetToCsvFiles joins into the text of
    "matrix.csv"; [corner] is what the reader makes of the empty first cell
    of the header. *)
Definition matrixRows (corner : option Cell) (ds : ParsedDataset) : Table :=
  (corner :: map (fmap CStr) (variables ds))
  :: imap (fun idx s =>
             match s with
             | Some name =>
                 Some (CStr name) :: map (fmap CNum) (default [] (matrix ds !! idx))
             | None => []
             end)
          (variables ds).

Lemma parseVariablesRows_written ds :
  Forall named (variables ds) ->
  dense (parseVariablesRows (variableRows ds)) = variables ds.
Proof.
  intros Hnames. unfold parseVariablesRows, variableRows.
  assert (Hfound : findIndex isNameSlot
                     (mapSlots (fun _ cell => toLowerCase (trim (cellText cell)))
                               [Some (CStr "name")])
                   = Some 0) by (vm_compute; reflexivity).
  rewrite Hfound. change (default 0 (Some 0)) with 0.
  induction Hnames as [|s names (v & -> & Hv & Htrim) _ IH]; [reflexivity|].
  cbn [map]. rewrite filter_cons.
  change (cellAt [CStr <$> Some v] 0) with (CStr v). cbn [cellText cellToString].
  rewrite Htrim. destruct (decide (v ≠ "")); [|contradiction].
  cbn [dense map]. f_equal. exact IH.
Qed.

(** Rows that start with a name are kept by the filter of blank rows. *)
Lemma labelled_rows_filled (cells : nat -> Row) (names : list (option string)) :
  Forall named names ->
  filter (fun row => someSlot isFilled row = true)
         (imap (fun idx s =>
                  match s with
                  | Some name => Some (CStr name) :: cells idx
                  | None => []
                  end) names)
  = imap (fun idx s =>
            match s with
            | Some name => Some (CStr name) :: cells idx
            | None => []
            end) names.
Proof.
  intros Hnames. revert cells.
  induction Hnames as [|s names (v & -> & Hv & Htrim) _ IH]; intros cells; [reflexivity|].
  cbn [imap]. rewrite filter_cons.
  assert (Hfilled : someSlot isFilled (Some (CStr v) :: cells 0) = true).
  { unfold someSlot. cbn [existsb isFilled cellToString]. rewrite Htrim.
    rewrite bool_decide_eq_true_2 by assumption. reflexivity. }
  destruct (decide (someSlot isFilled (Some (CStr v) :: cells 0) = true)); [|contradiction].
  f_equal. apply (IH (fun idx => cells (S idx))).
Qed.

Lemma parseMatrixTable_written corner ds :
  wellFormed ds -> parseMatrixTable (matrixRows corner ds) = Ok ds.
Proof.
  intros (Hne & Hnames & Hlen & Hrows).
  assert (Hnamed : ∀ j s, variables ds !! j = Some s ->
                          ∃ v, s = Some v ∧ v ≠ "" ∧ trim v = v).
  { intros j s Hs. rewrite Forall_lookup in Hnames. exact (Hnames j s Hs). }
  assert (Hhdr : headerCells (matrixRows corner ds) = variables ds).
  { unfold headerCells, matrixRows. cbn [head default from_option id tail].
    apply list_eq. intros j. unfold mapSlots. rewrite list_lookup_imap, list_lookup_fmap.
    destruct (variables ds !! j) as [s|] eqn:Hs; [|reflexivity].
    destruct (Hnamed j s Hs) as (v & -> & _ & Htrim).
    change (Some (Some (trim v)) = Some (Some v)). rewrite Htrim. reflexivity. }
  assert (Hbody : bodyRows (matrixRows corner ds)
                  = imap (fun idx s =>
                            match s with
                            | Some name =>
                                Some (CStr name)
                                :: map (fmap CNum) (default [] (matrix ds !! idx))
                            | None => []
                            end)
                         (variables ds)).
  { unfold bodyRows, matrixRows. cbn [tail].
    apply (labelled_rows_filled (fun idx => map (fmap CNum) (default [] (matrix ds !! idx)))).
    exact Hnames. }
  rewrite parseMatrixTable_structured.
  2:{ unfold passesStructure. rewrite Hhdr, Hbody, length_imap.
      split; [discriminate|]. split; [exact Hne|]. split; [|reflexivity].
      apply Forall_lookup. intros j s Hs ->.
      destruct (Hnamed j _ Hs) as (v & [= <-] & Hv & _). contradiction. }
  rewrite Hhdr, Hbody.
  rewrite (mapResult_Ok_intro _ _ 0 (matrix ds)).
  - destruct ds; reflexivity.
  - rewrite length_imap. exact Hlen.
  - intros i row vals Hrow Hvals. cbn [Nat.add].
    rewrite list_lookup_imap in Hrow.
    destruct (variables ds !! i) as [s|] eqn:Hname; [|discriminate].
    destruct (Hnamed i s Hname) as (name & -> & Hv & Htrim).
    cbn in Hrow. rewrite Hvals in Hrow. cbn [default from_option id] in Hrow.
    injection Hrow as <-.
    rewrite Forall_lookup in Hrows. destruct (Hrows i vals Hvals) as [Hwidth Hfinite].
    rewrite parseRow_labelOk.
    2:{ unfold labelOk, cellAt, slotAt.
        cbn [lookup list_lookup default from_option id cellText cellToString].
        rewrite Htrim, Hname. intros [_ Hbad]. apply Hbad. reflexivity. }
    apply mapSlotsResult_Ok_intro; [exact Hwidth|].
    intros j. destruct (variables ds !! j) as [s|] eqn:Hs; [|exact I].
    destruct (Hnamed j s Hs) as (name' & -> & _ & _).
    destruct (lookup_lt_is_Some_2 vals j) as [slot Hslot].
    { rewrite Hwidth. eapply lookup_lt_Some; exact Hs. }
    rewrite Forall_lookup in Hfinite. destruct (Hfinite j slot Hslot) as (v & -> & Hfin).
    exists v. split; [exact Hslot|].
    unfold cellAt, slotAt. replace (j + 1) with (S j) by lia.
    change ((Some (CStr name) :: map (fmap CNum) vals) !! S j)
      with (map (fmap CNum) vals !! j).
    rewrite list_lookup_fmap, Hslot. cbn. rewrite Hfin. reflexivity.
Qed.

(** The comparison of the two lists of names made by the CSV import: no
    name of the header differs from the name at its position. *)
Lemma differs_nowhere (names : list string) (vars : list (option string)) :
  existsb (differsAt names) (imap pair vars) = false
  ↔ ∀ idx name, slotAt vars idx = Some name -> names !! idx = Some name.
Proof.
  split.
  - intros Hex idx name Hname.
    destruct (decide (names !! idx = Some name)) as [|Hdiff]; [assumption|].
    exfalso. apply not_true_iff_false in Hex. apply Hex.
    apply existsb_exists. exists (idx, Some name). split.
    + apply list_elem_of_In, elem_of_lookup_imap. exists idx, (Some name).
      split; [reflexivity | apply slotAt_Some; exact Hname].
    + unfold differsAt. cbn. apply bool_decide_eq_true_2. exact Hdiff.
  - intros Hall. destruct (existsb _ _) eqn:Hex; [|reflexivity].
    apply existsb_exists in Hex as ([idx s] & Hin & Hbad).
    apply list_elem_of_In, elem_of_lookup_imap in Hin as (i & y & [= -> ->] & Hy).
    unfold differsAt in Hbad. cbn in Hbad. destruct y as [name|]; [|discriminate].
    apply bool_decide_eq_true_1 in Hbad. exfalso. apply Hbad. apply Hall.
    apply slotAt_Some. exact Hy.
Qed.

(** When the reader hands back the cells that were written, importing the
    two files written for a well-formed dataset returns that dataset. *)
Lemma importCsvFiles_round_trip corner ds :
  wellFormed ds ->
  readSheet (varsFile (datasetToCsvFiles ds)) = variableRows ds ->
  readSheet (matrixFile (datasetToCsvFiles ds)) = matrixRows corner ds ->
  importCsvFiles (varsFile (datasetToCsvFiles ds)) (matrixFile (datasetToCsvFiles ds))
  = Ok ds.
Proof.
  intros Hwf Hvars Hmatrix. pose proof Hwf as (Hne & Hnames & _).
  pose proof (parseVariablesRows_written ds Hnames) as Hread.
  unfold importCsvFiles, parseCsvVariables, parseCsvMatrix.
  rewrite Hvars, Hmatrix.
  destruct (decide (parseVariablesRows (variableRows ds) = [])) as [Hnil|_].
  { rewrite Hnil in Hread. cbn in Hread. congruence. }
  cbn [mbind Result_bind]. rewrite parseMatrixTable_written by assumption.
  cbn [mbind Result_bind].
  assert (Hlen : length (parseVariablesRows (variableRows ds)) = length (variables ds)).
  { rewrite <- Hread. unfold dense. rewrite length_map. reflexivity. }
  destruct (decide (length (parseVariablesRows (variableRows ds)) ≠ length (variables ds)));
    [contradiction|].
  rewrite (proj2 (differs_nowhere _ _)).
  - rewrite Hread. destruct ds; reflexivity.
  - intros idx name Hname. rewrite <- Hread in Hname. rewrite slotAt_dense in Hname.
    exact Hname.
Qed.

(** *** Separators inside names *)

(** A dataset with the single variable "a,b". *)
Definition commaDataset : ParsedDataset :=
  {| variables := [Some "a,b"]; matrix := [[Some 0%float]] |}.

(** The two lines of the matrix file written for [commaDataset]. *)
Definition commaMatrixText : string := ",a,b" +:+ LF +:+ "a,b,0".

(** The names are written as they are: the file written for the one variable
    "a,b" has the header line of the two variables "a" and "b".  A reader
    that cuts the lines at the commas hands parseMatrixTable a header of two
    names and one data row. *)
Lemma unquoted_name_splits :
  numberToString 0%float = "0" ->
  readSheet commaMatrixText
  = [[None; Some (CStr "a"); Some (CStr "b")];
     [Some (CStr "a"); Some (CStr "b"); Some (CNum 0%float)]] ->
  matrixFile (datasetToCsvFiles commaDataset) = commaMatrixText
  ∧ parseCsvMatrix (matrixFile (datasetToCsvFiles commaDataset)) = Err (WrongRowCount 2 1)
  ∧ ∀ varsText,
      importCsvFiles varsText (matrixFile (datasetToCsvFiles commaDataset))
      ≠ Ok commaDataset.
Proof.
  intros Hzero Hread.
  assert (Htext : matrixFile (datasetToCsvFiles commaDataset) = commaMatrixText).
  { unfold datasetToCsvFiles, commaDataset. cbn. rewrite Hzero. reflexivity. }
  assert (Hparse : parseCsvMatrix commaMatrixText = Err (WrongRowCount 2 1)).
  { unfold parseCsvMatrix. rewrite Hread. reflexivity. }
  rewrite Htext. split; [reflexivity|]. split; [exact Hparse|].
  intros varsText. unfold importCsvFiles. rewrite Hparse.
  destruct (parseCsvVariables varsText); cbn; discriminate.
Qed.

(** *** The position of a data row in the table *)

(** When no row before it is dropped, the row at position [i] among the
    filled data rows is the row at position [i + 1] of the table. *)
Lemma filter_lookup_kept {A : Type} (P : A -> Prop) {Pdec : ∀ x, Decision (P x)}
    (l : list A) (i : nat) :
  (∀ k x, k ≤ i -> l !! k = Some x -> P x) -> filter P l !! i = l !! i.
Proof.
  revert i. induction l as [|a l IH]; intros i Hall; [reflexivity|].
  rewrite filter_cons. destruct (decide (P a)) as [Ha|Ha].
  - destruct i as [|i]; [reflexivity|]. cbn. apply IH.
    intros k x Hk Hx. apply (Hall (S k) x); [lia | exact Hx].
  - exfalso. apply Ha. apply (Hall 0 a); [lia | reflexivity].
Qed.

Lemma bodyRows_position rows i row :
  bodyRows rows !! i = Some row ->
  (∀ k r, k ≤ i -> rows !! (k + 1) = Some r -> someSlot isFilled r = true) ->
  rows !! (i + 1) = Some row.
Proof.
  unfold bodyRows. intros Hrow Hfilled. rewrite filter_lookup_kept in Hrow.
  - destruct rows as [|header rest]; [discriminate|].
    replace (i + 1) with (S i) by lia. exact Hrow.
  - intros k r Hk Hr. apply (Hfilled k r Hk).
    destruct rows as [|header rest]; [discriminate|].
    replace (k + 1) with (S k) by lia. exact Hr.
Qed.

(** *** Claims about parseMatrixTable and normalizeNumberCell *)

(** C7 (as the code has it). A table whose number of filled data rows
    differs from the length of the header (the number of slots of the first
    row after the corner, empty slots included) is always turned down.  The
    checks run in order.  When the header has at least one slot and none of
    its cells holds a blank name, the exception is the row-count one, "La
    matriz debe ser NxN; se encontraron M filas con datos.".  Otherwise the
    header raises its own exception first: the one for a missing header when
    the first row has no slot after the corner, and "Asigna un nombre a la
    variable p en la cabecera." for the first header cell that holds a blank
    name (an empty slot of the header is not checked).  These three cases
    are all the cases.  In particular a header with the two names A and B
    followed by a single filled data row raises the exception for 2x2 and 1
    row, whatever the corner cell holds. *)
Theorem parseMatrixTable_row_count :
  (∀ rows : Table,
     length (bodyRows rows) ≠ length (headerCells rows) ->
     (∃ e, parseMatrixTable rows = Err e)
     ∧ (headerCells rows = [] -> parseMatrixTable rows = Err NoHeader)
     ∧ (∀ k, firstBlank (headerCells rows) k ->
          parseMatrixTable rows = Err (BlankHeaderName (k + 1)))
     ∧ (headerCells rows ≠ [] -> allNamed (headerCells rows) ->
        parseMatrixTable rows
        = Err (WrongRowCount (length (headerCells rows)) (length (bodyRows rows)))))
  ∧ (∀ rows : Table,
       headerCells rows = []
       ∨ (∃ k, firstBlank (headerCells rows) k)
       ∨ (headerCells rows ≠ [] ∧ allNamed (headerCells rows)))
  ∧ (∀ (corner : option Cell) (row : Row),
       someSlot isFilled row = true ->
       parseMatrixTable [[corner; Some (CStr "A"); Some (CStr "B")]; row]
       = Err (WrongRowCount 2 1))
  ∧ errorMessage (WrongRowCount 2 1)
    = "La matriz debe ser 2x2; se encontraron 1 filas con datos.".
Proof.
  assert (Hrows : ∀ rows : Table,
            length (bodyRows rows) ≠ length (headerCells rows) -> rows ≠ []).
  { intros rows Hne ->. apply Hne. reflexivity. }
  assert (Hgen : ∀ rows : Table,
            length (bodyRows rows) ≠ length (headerCells rows) ->
            headerCells rows ≠ [] -> allNamed (headerCells rows) ->
            parseMatrixTable rows
            = Err (WrongRowCount (length (headerCells rows)) (length (bodyRows rows)))).
  { intros rows Hne Hhdr Hnamed. unfold parseMatrixTable.
    destruct (decide (rows = [])) as [->|_]; [exfalso; apply Hhdr; reflexivity|].
    destruct (decide (headerCells rows = [])); [contradiction|].
    rewrite checkHeader_all_named by assumption. cbn.
    destruct (decide (length (bodyRows rows) ≠ length (headerCells rows)));
      [reflexivity | contradiction]. }
  assert (Hblank : ∀ (rows : Table) k,
            firstBlank (headerCells rows) k ->
            parseMatrixTable rows = Err (BlankHeaderName (k + 1))).
  { intros rows k Hk. pose proof Hk as [Hslot _].
    assert (Hh : headerCells rows ≠ []) by (intros Hh; rewrite Hh in Hslot; discriminate).
    unfold parseMatrixTable.
    destruct (decide (rows = [])) as [->|_]; [exfalso; apply Hh; reflexivity|].
    destruct (decide (headerCells rows = [])); [contradiction|].
    rewrite (proj2 (checkHeader_Err (headerCells rows) (BlankHeaderName (k + 1))));
      [reflexivity|]. exists k. split; [reflexivity | exact Hk]. }
  split; [|split; [|split; [|reflexivity]]].
  - intros rows Hne. split; [|split; [|split; [exact (Hblank rows) | apply Hgen; assumption]]].
    + destruct (parseMatrixTable rows) as [ds|e] eqn:Hp; [|exists e; reflexivity].
      apply parseMatrixTable_Ok in Hp as ((_ & _ & _ & Hcount) & _). contradiction.
    + intros Hh. unfold parseMatrixTable.
      destruct (decide (rows = [])) as [Hnil|_]; [exfalso; exact (Hrows rows Hne Hnil)|].
      destruct (decide (headerCells rows = [])); [reflexivity | contradiction].
  - intros rows. destruct (decide (headerCells rows = [])) as [|Hh]; [left; assumption|].
    right. destruct (allNamed_or_firstBlank (headerCells rows)) as [Hall|Hk];
      [right; split; assumption | left; exact Hk].
  - intros corner row Hrow.
    assert (Hbody : bodyRows [[corner; Some (CStr "A"); Some (CStr "B")]; row] = [row]).
    { unfold bodyRows. cbn [tail]. rewrite filter_cons.
      destruct (decide (someSlot isFilled row = true)); [reflexivity | contradiction]. }
    rewrite Hgen.
    + rewrite Hbody. reflexivity.
    + rewrite Hbody. cbn. lia.
    + discriminate.
    + repeat constructor; discriminate.
Qed.

(** C8 (as the code has it). How a data cell is normalized: a finite number
    passes through unchanged; a string is trimmed, its first comma becomes a
    point, and it is read as a number, which must be finite; a blank string,
    null and an absent cell give 0; every other cell (a number that is not
    finite, a boolean, a string that does not read as a finite number)
    raises "Valor no numerico en la posicion (r, c)".  In parseMatrixTable
    the cell of data row i (counted from 0 among the filled rows) under the
    header name of position j (counted from 0 after the corner) is
    normalized with the coordinates (i + 2, j + 2), which are the row and
    the column of the cell in the table, counted from 1, when no row before
    it is blank; the cells under an empty slot of the header are not read,
    and the matrix row has an empty slot there.  The dataset is produced
    only if every cell under a header name normalizes, and the first failure
    in row order is the exception raised when the checks before it pass. *)
Theorem normalizeNumberCell_cases :
  (∀ (x : float) (r c : nat),
     normalizeNumberCell (CNum x) r c
     = if isFinite x then Ok x else Err (NonNumericValue r c))
  ∧ (∀ (s : string) (r c : nat),
       trim s ≠ "" ->
       normalizeNumberCell (CStr s) r c
       = if isFinite (stringToNumber (replaceComma (trim s)))
         then Ok (stringToNumber (replaceComma (trim s)))
         else Err (NonNumericValue r c))
  ∧ (∀ (s : string) (r c : nat),
       trim s = "" -> normalizeNumberCell (CStr s) r c = Ok 0%float)
  ∧ (∀ r c : nat,
       normalizeNumberCell CNull r c = Ok 0%float
       ∧ normalizeNumberCell CUndefined r c = Ok 0%float)
  ∧ (∀ (b : bool) (r c : nat),
       normalizeNumberCell (CBool b) r c = Err (NonNumericValue r c))
  ∧ (∀ (rows : Table) (ds : ParsedDataset) (i j : nat) (row : Row) (name : string),
       parseMatrixTable rows = Ok ds ->
       bodyRows rows !! i = Some row -> slotAt (variables ds) j = Some name ->
       ∃ v, normalizeNumberCell (cellAt row (j + 1)) (i + 2) (j + 2) = Ok v
            ∧ valueAt ds i j = Some v)
  ∧ (∀ (rows : Table) (ds : ParsedDataset) (i j : nat) (row : Row),
       parseMatrixTable rows = Ok ds ->
       bodyRows rows !! i = Some row -> slotAt (variables ds) j = None ->
       valueAt ds i j = None)
  ∧ (∀ (rows : Table) (i : nat) (row : Row),
       bodyRows rows !! i = Some row ->
       (∀ k r, k ≤ i -> rows !! (k + 1) = Some r -> someSlot isFilled r = true) ->
       rows !! (i + 1) = Some row)
  ∧ (∀ (rows : Table) (i j : nat) (row : Row) (name : string),
       passesStructure rows ->
       bodyRows rows !! i = Some row -> slotAt (headerCells rows) j = Some name ->
       (∀ i' row', i' < i -> bodyRows rows !! i' = Some row' ->
          ∃ vals, parseRow (headerCells rows) i' row' = Ok vals) ->
       labelOk (headerCells rows) i row ->
       (∀ j' name', j' < j -> slotAt (headerCells rows) j' = Some name' ->
          ∃ v, normalizeNumberCell (cellAt row (j' + 1)) (i + 2) (j' + 2) = Ok v) ->
       normalizeNumberCell (cellAt row (j + 1)) (i + 2) (j + 2)
       = Err (NonNumericValue (i + 2) (j + 2)) ->
       parseMatrixTable rows = Err (NonNumericValue (i + 2) (j + 2))).
Proof.
  split; [intros x r c; reflexivity|].
  split.
  { intros s r c Hs. unfold normalizeNumberCell.
    destruct (decide (replaceComma (trim s) = "")) as [He|_];
      [apply (proj1 (replaceComma_empty _)) in He; contradiction|].
    destruct (isFinite (stringToNumber (replaceComma (trim s)))); [reflexivity|].
    destruct (decide (s = "")) as [->|_]; [exfalso; apply Hs; reflexivity | reflexivity]. }
  split.
  { intros s r c Hs. unfold normalizeNumberCell. rewrite Hs. reflexivity. }
  split; [intros r c; split; reflexivity|].
  split; [intros b r c; reflexivity|].
  split; [intros rows ds i j row name; apply parseMatrixTable_values|].
  split; [intros rows ds i j row; apply parseMatrixTable_empty_slot|].
  split; [intros rows i row; apply bodyRows_position|].
  intros rows i j row name Hst Hrow Hj Hrows Hlabel Hcells Hbad.
  rewrite parseMatrixTable_structured by assumption.
  rewrite (mapResult_first_error (parseRow (headerCells rows)) (bodyRows rows) 0 i row
             (NonNumericValue (i + 2) (j + 2))); [reflexivity | assumption | |].
  - cbn. rewrite parseRow_labelOk by assumption.
    apply (mapSlotsResult_first_error _ (headerCells rows) j name); [assumption | assumption|].
    intros k name' Hk Hname'. apply (Hcells k name' Hk Hname').
  - intros k row' Hk Hrow'. cbn. apply Hrows; assumption.
Qed.


End Importer.

(** *** An implementation of the built-ins, for running the importer

    It agrees with JavaScript and with the spreadsheet library on the
    integers, the short decimal numerals and the unquoted comma-separated
    text that the scenarios below contain. *)

Definition digitValue (a : ascii) : option Z :=
  let n := nat_of_ascii a in
  if (48 <=? n) && (n <=? 57) then Some (Z.of_nat (n - 48)) else None.

Fixpoint digitsValue (s : string) (acc : Z) : option Z :=
  match s with
  | EmptyString => Some acc
  | String a rest => d ← digitValue a; digitsValue rest (10 * acc + d)%Z
  end.

Definition floatOfZ (z : Z) : float :=
  if (z <? 0)%Z then PrimFloat.opp (PrimFloat.of_uint63 (Uint63.of_Z (- z)))
  else PrimFloat.of_uint63 (Uint63.of_Z z).

(** The pieces of [s] between the occurrences of [sep]. *)
Fixpoint splitOn (sep : ascii) (s : string) : list string :=
  match s with
  | EmptyString => [EmptyString]
  | String a rest =>
      if decide (a = sep) then EmptyString :: splitOn sep rest
      else match splitOn sep rest with
           | first :: others => String a first :: others
           | [] => [String a EmptyString]
           end
  end.

Definition plainUnsigned (s : string) : float :=
  match splitOn "."%char s with
  | [whole] =>
      match digitsValue whole 0 with
      | Some v => floatOfZ v
      | None => PrimFloat.nan
      end
  | [whole; fraction] =>
      if decide (whole = "" ∧ fraction = "") then PrimFloat.nan
      else match digitsValue (whole +:+ fraction) 0 with
           | Some v => PrimFloat.div (floatOfZ v) (floatOfZ (10 ^ Z.of_nat (String.length fraction)))
           | None => PrimFloat.nan
           end
  | _ => PrimFloat.nan
  end.

Definition plainStringToNumber (s : string) : float :=
  match s with
  | String "-"%char rest =>
      if decide (rest = "") then PrimFloat.nan else PrimFloat.opp (plainUnsigned rest)
  | _ => plainUnsigned s
  end.

Definition digitChar (d : Z) : ascii := ascii_of_nat (48 + Z.to_nat d).

(** The decimal digits of [r / d] after the point, for [0 <= r < d]. *)
Fixpoint fractionDigits (fuel : nat) (r d : Z) : string :=
  match fuel with
  | 0 => EmptyString
  | S fuel' =>
      if (r =? 0)%Z then EmptyString
      else String (digitChar (10 * r / d)) (fractionDigits fuel' ((10 * r) mod d) d)
  end.

Definition plainNumberToString (x : float) : string :=
  match Prim2SF x with
  | S754_zero _ => "0"
  | S754_infinity false => "Infinity"
  | S754_infinity true => "-Infinity"
  | S754_nan => "NaN"
  | S754_finite negative m e =>
      let sign := if negative then "-" else "" in
      if (0 <=? e)%Z then sign +:+ pretty (Z.pos m * 2 ^ e)%Z
      else
        let d := (2 ^ (- e))%Z in
        let r := (Z.pos m mod d)%Z in
        sign +:+ pretty (Z.pos m / d)%Z
          +:+ (if (r =? 0)%Z then "" else "." +:+ fractionDigits (Z.to_nat (- e)) r d)
  end.

(** The slot of a field: an empty field leaves the slot empty. *)
Definition plainField (field : string) : option Cell :=
  if decide (field = "") then None
  else if isFinite (plainStringToNumber field) then Some (CNum (plainStringToNumber field))
  else Some (CStr field).

(** A row ends with its last cell: there is no empty slot after it. *)
Fixpoint dropEmptyEnd {A : Type} (l : list (option A)) : list (option A) :=
  match l with
  | [] => []
  | s :: rest =>
      match dropEmptyEnd rest, s with
      | [], None => []
      | kept, _ => s :: kept
      end
  end.

(** The rows of the lines that have a cell. *)
Definition plainReadSheet (text : string) : Table :=
  filter (fun row => row ≠ [])
         (map (fun line => dropEmptyEnd (map plainField (splitOn ","%char line)))
              (splitOn (ascii_of_nat 10) text)).

Definition plainBuiltins : Builtins :=
  {| numberToString := plainNumberToString;
     stringToNumber := plainStringToNumber;
     readSheet := plainReadSheet |}.

#[local] Existing Instance plainBuiltins.

(** *** Scenarios *)

Definition exampleDataset : ParsedDataset :=
  {| variables := dense ["A"; "B"; "C"];
     matrix := map dense [[0; 2; 0]; [0; 0; 5]; [1; 0; 0]]%float |}.

Lemma exampleDataset_wellFormed : wellFormed exampleDataset.
Proof.
  unfold wellFormed. split; [discriminate|]. split; [|split; [reflexivity|]].
  - repeat constructor; eexists; (split; [reflexivity|]); split; (discriminate || reflexivity).
  - repeat constructor; eexists; split; reflexivity.
Qed.

(** The scenario of the specification survives the round trip: the reader
    hands back the cells that were written, the corner of the header as an
    empty slot. *)
Example importCsvFiles_example :
  importCsvFiles (varsFile (datasetToCsvFiles exampleDataset))
                 (matrixFile (datasetToCsvFiles exampleDataset))
  = Ok exampleDataset.
Proof.
  apply (importCsvFiles_round_trip None).
  - exact exampleDataset_wellFormed.
  - vm_compute. reflexivity.
  - vm_compute. reflexivity.
Qed.

(** The header has a blank name and the table has one data row for two
    header columns. *)
Definition blankHeaderTable : Table :=
  [dense [CStr ""; CStr "A"; CStr ""]; dense [CStr "A"; CNum 1; CNum 2]].

(** One data row for the two header columns A and B. *)
Definition oneRowTable : Table :=
  [dense [CStr ""; CStr "A"; CStr "B"]; dense [CStr "A"; CNum 0; CNum 1]].

(** The second data row holds a cell that is not a number. *)
Definition badCellTable : Table :=
  [dense [CStr ""; CStr "A"; CStr "B"];
   dense [CStr "A"; CNum 0; CStr "1,5"];
   dense [CStr "B"; CStr "x"; CNum 0]].



(** The header row A, (empty cell), B, as the reader hands it over for the
    line ",A,,B": the slots of the corner and of the empty cell are empty.
    The last data row holds its label only. *)
Definition sparseHeaderTable : Table :=
  [[None; Some (CStr "A"); None; Some (CStr "B")];
   dense [CStr "A"; CNum 0; CNum 7; CNum 1];
   [None; Some (CNum 5)];
   dense [CStr "B"]].

Definition sparseHeaderDataset : ParsedDataset :=
  {| variables := [Some "A"; None; Some "B"];
     matrix := [[Some 0; None; Some 1]; [Some 5; None; Some 0]; [Some 0; None; Some 0]]%float |}.

(** A table with values on its diagonal. *)
Definition diagonalTable : Table :=
  [dense [CStr ""; CStr "A"; CStr "B"];
   dense [CStr "A"; CNum 5; CNum 1];
   dense [CStr "B"; CNum 2; CNum 0]].

Definition diagonalDataset : ParsedDataset :=
  {| variables := dense ["A"; "B"]; matrix := map dense [[5; 1]; [2; 0]]%float |}.

(** C7, the failing instance: one data row for a header of two names, one
    of them blank; the exception is the header's, not the row-count one. *)
Lemma parseMatrixTable_blank_header_first :
  length (bodyRows blankHeaderTable) = 1
  ∧ length (headerCells blankHeaderTable) = 2
  ∧ parseMatrixTable blankHeaderTable = Err (BlankHeaderName 2)
  ∧ errorMessage (BlankHeaderName 2) = "Asigna un nombre a la variable 2 en la cabecera.".
Proof. repeat split; vm_compute; reflexivity. Qed.

Lemma parseMatrixTable_row_count_example :
  parseMatrixTable oneRowTable = Err (WrongRowCount 2 1)
  ∧ parseMatrixTable blankHeaderTable = Err (BlankHeaderName 2).
Proof.
  destruct (@parseMatrixTable_row_count plainBuiltins) as (Hcases & _ & Hone & _).
  split.
  - apply (Hone (Some (CStr "")) (dense [CStr "A"; CNum 0%float; CNum 1%float])).
    reflexivity.
  - destruct (Hcases blankHeaderTable) as (_ & _ & Hblank & _).
    + vm_compute. lia.
    + apply (Hblank 1). split; [reflexivity|].
      intros k Hk. assert (k = 0) as -> by lia. vm_compute. discriminate.
Defined.

(** C8, the failing instance: a cell that is a number but not a finite one
    does not pass through; it raises the non-numeric exception. *)
Lemma normalizeNumberCell_not_finite :
  normalizeNumberCell (CNum PrimFloat.nan) 2 2 = Err (NonNumericValue 2 2)
  ∧ normalizeNumberCell (CNum PrimFloat.infinity) 2 2 = Err (NonNumericValue 2 2)
  ∧ parseMatrixTable [dense [CStr ""; CStr "A"]; dense [CStr "A"; CNum PrimFloat.nan]]
    = Err (NonNumericValue 2 2).
Proof. repeat split; vm_compute; reflexivity. Qed.

Lemma normalizeNumberCell_cases_example :
  normalizeNumberCell (CStr "1,5") 2 3 = Ok 1.5%float
  ∧ parseMatrixTable badCellTable = Err (NonNumericValue 3 2)
  ∧ errorMessage (NonNumericValue 3 2) = "Valor no numerico en la posicion (3, 2)."
  ∧ valueAt sparseHeaderDataset 0 1 = None.
Proof.
  destruct (@normalizeNumberCell_cases plainBuiltins)
    as (_ & Hstr & _ & _ & _ & _ & Hempty & _ & Hfirst).
  split; [|split; [|split; [reflexivity|]]].
  - rewrite Hstr; [reflexivity | discriminate].
  - apply (Hfirst badCellTable 1 0 (dense [CStr "B"; CStr "x"; CNum 0%float]) "A").
    + repeat split; try discriminate. repeat constructor; discriminate.
    + reflexivity.
    + reflexivity.
    + intros i' row' Hi' Hrow'. assert (i' = 0) as -> by lia.
      injection Hrow' as <-. eexists. vm_compute. reflexivity.
    + intros [_ Hne]. apply Hne. reflexivity.
    + intros j' name' Hj'. lia.
    + reflexivity.
  - apply (Hempty sparseHeaderTable sparseHeaderDataset 0 1
             (dense [CStr "A"; CNum 0%float; CNum 7%float; CNum 1%float])).
    + vm_compute. reflexivity.
    + reflexivity.
    + reflexivity.
Defined.



(** C4, the failing instance: the variable name "a,b" read from a workbook
    (parseMatrixTable returns the dataset; it is well formed).
    datasetToCsvFiles writes the matrix file ",a,b / a,b,0"; read back, the
    variables file yields the name a, the header of the matrix file has the
    two names a and b and there is one data row, so the import raises the
    row-count exception instead of returning the dataset. *)
Theorem datasetToCsvFiles_unquoted_name :
  parseMatrixTable [dense [CStr ""; CStr "a,b"]; dense [CStr "a,b"; CNum 0]] = Ok commaDataset
  ∧ varsFile (datasetToCsvFiles commaDataset) = "name" +:+ LF +:+ "a,b"
  ∧ matrixFile (datasetToCsvFiles commaDataset) = ",a,b" +:+ LF +:+ "a,b,0"
  ∧ parseCsvVariables (varsFile (datasetToCsvFiles commaDataset)) = Ok ["a"]
  ∧ parseCsvMatrix (matrixFile (datasetToCsvFiles commaDataset)) = Err (WrongRowCount 2 1)
  ∧ importCsvFiles (varsFile (datasetToCsvFiles commaDataset))
                   (matrixFile (datasetToCsvFiles commaDataset))
    = Err (WrongRowCount 2 1).
Proof. repeat split; vm_compute; reflexivity. Qed.

(** C6, the failing instance: parseMatrixTable keeps the values it finds on
    the diagonal of the table; the dataset it returns is the one that
    datasetToCsvFiles then writes out, diagonal included. *)
Theorem parseMatrixTable_keeps_diagonal :
  parseMatrixTable diagonalTable = Ok diagonalDataset
  ∧ valueAt diagonalDataset 0 0 = Some 5%float
  ∧ matrixFile (datasetToCsvFiles diagonalDataset)
    = ",A,B" +:+ LF +:+ "A,5,1" +:+ LF +:+ "B,2,0".
Proof. repeat split; vm_compute; reflexivity. Qed.

End DatasetImporter.

(** ** The matrix held by the Page component: the resize effect and setCell *)

Module MatrixState.
Import MatrixEngine.

(** The effect that runs when [variables.length] changes to [n]. *)
Definition resizeMatrix (n : nat) (prev : Matrix) : Matrix :=
  map (fun i => map (fun j => if decide (i = j) then 0%float else cellOrZero prev i j)
                    (seq 0 n))
      (seq 0 n).

Definition setCell (i j : nat) (value : float) (prev : Matrix) : Matrix :=
  imap (fun rIndex row =>
          imap (fun cIndex cell =>
                  if decide (rIndex = i ∧ cIndex = j)
                  then (if decide (i = j) then 0%float else value)
                  else cell)
               row)
       prev.

(** No variable influences itself. *)
Definition zeroDiagonal (matrix : Matrix) : Prop :=
  ∀ i v, cell matrix i i = Some v -> v = 0%float.

Lemma resizeMatrix_cell n prev i j :
  i < n -> j < n ->
  cell (resizeMatrix n prev) i j
  = Some (if decide (i = j) then 0%float else cellOrZero prev i j).
Proof.
  intros Hi Hj. unfold cell, resizeMatrix.
  rewrite list_lookup_fmap, lookup_seq_lt by assumption. cbn.
  rewrite list_lookup_fmap, lookup_seq_lt by assumption. reflexivity.
Qed.

Lemma resizeMatrix_square n prev : isSquare n (resizeMatrix n prev).
Proof.
  unfold isSquare, resizeMatrix. split.
  - rewrite length_map, length_seq. reflexivity.
  - apply Forall_lookup. intros i row Hrow. rewrite list_lookup_fmap in Hrow.
    destruct (seq 0 n !! i); [|discriminate]. injection Hrow as <-.
    rewrite length_map, length_seq. reflexivity.
Qed.

(** The rebuilt matrix has a zero diagonal whatever the previous matrix held. *)
Lemma resizeMatrix_zeroDiagonal n prev : zeroDiagonal (resizeMatrix n prev).
Proof.
  intros i v Hv. destruct (decide (i < n)) as [Hi|Hi].
  - rewrite resizeMatrix_cell in Hv by assumption.
    destruct (decide (i = i)); [congruence | contradiction].
  - unfold cell, resizeMatrix in Hv.
    rewrite list_lookup_fmap, lookup_seq_ge in Hv by lia. discriminate.
Qed.

Lemma setCell_cell i j value prev r c :
  cell (setCell i j value prev) r c
  = (fun old => if decide (r = i ∧ c = j)
                then (if decide (i = j) then 0%float else value)
                else old) <$> cell prev r c.
Proof.
  unfold cell, setCell. rewrite list_lookup_imap.
  destruct (prev !! r) as [row|]; cbn; [|reflexivity].
  rewrite list_lookup_imap. reflexivity.
Qed.

(** A value supplied for a diagonal cell is replaced by 0, and an edit never
    breaks a zero diagonal. *)
Lemma setCell_zeroDiagonal i j value prev :
  zeroDiagonal prev -> zeroDiagonal (setCell i j value prev).
Proof.
  intros Hz r v. rewrite setCell_cell.
  destruct (cell prev r r) as [old|] eqn:Hold; cbn; [|discriminate].
  intros [= <-]. destruct (decide (r = i ∧ r = j)) as [[-> ->]|_].
  - destruct (decide (j = j)); [reflexivity | contradiction].
  - apply (Hz r). exact Hold.
Qed.

Lemma setCell_diagonal i value prev old :
  cell prev i i = Some old -> cell (setCell i i value prev) i i = Some 0%float.
Proof.
  intros Hold. rewrite setCell_cell, Hold. cbn.
  destruct (decide (i = i ∧ i = i)) as [_|H]; [|exfalso; apply H; split; reflexivity].
  destruct (decide (i = i)); [reflexivity | contradiction].
Qed.

(** The dataset parseMatrixTable returns for a table with values on its
    diagonal does not have a zero diagonal. *)
Lemma imported_diagonal_not_zero :
  ∃ v, DatasetImporter.valueAt DatasetImporter.diagonalDataset 0 0 = Some v
       ∧ v ≠ 0%float.
Proof.
  exists 5%float. split; [reflexivity|]. intros Hz.
  assert (Hb : PrimFloat.eqb 5 0 = true) by (rewrite Hz; reflexivity).
  vm_compute in Hb. discriminate Hb.
Qed.

End MatrixState.

(** ** GraphProjector: loadGraph *)

Module GraphProjector.
Import JsNumber.

Record Node := { id : Z; name : string }.
Record Link := { source : Z; target : Z; weight : float }.
Record GraphOut := { nodes : list Node; links : list Link }.

(** The part of the Page state that loadGraph writes. *)
Record GraphState := {
  graph : option GraphOut;
  graphError : option string;
  graphLoading : bool
}.

(** How the request to the graph endpoint ends. *)
Inductive Response :=
| Resolved (data : GraphOut)
| Rejected (message : string).

(** [!projectId], for a project id that is a number or null. *)
Definition noProject (projectId : option float) : bool :=
  match projectId with
  | None => true
  | Some p => PrimFloat.eqb p 0%float || PrimFloat.is_nan p
  end.

Definition thresholdMessage : string := "El umbral debe ser un nAmero positivo.".

(** loadGraph, from the state before the call to the state once the request
    has settled; [requestJson] answers for the endpoint. *)
Definition loadGraph (projectId : option float)
    (requestJson : option float -> float -> bool -> Response)
    (minWeight : float) (isDirected : bool) (st : GraphState) : GraphState :=
  if noProject projectId then st
  else if negb (isFinite minWeight) || PrimFloat.ltb minWeight 0%float then
    {| graph := None; graphError := Some thresholdMessage; graphLoading := graphLoading st |}
  else
    match requestJson projectId minWeight isDirected with
    | Resolved data => {| graph := Some data; graphError := None; graphLoading := false |}
    | Rejected message => {| graph := None; graphError := Some message; graphLoading := false |}
    end.

(** A state that shows a graph and no error. *)
Definition shownState : GraphState :=
  {| graph := Some {| nodes := [{| id := 0; name := "A" |}]; links := [] |};
     graphError := None;
     graphLoading := false |}.

Definition emptyAnswer (projectId : option float) (minWeight : float) (isDirected : bool)
    : Response :=
  Resolved {| nodes := []; links := [] |}.

(** C9 (as the code has it). Without a project the call does nothing.  With
    a project, a threshold that is not finite or is negative sets the error
    message and clears the graph, and no request is made; a finite threshold
    that is not negative passes and the state is set from the answer of the
    request.  Every number is in one of the two classes. *)
Theorem loadGraph_threshold (projectId : option float)
    (requestJson : option float -> float -> bool -> Response)
    (minWeight : float) (isDirected : bool) (st : GraphState) :
  (noProject projectId = true ->
     loadGraph projectId requestJson minWeight isDirected st = st)
  ∧ (noProject projectId = false ->
     (isFinite minWeight = false ∨ PrimFloat.ltb minWeight 0%float = true ->
        loadGraph projectId requestJson minWeight isDirected st
        = {| graph := None; graphError := Some thresholdMessage;
             graphLoading := graphLoading st |})
     ∧ (isFinite minWeight = true ∧ geb minWeight 0%float = true ->
        loadGraph projectId requestJson minWeight isDirected st
        = match requestJson projectId minWeight isDirected with
          | Resolved data =>
              {| graph := Some data; graphError := None; graphLoading := false |}
          | Rejected message =>
              {| graph := None; graphError := Some message; graphLoading := false |}
          end))
  ∧ (isFinite minWeight = false ∨ PrimFloat.ltb minWeight 0%float = true
     ∨ (isFinite minWeight = true ∧ geb minWeight 0%float = true)).
Proof.
  split; [|split].
  - intros Hp. unfold loadGraph. rewrite Hp. reflexivity.
  - intros Hp. unfold loadGraph. rewrite Hp. split.
    + intros [Hf|Hneg]; [rewrite Hf | rewrite Hneg, orb_true_r]; reflexivity.
    + intros [Hf Hge]. rewrite Hf, (geb_not_ltb minWeight 0%float Hge). reflexivity.
  - destruct (isFinite minWeight) eqn:Hf; [|left; reflexivity].
    destruct (PrimFloat.ltb minWeight 0%float) eqn:Hlt; [right; left; reflexivity|].
    right; right. split; [reflexivity|].
    apply not_ltb_geb; [apply isFinite_not_nan; assumption | reflexivity | assumption].
Qed.

(** C9, the failing instance: no project is selected and the threshold is
    -1; the call returns at once, no error is set and the graph on display
    stays. *)
Lemma loadGraph_without_project :
  loadGraph None emptyAnswer (-1)%float true shownState = shownState
  ∧ graphError (loadGraph None emptyAnswer (-1)%float true shownState) = None
  ∧ graph (loadGraph None emptyAnswer (-1)%float true shownState) = graph shownState.
Proof. repeat split. Qed.

Lemma loadGraph_threshold_example :
  loadGraph (Some 7%float) emptyAnswer (-1)%float true shownState
  = {| graph := None; graphError := Some thresholdMessage; graphLoading := false |}
  ∧ loadGraph (Some 7%float) emptyAnswer PrimFloat.nan true shownState
    = {| graph := None; graphError := Some thresholdMessage; graphLoading := false |}
  ∧ loadGraph (Some 7%float) emptyAnswer 0%float true shownState
    = {| graph := Some {| nodes := []; links := [] |}; graphError := None;
         graphLoading := false |}.
Proof.
  split; [|split].
  - apply (proj1 (proj1 (proj2 (loadGraph_threshold (Some 7%float) emptyAnswer (-1)%float
                                  true shownState)) eq_refl)).
    right. reflexivity.
  - apply (proj1 (proj1 (proj2 (loadGraph_threshold (Some 7%float) emptyAnswer PrimFloat.nan
                                  true shownState)) eq_refl)).
    left. reflexivity.
  - apply (proj2 (proj1 (proj2 (loadGraph_threshold (Some 7%float) emptyAnswer 0%float
                                  true shownState)) eq_refl)).
    split; reflexivity.
Defined.

End GraphProjector.

(** ** The inputs held by the Page component: setVarName, addVar, removeVar,
       and how they compose with the resize effect and setCell *)

Module PageInputs.
Import JsNumber.

(** The two pieces of state the handlers write. *)
Record Inputs := { variables : list string; matrix : list (list float) }.

(** [array.filter((_, index) => keep(index))], the indices counted from
    [start]. *)
Fixpoint filterIndex {A : Type} (keep : nat -> bool) (start : nat) (l : list A) : list A :=
  match l with
  | [] => []
  | x :: rest =>
      if keep start then x :: filterIndex keep (S start) rest
      else filterIndex keep (S start) rest
  end.

(** [index !== idx] *)
Definition notIndex (idx index : nat) : bool := negb (index =? idx).

Definition setVarName (idx : nat) (name : string) (st : Inputs) : Inputs :=
  {| variables := imap (fun index value => if decide (index = idx) then name else value)
                       (variables st);
     matrix := matrix st |}.

(** The new name is "Var " followed by the length of the list plus one. *)
Definition addVar (st : Inputs) : Inputs :=
  {| variables := variables st ++ ["Var " +:+ pretty (length (variables st) + 1)];
     matrix := matrix st |}.

Definition removeVar (idx : nat) (st : Inputs) : Inputs :=
  {| variables := filterIndex (notIndex idx) 0 (variables st);
     matrix := map (fun row => filterIndex (notIndex idx) 0 row)
                   (filterIndex (notIndex idx) 0 (matrix st)) |}.

(** setCell, on the inputs. *)
Definition setCell (i j : nat) (value : float) (st : Inputs) : Inputs :=
  {| variables := variables st; matrix := MatrixState.setCell i j value (matrix st) |}.

(** The effect that follows a render in which [variables.length] changed. *)
Definition resizeEffect (st : Inputs) : Inputs :=
  {| variables := variables st;
     matrix := MatrixState.resizeMatrix (length (variables st)) (matrix st) |}.

(** The inputs are consistent: one row and one column per variable, and a
    zero diagonal. *)
Definition consistent (st : Inputs) : Prop :=
  MatrixEngine.isSquare (length (variables st)) (matrix st)
  ∧ MatrixState.zeroDiagonal (matrix st).

(** The index in the old matrix of index [k] of the matrix without [idx]. *)
Definition skipIndex (idx k : nat) : nat := if decide (k < idx) then k else S k.

Lemma filterIndex_delete {A : Type} (idx start : nat) (l : list A) :
  filterIndex (notIndex idx) start l
  = if decide (idx < start) then l else delete (idx - start) l.
Proof.
  revert start. induction l as [|x l IH]; intros start; cbn [filterIndex].
  - destruct (decide (idx < start)); reflexivity.
  - rewrite IH. unfold notIndex. destruct (Nat.eqb_spec start idx) as [->|Hne]; cbn [negb].
    + destruct (decide (idx < S idx)) as [_|Hn]; [|lia].
      destruct (decide (idx < idx)) as [Hn|_]; [lia|].
      rewrite Nat.sub_diag. reflexivity.
    + destruct (decide (idx < S start)) as [Hlt|Hge];
        destruct (decide (idx < start)) as [Hlt'|Hge']; try lia; [reflexivity|].
      replace (idx - start) with (S (idx - S start)) by lia. reflexivity.
Qed.

Lemma filterIndex_lookup {A : Type} (idx : nat) (l : list A) (k : nat) :
  filterIndex (notIndex idx) 0 l !! k = l !! skipIndex idx k.
Proof.
  rewrite filterIndex_delete. destruct (decide (idx < 0)) as [Hn|_]; [lia|].
  rewrite Nat.sub_0_r, list_lookup_delete. unfold skipIndex. reflexivity.
Qed.

Lemma filterIndex_length {A : Type} (idx : nat) (l : list A) :
  length (filterIndex (notIndex idx) 0 l)
  = if decide (idx < length l) then length l - 1 else length l.
Proof.
  rewrite filterIndex_delete. destruct (decide (idx < 0)) as [Hn|_]; [lia|].
  rewrite Nat.sub_0_r. destruct (decide (idx < length l)) as [Hlt|Hge].
  - apply length_delete. apply lookup_lt_is_Some_2. exact Hlt.
  - f_equal. apply list_eq. intros k. rewrite list_lookup_delete.
    destruct (decide (k < idx)); [reflexivity|].
    rewrite !lookup_ge_None_2 by lia. reflexivity.
Qed.

Lemma removeVar_cell idx st i j :
  MatrixEngine.cell (matrix (removeVar idx st)) i j
  = MatrixEngine.cell (matrix st) (skipIndex idx i) (skipIndex idx j).
Proof.
  unfold MatrixEngine.cell, removeVar. cbn [matrix].
  rewrite list_lookup_fmap, filterIndex_lookup.
  destruct (matrix st !! skipIndex idx i) as [row|]; cbn; [|reflexivity].
  apply filterIndex_lookup.
Qed.

(** A square matrix with a zero diagonal is left as it is by the resize
    effect. *)
Lemma resizeMatrix_fixed n (m : list (list float)) :
  MatrixEngine.isSquare n m -> MatrixState.zeroDiagonal m ->
  MatrixState.resizeMatrix n m = m.
Proof.
  intros [Hlen Hrows] Hz. apply list_eq. intros i.
  unfold MatrixState.resizeMatrix. rewrite list_lookup_fmap.
  destruct (decide (i < n)) as [Hi|Hi].
  - rewrite lookup_seq_lt by assumption. cbn.
    destruct (lookup_lt_is_Some_2 m i) as [row Hrow]; [lia|]. rewrite Hrow. f_equal.
    rewrite Forall_lookup in Hrows. pose proof (Hrows i row Hrow) as Hwidth.
    apply list_eq. intros j. rewrite list_lookup_fmap.
    destruct (decide (j < n)) as [Hj|Hj].
    + rewrite lookup_seq_lt by assumption. cbn.
      destruct (lookup_lt_is_Some_2 row j) as [v Hv]; [lia|]. rewrite Hv. f_equal.
      assert (Hcell : MatrixEngine.cell m i j = Some v).
      { unfold MatrixEngine.cell. rewrite Hrow. exact Hv. }
      destruct (decide (i = j)) as [->|Hij].
      * symmetry. apply (Hz j). exact Hcell.
      * unfold MatrixEngine.cellOrZero. rewrite Hcell. reflexivity.
    + rewrite lookup_seq_ge by lia. rewrite lookup_ge_None_2 by lia. reflexivity.
  - rewrite lookup_seq_ge by lia. rewrite lookup_ge_None_2 by lia. reflexivity.
Qed.

Lemma consistent_cell st i j :
  consistent st -> i < length (variables st) -> j < length (variables st) ->
  MatrixEngine.cell (matrix st) i j = Some (MatrixEngine.cellOrZero (matrix st) i j).
Proof. intros [Hsq _] Hi Hj. eapply MatrixEngine.square_cell; eassumption. Qed.

Lemma cell_outside (m : list (list float)) n i j :
  MatrixEngine.isSquare n m -> n ≤ i ∨ n ≤ j -> MatrixEngine.cell m i j = None.
Proof.
  intros [Hlen Hrows] Hout. unfold MatrixEngine.cell.
  destruct (m !! i) as [row|] eqn:Hrow; cbn; [|reflexivity].
  rewrite Forall_lookup in Hrows. pose proof (Hrows i row Hrow) as Hwidth.
  apply lookup_lt_Some in Hrow. apply lookup_ge_None_2. lia.
Qed.

(** X1. removeVar keeps the inputs consistent.  When the index is in range
    the list loses that name, the matrix loses that row and that column,
    every other cell keeps its value, and the resize effect that follows
    changes nothing; when the index is out of range nothing changes. *)
Theorem removeVar_consistent (idx : nat) (st : Inputs) :
  consistent st ->
  consistent (removeVar idx st)
  ∧ (idx < length (variables st) ->
     length (variables (removeVar idx st)) = length (variables st) - 1
     ∧ (∀ k, variables (removeVar idx st) !! k = variables st !! skipIndex idx k)
     ∧ (∀ i j, MatrixEngine.cell (matrix (removeVar idx st)) i j
               = MatrixEngine.cell (matrix st) (skipIndex idx i) (skipIndex idx j)))
  ∧ (length (variables st) ≤ idx -> removeVar idx st = st)
  ∧ resizeEffect (removeVar idx st) = removeVar idx st.
Proof.
  intros Hc. pose proof Hc as [[Hlen Hrows] Hz].
  assert (Hsame : length (variables st) ≤ idx -> removeVar idx st = st).
  { intros Hge. unfold removeVar.
    assert (Hid : ∀ (A : Type) (l : list A), length l ≤ idx ->
                    filterIndex (notIndex idx) 0 l = l).
    { intros A l Hl. apply list_eq. intros k. rewrite filterIndex_lookup. unfold skipIndex.
      destruct (decide (k < idx)); [reflexivity|]. rewrite !lookup_ge_None_2 by lia.
      reflexivity. }
    rewrite !Hid by lia.
    replace (map (fun row => filterIndex (notIndex idx) 0 row) (matrix st)) with (matrix st).
    - destruct st; reflexivity.
    - apply list_eq. intros i. rewrite list_lookup_fmap.
      destruct (matrix st !! i) as [row|] eqn:Hrow; cbn; [|reflexivity].
      rewrite Forall_lookup in Hrows. rewrite Hid; [reflexivity|].
      rewrite (Hrows i row Hrow). exact Hge. }
  assert (Hcons : consistent (removeVar idx st)).
  { destruct (decide (idx < length (variables st))) as [Hlt|Hge];
      [|rewrite Hsame by lia; exact Hc].
    split; [split|].
    - unfold removeVar. cbn [matrix variables].
      rewrite length_map, !filterIndex_length, Hlen.
      destruct (decide (idx < length (variables st))); [reflexivity | contradiction].
    - apply Forall_lookup. intros i row' Hrow'. unfold removeVar in Hrow' |- *.
      cbn [matrix variables] in Hrow' |- *.
      rewrite list_lookup_fmap, filterIndex_lookup in Hrow'.
      destruct (matrix st !! skipIndex idx i) as [row|] eqn:Hrow; [|discriminate].
      injection Hrow' as <-. rewrite Forall_lookup in Hrows.
      rewrite !filterIndex_length, (Hrows _ row Hrow).
      destruct (decide (idx < length (variables st))); [reflexivity | contradiction].
    - intros i v. rewrite removeVar_cell. apply Hz. }
  split; [exact Hcons|]. split; [|split; [exact Hsame|]].
  - intros Hlt. split; [|split].
    + unfold removeVar. cbn [variables]. rewrite filterIndex_length.
      destruct (decide (idx < length (variables st))); [reflexivity | contradiction].
    + intros k. apply filterIndex_lookup.
    + intros i j. apply removeVar_cell.
  - unfold resizeEffect. destruct Hcons as [Hsq' Hz'].
    rewrite resizeMatrix_fixed by assumption. destruct (removeVar idx st); reflexivity.
Qed.

(** X2. Adding a variable and letting the resize effect run keeps the
    inputs consistent: every value entered so far stays where it is, and the
    new variable gets a row and a column of zeros. *)
Theorem addVar_resize_consistent (st : Inputs) :
  consistent st ->
  consistent (resizeEffect (addVar st))
  ∧ length (variables (resizeEffect (addVar st))) = S (length (variables st))
  ∧ (∀ k name, variables st !! k = Some name ->
       variables (resizeEffect (addVar st)) !! k = Some name)
  ∧ (∀ i j, i < length (variables st) -> j < length (variables st) ->
       MatrixEngine.cell (matrix (resizeEffect (addVar st))) i j
       = MatrixEngine.cell (matrix st) i j)
  ∧ (∀ k, k ≤ length (variables st) ->
       MatrixEngine.cell (matrix (resizeEffect (addVar st))) (length (variables st)) k
       = Some 0%float
       ∧ MatrixEngine.cell (matrix (resizeEffect (addVar st))) k (length (variables st))
         = Some 0%float).
Proof.
  intros Hc. pose proof Hc as [Hsq Hz].
  assert (Hn : length (variables (addVar st)) = S (length (variables st))).
  { unfold addVar. cbn [variables]. rewrite length_app. cbn. lia. }
  assert (Hm : matrix (resizeEffect (addVar st))
               = MatrixState.resizeMatrix (S (length (variables st))) (matrix st)).
  { unfold resizeEffect. cbn [matrix]. rewrite Hn. reflexivity. }
  assert (Hv : variables (resizeEffect (addVar st)) = variables (addVar st)) by reflexivity.
  rewrite Hm, Hv, Hn.
  split; [split; [apply MatrixState.resizeMatrix_square
                 | apply MatrixState.resizeMatrix_zeroDiagonal]|].
  split; [reflexivity|]. split; [|split].
  - intros k name Hk. unfold addVar. cbn [variables]. apply lookup_app_l_Some. exact Hk.
  - intros i j Hi Hj. rewrite MatrixState.resizeMatrix_cell by lia.
    rewrite (consistent_cell st i j Hc Hi Hj).
    destruct (decide (i = j)) as [->|_]; [|reflexivity].
    f_equal. symmetry. apply (Hz j). apply consistent_cell; assumption.
  - intros k Hk. split; rewrite MatrixState.resizeMatrix_cell by lia.
    + destruct (decide (length (variables st) = k)); [reflexivity|].
      unfold MatrixEngine.cellOrZero.
      rewrite (cell_outside _ _ _ _ Hsq) by (left; lia). reflexivity.
    + destruct (decide (k = length (variables st))); [reflexivity|].
      unfold MatrixEngine.cellOrZero.
      rewrite (cell_outside _ _ _ _ Hsq) by (right; lia). reflexivity.
Qed.

Lemma setCell_absent i j value (m : list (list float)) :
  MatrixEngine.cell m i j = None -> MatrixState.setCell i j value m = m.
Proof.
  intros Hnone. apply list_eq. intros r. unfold MatrixState.setCell.
  rewrite list_lookup_imap. destruct (m !! r) as [row|] eqn:Hrow; cbn; [|reflexivity].
  f_equal. apply list_eq. intros c. rewrite list_lookup_imap.
  destruct (row !! c) as [old|] eqn:Hold; cbn; [|reflexivity].
  destruct (decide (r = i ∧ c = j)) as [[-> ->]|_]; [|reflexivity].
  unfold MatrixEngine.cell in Hnone. rewrite Hrow in Hnone. cbn in Hnone. congruence.
Qed.

(** X3. setCell writes one cell and nothing else: the names and every other
    cell are untouched, an off-diagonal cell receives the value, a diagonal
    cell receives 0 whatever the value, a position outside the matrix is not
    created, and consistent inputs stay consistent. *)
Theorem setCell_writes_one_cell (i j : nat) (value : float) (st : Inputs) :
  variables (setCell i j value st) = variables st
  ∧ (∀ r c, r ≠ i ∨ c ≠ j ->
       MatrixEngine.cell (matrix (setCell i j value st)) r c
       = MatrixEngine.cell (matrix st) r c)
  ∧ (is_Some (MatrixEngine.cell (matrix st) i j) ->
       MatrixEngine.cell (matrix (setCell i j value st)) i j
       = Some (if decide (i = j) then 0%float else value))
  ∧ (MatrixEngine.cell (matrix st) i j = None -> setCell i j value st = st)
  ∧ (consistent st -> consistent (setCell i j value st)).
Proof.
  split; [reflexivity|]. split; [|split; [|split]].
  - intros r c Hrc. unfold setCell. cbn [matrix]. rewrite MatrixState.setCell_cell.
    destruct (MatrixEngine.cell (matrix st) r c); cbn; [|reflexivity].
    destruct (decide (r = i ∧ c = j)) as [[-> ->]|_]; [|reflexivity].
    destruct Hrc; contradiction.
  - intros [old Hold]. unfold setCell. cbn [matrix].
    rewrite MatrixState.setCell_cell, Hold. cbn.
    destruct (decide (i = i ∧ j = j)) as [_|Hn]; [reflexivity|].
    exfalso; apply Hn; split; reflexivity.
  - intros Hnone. unfold setCell. rewrite setCell_absent by assumption.
    destruct st; reflexivity.
  - intros [[Hlen Hrows] Hz]. split; [split|].
    + unfold setCell, MatrixState.setCell. cbn [matrix variables].
      rewrite length_imap. exact Hlen.
    + apply Forall_lookup. intros r row' Hrow'.
      unfold setCell, MatrixState.setCell in Hrow' |- *. cbn [matrix variables] in Hrow' |- *.
      rewrite list_lookup_imap in Hrow'.
      destruct (matrix st !! r) as [row|] eqn:Hrow; [|discriminate].
      injection Hrow' as <-. rewrite length_imap.
      rewrite Forall_lookup in Hrows. exact (Hrows r row Hrow).
    + apply MatrixState.setCell_zeroDiagonal. exact Hz.
Qed.

(** The inputs before any variable is added. *)
Definition emptyInputs : Inputs := {| variables := []; matrix := [] |}.

(** The inputs the page starts with. *)
Definition initialInputs : Inputs :=
  {| variables := ["Var 1"; "Var 2"; "Var 3"; "Var 4"];
     matrix := [[0; 0; 0; 0]; [0; 0; 0; 0]; [0; 0; 0; 0]; [0; 0; 0; 0]]%float |}.

(** The name addVar gives to variable number [k], counted from 0. *)
Definition defaultName (k : nat) : string := "Var " +:+ pretty (k + 1).

Lemma defaultName_inj : Inj (=) (=) defaultName.
Proof.
  intros a b Hab. unfold defaultName in Hab. cbn in Hab.
  injection Hab as Hab. apply pretty_nat_inj in Hab. lia.
Qed.

Lemma addVar_iter n :
  variables (Nat.iter n addVar emptyInputs) = map defaultName (seq 0 n).
Proof.
  induction n as [|n IH]; [reflexivity|].
  change (Nat.iter (S n) addVar emptyInputs) with (addVar (Nat.iter n addVar emptyInputs)).
  unfold addVar at 1. cbn [variables].
  rewrite IH, length_map, length_seq, seq_S, map_app. reflexivity.
Qed.

(** X4. addVar numbers the new name after the length of the list, not after
    the names in use: starting from no variable the names it gives are all
    different, but once a variable other than the last has been removed the
    next name it gives is already taken. *)
Theorem addVar_name_collision :
  (∀ n, NoDup (variables (Nat.iter n addVar emptyInputs)))
  ∧ variables (Nat.iter 4 addVar emptyInputs) = variables initialInputs
  ∧ (∀ n idx, idx + 1 < n ->
       ¬ NoDup (variables (addVar (removeVar idx (Nat.iter n addVar emptyInputs))))).
Proof.
  split; [|split; [reflexivity|]].
  - intros n. rewrite addVar_iter.
    apply (NoDup_fmap_2 (Inj0 := defaultName_inj) defaultName). apply NoDup_seq.
  - intros n idx Hidx Hnd. pose proof (addVar_iter n) as Hbase.
    destruct (Nat.iter n addVar emptyInputs) as [names cells]. cbn [variables] in Hbase.
    unfold addVar, removeVar in Hnd. cbn [variables] in Hnd. subst names.
    rewrite filterIndex_length, length_map, length_seq in Hnd.
    destruct (decide (idx < n)) as [_|Hn]; [|lia].
    apply NoDup_app in Hnd as (_ & Hfresh & _).
    apply (Hfresh (defaultName (n - 1))).
    + apply list_elem_of_lookup. exists (n - 2). rewrite filterIndex_lookup.
      unfold skipIndex. destruct (decide (n - 2 < idx)) as [Hlt|_]; [lia|].
      rewrite list_lookup_fmap, lookup_seq_lt by lia. cbn. f_equal. f_equal. lia.
    + unfold defaultName. apply list_elem_of_here.
Qed.

Lemma initialInputs_consistent : consistent initialInputs.
Proof.
  split.
  - split; [reflexivity | repeat constructor].
  - change (matrix initialInputs) with (MatrixState.resizeMatrix 4 []).
    apply MatrixState.resizeMatrix_zeroDiagonal.
Qed.

Lemma removeVar_consistent_example :
  consistent (removeVar 1 initialInputs)
  ∧ length (variables (removeVar 1 initialInputs)) = 3
  ∧ resizeEffect (removeVar 1 initialInputs) = removeVar 1 initialInputs.
Proof.
  destruct (removeVar_consistent 1 initialInputs initialInputs_consistent)
    as (Hc & Hin & _ & Hfix).
  split; [exact Hc|]. split; [|exact Hfix].
  apply Hin. cbn. lia.
Defined.

Lemma addVar_resize_consistent_example :
  consistent (resizeEffect (addVar initialInputs))
  ∧ length (variables (resizeEffect (addVar initialInputs))) = 5
  ∧ MatrixEngine.cell (matrix (resizeEffect (addVar initialInputs))) 4 2 = Some 0%float.
Proof.
  destruct (addVar_resize_consistent initialInputs initialInputs_consistent)
    as (Hc & Hlen & _ & _ & Hnew).
  split; [exact Hc|]. split; [exact Hlen|].
  apply (Hnew 2). cbn. lia.
Defined.

End PageInputs.

(** ** The preview that follows the inputs: buildPreviewResult after the
       handlers of the page *)

Module PagePreview.
Import JsNumber.




End PagePreview.

(** ** The results view: the points, the averages and the hidden variables
       derived from an analysis *)

Module ResultsView.
Import JsNumber MatrixEngine.

(** [ScatterPoint]: a coordinate or a quadrant read from the analysis is
    [undefined] ([None]) where the analysis has no entry.  The quadrant map
    holds the properties the object has of its own; a name that is a
    property of every object (inherited from Object.prototype) and has no
    entry of its own is outside the model. *)
Record ScatterPoint := {
  name : string;
  x : option float;
  y : option float;
  q : option string
}.

(** The [dataPoints] memo. *)
Definition dataPoints (analysis : option ComputeOut) : list ScatterPoint :=
  match analysis with
  | None => []
  | Some a =>
      imap (fun index name =>
              {| name := name;
                 x := dependencia_x a !! index;
                 y := motricidad_y a !! index;
                 q := quadrants a !! name |})
           (variables a)
  end.

(** The [visibleDataPoints] memo. *)
Definition visibleDataPoints (dataPoints : list ScatterPoint) (hiddenVars : list string)
    : list ScatterPoint :=
  filter (fun point => name point ∉ hiddenVars) dataPoints.

(** toggleVariableVisibility, as a function of the previous hidden list. *)
Definition toggleVariableVisibility (name : string) (prev : list string) : list string :=
  if decide (name ∈ prev) then filter (fun item => item ≠ name) prev else prev ++ [name].

(** The effect that prunes the hidden list when the variables change. *)
Definition pruneHidden (variables prev : list string) : list string :=
  filter (fun name => name ∈ variables) prev.

(** The two averages of the [summary] memo:
    [values.reduce((acc, value) => acc + value, 0) / (variables.length || 1)]. *)
Definition summaryAverage (a : ComputeOut) (values : list float) : float :=
  let total := if decide (length (variables a) = 0) then 1 else length (variables a) in
  PrimFloat.div (foldl PrimFloat.add 0%float values) (ofNat total).

Definition summary_avgX (a : ComputeOut) : float := summaryAverage a (dependencia_x a).
Definition summary_avgY (a : ComputeOut) : float := summaryAverage a (motricidad_y a).

(** [last] is the last position of [name] in [names]. *)
Definition lastAt (names : list string) (name : string) (last : nat) : Prop :=
  names !! last = Some name ∧ ∀ k, last < k -> names !! k ≠ Some name.

Lemma lastAt_exists (names : list string) (name : string) (i : nat) :
  names !! i = Some name -> ∃ last, i ≤ last ∧ lastAt names name last.
Proof.
  revert i. induction names as [|a names IH] using rev_ind; intros i Hi; [discriminate|].
  destruct (decide (a = name)) as [->|Hne].
  - exists (length names). split.
    + apply lookup_lt_Some in Hi. rewrite length_app in Hi. cbn in Hi. lia.
    + split; [apply list_lookup_middle; reflexivity|].
      intros k Hk Hn. apply lookup_lt_Some in Hn. rewrite length_app in Hn. cbn in Hn. lia.
  - destruct (decide (i < length names)) as [Hlt|Hge].
    + rewrite lookup_app_l in Hi by assumption.
      destruct (IH i Hi) as (last & Hle & Hl & Hafter). exists last. split; [exact Hle|].
      pose proof (lookup_lt_Some _ _ _ Hl) as Hlast. split.
      * rewrite lookup_app_l by assumption. exact Hl.
      * intros k Hk Hn. destruct (decide (k < length names)) as [Hk'|Hk'].
        -- rewrite lookup_app_l in Hn by assumption. exact (Hafter k Hk Hn).
        -- rewrite lookup_app_r in Hn by lia.
           destruct (k - length names) as [|d]; cbn in Hn; [congruence | discriminate].
    + rewrite lookup_app_r in Hi by lia.
      destruct (i - length names) as [|d]; cbn in Hi; [congruence | discriminate].
Qed.

Lemma lastAt_NoDup (names : list string) (name : string) (i last : nat) :
  NoDup names -> names !! i = Some name -> lastAt names name last -> last = i.
Proof. intros Hnd Hi [Hl _]. eapply NoDup_lookup; eassumption. Qed.

(** The loop that fills [quadrants]: a later assignment to the same key
    replaces the earlier one. *)
Lemma buildQuadrants_last names dep drv xCut yCut n name last :
  last < n -> names !! last = Some name -> name ≠ "__proto__" ->
  (∀ k, last < k -> names !! k ≠ Some name) ->
  n ≤ length names ->
  buildQuadrants names dep drv xCut yCut n !! name
  = Some (quadrantLabel (numAt dep last) (numAt drv last) xCut yCut).
Proof.
  intros Hlast Hl Hp Hafter. unfold buildQuadrants.
  induction n as [|n IH]; intros Hn; [lia|].
  rewrite seq_S, foldl_app. cbn [foldl Nat.add]. rewrite setProperty_lookup.
  destruct (lookup_lt_is_Some_2 names n) as [a Ha]; [lia|].
  assert (Hkey : nameAt names n = a) by (unfold nameAt; rewrite Ha; reflexivity).
  rewrite Hkey.
  destruct (decide (last = n)) as [->|Hne].
  - assert (a = name) as -> by congruence.
    destruct (decide (name = name ∧ name ≠ "__proto__")) as [_|Hbad]; [reflexivity|].
    exfalso. apply Hbad. split; [reflexivity | exact Hp].
  - destruct (decide (a = name ∧ a ≠ "__proto__")) as [[-> _]|_]; [|apply IH; lia].
    exfalso. apply (Hafter n); [lia | exact Ha].
Qed.

Lemma buildQuadrants_absent names dep drv xCut yCut n name :
  n ≤ length names -> name ≠ "__proto__" ->
  buildQuadrants names dep drv xCut yCut n !! name = None
  ↔ ∀ k, k < n -> names !! k ≠ Some name.
Proof.
  intros Hn Hp. revert Hn. unfold buildQuadrants. induction n as [|n IH]; intros Hn.
  - cbn. split; [intros _ k Hk; lia | intros _; apply lookup_empty].
  - rewrite seq_S, foldl_app. cbn [foldl Nat.add]. rewrite setProperty_lookup.
    destruct (lookup_lt_is_Some_2 names n) as [a Ha]; [lia|].
    assert (Hkey : nameAt names n = a) by (unfold nameAt; rewrite Ha; reflexivity).
    rewrite Hkey.
    destruct (decide (a = name ∧ a ≠ "__proto__")) as [[-> _]|Hne].
    + split; [discriminate|].
      intros Hall. exfalso. apply (Hall n); [lia | exact Ha].
    + rewrite IH by lia. split.
      * intros Hall k Hk. destruct (decide (k = n)) as [->|Hkn]; [|apply Hall; lia].
        rewrite Ha. intros [= ->]. apply Hne. split; [reflexivity | exact Hp].
      * intros Hall k Hk. apply Hall. lia.
Qed.

Lemma preview_fields names matrix r :
  buildPreviewResult names matrix = Some r ->
  names ≠ [] ∧ length matrix = length names
  ∧ variables r = names
  ∧ dependencia_x r = dependency (computeXY matrix)
  ∧ motricidad_y r = driving (computeXY matrix)
  ∧ x_cut r = computeCut (dependencia_x r)
  ∧ y_cut r = computeCut (motricidad_y r)
  ∧ quadrants r
    = buildQuadrants names (dependencia_x r) (motricidad_y r) (x_cut r) (y_cut r)
        (length names).
Proof.
  intros Hr. unfold buildPreviewResult in Hr.
  destruct (decide (length names = 0 ∨ length matrix ≠ length names)) as [|Hn];
    [discriminate|].
  destruct (negb (hasValue (length names) matrix)); [discriminate|].
  injection Hr as <-. cbn.
  split; [intros ->; apply Hn; left; reflexivity|].
  split; [lia|]. repeat split; reflexivity.
Qed.

(** A name used in the scenarios twice. *)
Definition repeatedNames : list string := ["A"; "B"; "A"].

(** X6. The scatter points of a preview: one point per variable, in order,
    carrying the variable's name and its entries of the two vectors; the keys
    of the quadrant map are exactly the names; and the quadrant of a point is
    the label computed at the LAST position of its name.  With distinct names
    that is the point's own position; a name that occurs twice is coloured
    twice with the label of its last occurrence.  (The name __proto__ is left
    aside: assigning to that key of a JavaScript object creates no property.) *)
Theorem dataPoints_of_preview (names : list string) (matrix : Matrix) (r : ComputeOut) :
  "__proto__" ∉ names ->
  buildPreviewResult names matrix = Some r ->
  length (dataPoints (Some r)) = length names
  ∧ (∀ key, quadrants r !! key = None ↔ key ∉ names)
  ∧ (∀ i name, names !! i = Some name ->
       ∃ last xi yi xl yl,
         i ≤ last ∧ lastAt names name last
         ∧ dependencia_x r !! i = Some xi ∧ motricidad_y r !! i = Some yi
         ∧ dependencia_x r !! last = Some xl ∧ motricidad_y r !! last = Some yl
         ∧ dataPoints (Some r) !! i
           = Some {| name := name; x := Some xi; y := Some yi;
                     q := Some (quadrantLabel xl yl (x_cut r) (y_cut r)) |}
         ∧ (NoDup names -> last = i)).
Proof.
  intros Hproto Hr.
  destruct (preview_fields names matrix r Hr) as (_ & Hlen & Hv & Hd & Hy & _ & _ & Hq).
  destruct (computeXY_length matrix) as [Hdl Hyl].
  rewrite <- Hd in Hdl. rewrite <- Hy in Hyl.
  split; [cbn [dataPoints]; rewrite length_imap, Hv; reflexivity|].
  split.
  - intros key. rewrite Hq. destruct (decide (key = "__proto__")) as [->|Hkey].
    + rewrite buildQuadrants_proto. split; [intros _; exact Hproto | reflexivity].
    + rewrite buildQuadrants_absent by (lia || assumption).
      rewrite list_elem_of_lookup. split.
      * intros Hall [k Hk]. apply (Hall k); [eapply lookup_lt_Some; exact Hk | exact Hk].
      * intros Hno k _ Hk. apply Hno. exists k. exact Hk.
  - intros i name Hi. destruct (lastAt_exists names name i Hi) as (last & Hle & Hlast).
    pose proof Hlast as [Hl Hafter]. pose proof (lookup_lt_Some _ _ _ Hl) as Hbound.
    destruct (lookup_lt_is_Some_2 (dependencia_x r) i) as [xi Hxi]; [lia|].
    destruct (lookup_lt_is_Some_2 (motricidad_y r) i) as [yi Hyi]; [lia|].
    destruct (lookup_lt_is_Some_2 (dependencia_x r) last) as [xl Hxl]; [lia|].
    destruct (lookup_lt_is_Some_2 (motricidad_y r) last) as [yl Hyl']; [lia|].
    exists last, xi, yi, xl, yl.
    split; [exact Hle|]. split; [exact Hlast|].
    split; [exact Hxi|]. split; [exact Hyi|]. split; [exact Hxl|]. split; [exact Hyl'|].
    split; [|intros Hnd; eapply lastAt_NoDup; eassumption].
    cbn [dataPoints]. rewrite list_lookup_imap, Hv, Hi. cbn. rewrite Hxi, Hyi. do 3 f_equal.
    assert (Hname : name ≠ "__proto__").
    { intros ->. apply Hproto. apply list_elem_of_lookup. exists i. exact Hi. }
    rewrite Hq, (buildQuadrants_last names _ _ _ _ _ name last Hbound Hl Hname
                   (fun k Hk => Hafter k Hk)) by lia.
    unfold numAt. rewrite Hxl, Hyl'. reflexivity.
Qed.

(** The scenario matrix under a repeated name: the first point lies in the
    quadrant "Autonoma" by its coordinates and is shown as "Resultado", the
    label of the third variable. *)
Example dataPoints_repeated_name :
  dataPoints (buildPreviewResult repeatedNames exampleMatrix) !! 0
  = Some {| name := "A"; x := Some 1%float; y := Some 2%float; q := Some "Resultado" |}
  ∧ quadrantLabel 1 2 (PrimFloat.div 8 3) (PrimFloat.div 8 3) = "Autonoma".
Proof. split; vm_compute; reflexivity. Qed.

Lemma dataPoints_of_preview_example :
  ("__proto__" ∉ repeatedNames)
  ∧ (∃ r, buildPreviewResult repeatedNames exampleMatrix = Some r
          ∧ length (dataPoints (Some r)) = 3
          ∧ (∀ key, quadrants r !! key = None ↔ key ∉ repeatedNames)).
Proof.
  assert (Hp : "__proto__" ∉ repeatedNames).
  { unfold repeatedNames. intros Hin.
    repeat (apply elem_of_cons in Hin as [Hin|Hin]; [discriminate|]).
    apply elem_of_nil in Hin. exact Hin. }
  split; [exact Hp|].
  destruct (buildPreviewResult repeatedNames exampleMatrix) as [r|] eqn:Hr;
    [|vm_compute in Hr; discriminate].
  exists r. split; [reflexivity|].
  destruct (dataPoints_of_preview repeatedNames exampleMatrix r Hp Hr) as (Hlen & Hkeys & _).
  split; [exact Hlen | exact Hkeys].
Defined.

(** X7. The averages of the summary are computed with their own guard
    ([variables.length || 1]); whenever a vector is as long as the list of
    variables the average is the cut the engine computes for that vector, so
    for every preview the two averages shown are the two cuts. *)
Theorem summary_averages_are_cuts :
  (∀ a, length (dependencia_x a) = length (variables a) ->
        summary_avgX a = computeCut (dependencia_x a))
  ∧ (∀ a, length (motricidad_y a) = length (variables a) ->
          summary_avgY a = computeCut (motricidad_y a))
  ∧ (∀ names matrix r, buildPreviewResult names matrix = Some r ->
       summary_avgX r = x_cut r ∧ summary_avgY r = y_cut r).
Proof.
  assert (Hgen : ∀ a values, length values = length (variables a) ->
                   summaryAverage a values = computeCut values).
  { intros a values Hl. unfold summaryAverage, computeCut. rewrite Hl.
    destruct (decide (length (variables a) = 0)) as [Hz|]; [|reflexivity].
    rewrite Hz in Hl. apply nil_length_inv in Hl. subst values. reflexivity. }
  split; [intros a; apply Hgen|]. split; [intros a; apply Hgen|].
  intros names matrix r Hr.
  destruct (preview_fields names matrix r Hr) as (_ & Hlen & Hv & Hd & Hy & Hx & Hyc & _).
  destruct (computeXY_length matrix) as [Hdl Hyl].
  unfold summary_avgX, summary_avgY. rewrite Hx, Hyc.
  split; apply Hgen; rewrite Hv; [rewrite Hd | rewrite Hy]; lia.
Qed.

Lemma filter_iff_on {A : Type} (P Q : A -> Prop)
    {Pdec : ∀ x, Decision (P x)} {Qdec : ∀ x, Decision (Q x)} (l : list A) :
  (∀ x, x ∈ l -> P x ↔ Q x) -> filter P l = filter Q l.
Proof.
  induction l as [|a l IH]; intros Hall; [reflexivity|].
  rewrite !filter_cons.
  pose proof (Hall a (list_elem_of_here a l)) as Ha.
  rewrite IH by (intros x Hx; apply Hall; right; exact Hx).
  destruct (decide (P a)), (decide (Q a)); tauto || reflexivity.
Qed.

Lemma toggle_elem_of (name other : string) (prev : list string) :
  other ∈ toggleVariableVisibility name prev
  ↔ (if decide (other = name) then name ∉ prev else other ∈ prev).
Proof.
  unfold toggleVariableVisibility.
  destruct (decide (name ∈ prev)) as [Hin|Hout].
  - rewrite list_elem_of_filter. destruct (decide (other = name)) as [->|Hne]; tauto.
  - rewrite elem_of_app, list_elem_of_singleton.
    destruct (decide (other = name)) as [->|Hne]; tauto.
Qed.

(** X8. Hiding and showing variables.  toggleVariableVisibility flips the
    membership of the one name and of no other, and keeps a list without
    repetitions free of them; hiding a name removes from the plane exactly
    the points of that name; toggling the same name twice shows the same
    points again; and the effect that drops the hidden names that are no
    longer variables never changes the points shown for an analysis of those
    variables, and leaves at most as many hidden names as there are
    variables. *)
Theorem toggleVariableVisibility_flips (name : string) (prev : list string) :
  (name ∈ toggleVariableVisibility name prev ↔ name ∉ prev)
  ∧ (∀ other, other ≠ name ->
       other ∈ toggleVariableVisibility name prev ↔ other ∈ prev)
  ∧ (NoDup prev -> NoDup (toggleVariableVisibility name prev))
  ∧ (∀ points, name ∉ prev ->
       visibleDataPoints points (toggleVariableVisibility name prev)
       = filter (fun point => ResultsView.name point ≠ name) (visibleDataPoints points prev))
  ∧ (∀ points,
       visibleDataPoints points
         (toggleVariableVisibility name (toggleVariableVisibility name prev))
       = visibleDataPoints points prev)
  ∧ (∀ a, visibleDataPoints (dataPoints (Some a)) (pruneHidden (variables a) prev)
          = visibleDataPoints (dataPoints (Some a)) prev)
  ∧ (∀ variables, NoDup prev ->
       NoDup (pruneHidden variables prev)
       ∧ length (pruneHidden variables prev) ≤ length variables).
Proof.
  split; [rewrite toggle_elem_of; destruct (decide (name = name)); tauto|].
  split; [intros other Hne; rewrite toggle_elem_of;
          destruct (decide (other = name)); tauto|].
  split.
  { intros Hnd. unfold toggleVariableVisibility.
    destruct (decide (name ∈ prev)) as [Hin|Hout]; [apply NoDup_filter; exact Hnd|].
    apply NoDup_app. split; [exact Hnd|]. split; [|apply NoDup_singleton].
    intros other Hother Hone. apply list_elem_of_singleton in Hone. subst other.
    contradiction. }
  split.
  { intros points Hout. unfold visibleDataPoints. rewrite list_filter_filter.
    apply list_filter_iff. intros point. rewrite toggle_elem_of.
    destruct (decide (ResultsView.name point = name)) as [->|Hne]; tauto. }
  split.
  { intros points. unfold visibleDataPoints. apply list_filter_iff. intros point.
    rewrite toggle_elem_of. case_decide; subst; rewrite toggle_elem_of;
      case_decide; tauto. }
  split.
  { intros a. unfold visibleDataPoints. apply filter_iff_on. intros point Hin.
    cbn [dataPoints] in Hin. apply elem_of_lookup_imap in Hin as (i & v & -> & Hv).
    cbn [ResultsView.name]. unfold pruneHidden. rewrite list_elem_of_filter.
    apply list_elem_of_lookup_2 in Hv. tauto. }
  intros variables Hnd. split; [apply NoDup_filter; exact Hnd|].
  apply submseteq_length, NoDup_submseteq; [apply NoDup_filter; exact Hnd|].
  intros v Hv. apply list_elem_of_filter in Hv. tauto.
Qed.

End ResultsView.

(** ** The outcomes of the importer: which exception, and what the parser
       does not look at *)

Module ImporterFacts.
Import JsNumber DatasetImporter.

Local Open Scope list_scope.

Section Outcomes.
Context `{Builtins}.

(** The exceptions a data row can raise. *)
Lemma parseRow_Err names rowIndex row e :
  parseRow names rowIndex row = Err e ->
  (∃ rowName expected, e = RowLabelMismatch rowName expected (rowIndex + 2))
  ∨ (∃ col, e = NonNumericValue (rowIndex + 2) col).
Proof.
  unfold parseRow. intros Hp.
  destruct (decide (trim (cellText (cellAt row 0)) ≠ ""
                    ∧ slotAt names rowIndex ≠ Some (trim (cellText (cellAt row 0))))).
  - injection Hp as <-. left. eauto.
  - apply mapSlotsResult_Err_inv in Hp as (j & name & _ & He & _). right.
    exists (j + 2). exact (normalizeNumberCell_Err _ _ _ _ He).
Qed.

(** The exceptions of the body come after the checks of the structure. *)
Lemma parseMatrixTable_body_Err rows e :
  parseMatrixTable rows = Err e ->
  (rows = [] ∧ e = EmptyFile)
  ∨ (rows ≠ [] ∧ headerCells rows = [] ∧ e = NoHeader)
  ∨ (rows ≠ [] ∧ headerCells rows ≠ []
     ∧ ∃ k, e = BlankHeaderName (k + 1) ∧ firstBlank (headerCells rows) k)
  ∨ (rows ≠ [] ∧ headerCells rows ≠ [] ∧ allNamed (headerCells rows)
     ∧ length (bodyRows rows) ≠ length (headerCells rows)
     ∧ e = WrongRowCount (length (headerCells rows)) (length (bodyRows rows)))
  ∨ (passesStructure rows
     ∧ mapResult (parseRow (headerCells rows)) 0 (bodyRows rows) = Err e).
Proof.
  unfold parseMatrixTable. intros Hp.
  destruct (decide (rows = [])) as [->|Hrows]; [left; split; congruence|].
  destruct (decide (headerCells rows = [])) as [Hh|Hh];
    [right; left; repeat split; congruence|].
  destruct (mapSlotsResult checkHeaderName (headerCells rows)) as [names|e0] eqn:Hnames.
  - apply checkHeader_Ok in Hnames as [-> Hnamed]. cbn in Hp.
    destruct (decide (length (bodyRows rows) ≠ length (headerCells rows))) as [Hc|Hc].
    + injection Hp as <-. right; right; right; left. repeat split; assumption.
    + right; right; right; right. split; [repeat split; try assumption; lia|].
      destruct (mapResult (parseRow (headerCells rows)) 0 (bodyRows rows)); cbn in Hp;
        [discriminate | congruence].
  - cbn in Hp. injection Hp as <-. right; right; left.
    split; [assumption|]. split; [assumption|]. apply checkHeader_Err. exact Hnames.
Qed.

Lemma body_Err_kind names body e :
  mapResult (parseRow names) 0 body = Err e ->
  (∃ rowName expected r, e = RowLabelMismatch rowName expected r)
  ∨ (∃ r col, e = NonNumericValue r col).
Proof.
  intros Hm. apply mapResult_Err_inv in Hm as (i & row & _ & He & _).
  apply parseRow_Err in He as [(a & b & ->)|(col & ->)]; [left | right]; eauto.
Qed.

Lemma parseRow_label_Err names rowIndex row rowName expected r :
  parseRow names rowIndex row = Err (RowLabelMismatch rowName expected r)
  ↔ rowName = trim (cellText (cellAt row 0)) ∧ rowName ≠ ""
    ∧ slotAt names rowIndex ≠ Some rowName
    ∧ expected = default "undefined" (slotAt names rowIndex) ∧ r = rowIndex + 2.
Proof.
  unfold parseRow.
  destruct (decide (trim (cellText (cellAt row 0)) ≠ ""
                    ∧ slotAt names rowIndex ≠ Some (trim (cellText (cellAt row 0)))))
    as [[Hne Hdiff]|Hok].
  - split.
    + intros [= <- <- <-]. repeat split; assumption.
    + intros (-> & _ & _ & -> & ->). reflexivity.
  - split.
    + intros Hm. apply mapSlotsResult_Err_inv in Hm as (j & name & _ & He & _).
      apply normalizeNumberCell_Err in He. discriminate He.
    + intros (-> & Hne & Hdiff & _). exfalso. apply Hok. split; assumption.
Qed.

(** The cells of the header: the slot [k] of the header is the slot [k + 1]
    of the first row, trimmed. *)
Lemma headerCells_slot (rows : Table) k name :
  slotAt (headerCells rows) k = Some name
  ↔ ∃ cell, slotAt (default [] (head rows)) (k + 1) = Some cell
            ∧ name = trim (cellText cell).
Proof.
  unfold headerCells. rewrite slotAt_mapSlots.
  assert (Htail : slotAt (tail (default [] (head rows))) k
                  = slotAt (default [] (head rows)) (k + 1)).
  { unfold slotAt. rewrite lookup_tail. replace (k + 1) with (S k) by lia. reflexivity. }
  rewrite Htail. destruct (slotAt (default [] (head rows)) (k + 1)) as [cell|]; cbn; split.
  - intros [= <-]. exists cell. split; reflexivity.
  - intros (cell' & [= <-] & ->). reflexivity.
  - discriminate.
  - intros (cell' & Hbad & _). discriminate.
Qed.

(** X9. The exceptions of the header.  parseMatrixTable raises "El archivo
    no contiene datos." exactly for the table without rows; "La primera fila
    debe listar los nombres de variables." exactly when there is a first row
    and it has at most one slot; and "Asigna un nombre a la variable p en la
    cabecera." exactly when p is the position (counted from 1, the corner
    not counted) of the first header slot that holds a blank name, whatever
    the data rows hold.  A slot of the header holds a blank name when the
    slot of the first row holds a cell whose text, trimmed, is empty; an
    empty slot of the first row is skipped by the check.  parseMatrixTable
    never raises one of the three exceptions of the CSV import. *)
Theorem parseMatrixTable_header_outcomes (rows : Table) :
  (parseMatrixTable rows = Err EmptyFile ↔ rows = [])
  ∧ (parseMatrixTable rows = Err NoHeader
     ↔ rows ≠ [] ∧ length (default [] (head rows)) ≤ 1)
  ∧ (∀ p, parseMatrixTable rows = Err (BlankHeaderName p)
          ↔ ∃ k, p = k + 1 ∧ firstBlank (headerCells rows) k)
  ∧ (∀ k, slotAt (headerCells rows) k = Some ""
          ↔ ∃ cell, slotAt (default [] (head rows)) (k + 1) = Some cell
                    ∧ trim (cellText cell) = "")
  ∧ (∀ k, slotAt (default [] (head rows)) (k + 1) = None ->
          ¬ firstBlank (headerCells rows) k)
  ∧ parseMatrixTable rows ≠ Err NoValidNames
  ∧ parseMatrixTable rows ≠ Err VariableCountMismatch
  ∧ parseMatrixTable rows ≠ Err HeaderMismatch.
Proof.
  assert (Hinv : ∀ e, parseMatrixTable rows = Err e ->
            (∀ a b, e ≠ WrongRowCount a b) ->
            (∀ a b c, e ≠ RowLabelMismatch a b c) -> (∀ a b, e ≠ NonNumericValue a b) ->
            (rows = [] ∧ e = EmptyFile)
            ∨ (rows ≠ [] ∧ headerCells rows = [] ∧ e = NoHeader)
            ∨ (∃ k, e = BlankHeaderName (k + 1) ∧ firstBlank (headerCells rows) k)).
  { intros e He Hw Hl Hn.
    destruct (parseMatrixTable_body_Err rows e He)
      as [?|[?|[(_ & _ & Hb)|[(_ & _ & _ & _ & Hc)|[_ Hbody]]]]];
      [left; assumption | right; left; assumption | right; right; exact Hb | |].
    - exfalso. exact (Hw _ _ Hc).
    - exfalso. apply body_Err_kind in Hbody as [(a & b & c & ->)|(a & b & ->)];
        [exact (Hl _ _ _ eq_refl) | exact (Hn _ _ eq_refl)]. }
  assert (Hshort : headerCells rows = [] ↔ length (default [] (head rows)) ≤ 1).
  { unfold headerCells, mapSlots. destruct (default [] (head rows)) as [|corner [|c cs]]; cbn;
      split; try reflexivity; try lia; try discriminate. }
  split; [|split; [|split; [|split; [|split; [|split; [|split]]]]]].
  - split; [|intros ->; reflexivity].
    intros He. destruct (Hinv _ He) as [[? _]|[(_ & _ & ?)|(k & ? & _)]];
      try discriminate; assumption.
  - rewrite <- Hshort. split.
    + intros He. destruct (Hinv _ He) as [[_ ?]|[(? & ? & _)|(k & ? & _)]];
        try discriminate. split; assumption.
    + intros [Hrows Hh]. unfold parseMatrixTable.
      destruct (decide (rows = [])); [contradiction|].
      destruct (decide (headerCells rows = [])); [reflexivity | contradiction].
  - intros p. split.
    + intros He. destruct (Hinv _ He) as [[_ ?]|[(_ & _ & ?)|(k & Hk & Hb)]];
        try discriminate. exists k. split; [congruence | exact Hb].
    + intros (k & -> & Hb). pose proof Hb as [Hk _].
      assert (Hh : headerCells rows ≠ []) by (intros Hh; rewrite Hh in Hk; discriminate).
      unfold parseMatrixTable.
      destruct (decide (rows = [])) as [->|_]; [exfalso; apply Hh; reflexivity|].
      destruct (decide (headerCells rows = [])); [contradiction|].
      rewrite (proj2 (checkHeader_Err (headerCells rows) (BlankHeaderName (k + 1))));
        [reflexivity|]. exists k. split; [reflexivity | exact Hb].
  - intros k. rewrite headerCells_slot. split.
    + intros (cell & Hcell & Hname). exists cell. split; [exact Hcell | congruence].
    + intros (cell & Hcell & Hname). exists cell. split; [exact Hcell | congruence].
  - intros k Hempty [Hk _]. apply headerCells_slot in Hk as (cell & Hcell & _). congruence.
  - intros He. destruct (Hinv _ He) as [[_ ?]|[(_ & _ & ?)|(k & ? & _)]]; discriminate.
  - intros He. destruct (Hinv _ He) as [[_ ?]|[(_ & _ & ?)|(k & ? & _)]]; discriminate.
  - intros He. destruct (Hinv _ He) as [[_ ?]|[(_ & _ & ?)|(k & ? & _)]]; discriminate.
Qed.

(** X10. The labels of the data rows.  parseMatrixTable raises "El nombre
    de fila a no coincide con b en la fila r" exactly when the structure of
    the table passes and r - 2 is the position, among the filled data rows,
    of a row that starts with the non-blank label a while the header slot of
    that position does not hold the name a, every filled row before it
    having been read without an exception; b is the name that header slot
    holds, and the word undefined when the slot is empty.  In a table that
    is accepted every filled row starts with a blank cell or with the name
    the header holds at its position. *)
Theorem parseMatrixTable_row_label (rows : Table) :
  (∀ rowName expected r,
     parseMatrixTable rows = Err (RowLabelMismatch rowName expected r)
     ↔ passesStructure rows
       ∧ ∃ i row, r = i + 2 ∧ bodyRows rows !! i = Some row
           ∧ rowName = trim (cellText (cellAt row 0)) ∧ rowName ≠ ""
           ∧ slotAt (headerCells rows) i ≠ Some rowName
           ∧ expected = default "undefined" (slotAt (headerCells rows) i)
           ∧ ∀ k row', k < i -> bodyRows rows !! k = Some row' ->
               ∃ vals, parseRow (headerCells rows) k row' = Ok vals)
  ∧ (∀ ds, parseMatrixTable rows = Ok ds ->
       ∀ i row, bodyRows rows !! i = Some row ->
         trim (cellText (cellAt row 0)) = ""
         ∨ slotAt (variables ds) i = Some (trim (cellText (cellAt row 0)))).
Proof.
  split.
  - intros rowName expected r. split.
    + intros He.
      destruct (parseMatrixTable_body_Err rows _ He)
        as [[_ ?]|[(_ & _ & ?)|[(_ & _ & k & ? & _)|[(_ & _ & _ & _ & ?)|[Hst Hbody]]]]];
        try discriminate.
      split; [exact Hst|].
      apply mapResult_Err_inv in Hbody as (i & row & Hrow & Herr & Hbefore).
      cbn [Nat.add] in Herr.
      apply parseRow_label_Err in Herr as (Hname & Hne & Hdiff & Hexp & Hr).
      exists i, row. repeat split; assumption.
    + intros (Hst & i & row & -> & Hrow & Hname & Hne & Hdiff & Hexp & Hbefore).
      rewrite parseMatrixTable_structured by assumption.
      rewrite (mapResult_first_error (parseRow (headerCells rows)) (bodyRows rows) 0 i row
                 (RowLabelMismatch rowName expected (i + 2))); [reflexivity | exact Hrow | |].
      * cbn [Nat.add]. apply parseRow_label_Err. repeat split; assumption.
      * intros k row' Hk Hrow'. exact (Hbefore k row' Hk Hrow').
  - intros ds Hp i row Hrow.
    apply parseMatrixTable_Ok in Hp as (_ & Hvars & Hvalues).
    destruct (mapResult_lookup _ _ _ _ _ _ Hvalues Hrow) as (vals & _ & Hparse).
    cbn [Nat.add] in Hparse. apply parseRow_Ok in Hparse as [Hlabel _].
    unfold labelOk in Hlabel. rewrite Hvars.
    destruct (decide (trim (cellText (cellAt row 0)) = "")) as [|Hne]; [left; assumption|].
    destruct (decide (slotAt (headerCells rows) i = Some (trim (cellText (cellAt row 0)))))
      as [|Hdiff]; [right; assumption|].
    exfalso. apply Hlabel. split; assumption.
Qed.

(** parseMatrixTable reads its table through the header names and the
    filled data rows. *)
Lemma parseMatrixTable_ext (rows rows' : Table) :
  rows ≠ [] -> rows' ≠ [] ->
  headerCells rows' = headerCells rows ->
  length (bodyRows rows') = length (bodyRows rows) ->
  (∀ names, mapResult (parseRow names) 0 (bodyRows rows')
            = mapResult (parseRow names) 0 (bodyRows rows)) ->
  parseMatrixTable rows' = parseMatrixTable rows.
Proof.
  intros Hr Hr' Hh Hl Hb. unfold parseMatrixTable.
  destruct (decide (rows = [])); [contradiction|].
  destruct (decide (rows' = [])); [contradiction|].
  rewrite Hh, Hl. destruct (decide (headerCells rows = [])); [reflexivity|].
  destruct (mapSlotsResult checkHeaderName (headerCells rows)) as [names|e]; [|reflexivity].
  cbn. rewrite Hb. reflexivity.
Qed.

Lemma mapResult_pointwise {A B : Type} (f : nat -> A -> Result B) (l l' : list A) start :
  length l' = length l ->
  (∀ i x x', l !! i = Some x -> l' !! i = Some x' -> f (start + i) x' = f (start + i) x) ->
  mapResult f start l' = mapResult f start l.
Proof.
  revert l' start. induction l as [|x l IH]; intros [|x' l'] start Hlen Hall;
    try discriminate; [reflexivity|].
  cbn [mapResult]. pose proof (Hall 0 x x' eq_refl eq_refl) as H0.
  rewrite Nat.add_0_r in H0. rewrite H0.
  rewrite (IH l' (S start)); [reflexivity | cbn in Hlen; lia|].
  intros i y y' Hy Hy'. replace (S start + i) with (start + S i) by lia.
  apply Hall; assumption.
Qed.

Lemma mapResult_ext_names {A B : Type} (f g : nat -> A -> Result B) (l : list A) start :
  (∀ i x, l !! i = Some x -> f (start + i) x = g (start + i) x) ->
  mapResult f start l = mapResult g start l.
Proof.
  revert start. induction l as [|x l IH]; intros start Hall; [reflexivity|].
  cbn [mapResult]. pose proof (Hall 0 x eq_refl) as H0. rewrite Nat.add_0_r in H0.
  rewrite H0, (IH (S start)); [reflexivity|].
  intros i y Hy. replace (S start + i) with (start + S i) by lia. apply Hall. exact Hy.
Qed.

Lemma mapSlotsResult_ext {A B : Type} (f g : nat -> A -> Result B) (l : list (option A)) :
  (∀ i x, slotAt l i = Some x -> f i x = g i x) ->
  mapSlotsResult f l = mapSlotsResult g l.
Proof.
  intros Hall. apply mapResult_ext_names. intros i s Hs. cbn [Nat.add].
  destruct s as [x|]; cbn [onSlot]; [|reflexivity].
  rewrite (Hall i x); [reflexivity|]. apply slotAt_Some. exact Hs.
Qed.

(** Slots appended to a row that already has a slot for every column of the
    header are not read. *)
Lemma parseRow_longer names rowIndex (row extra : Row) :
  length names < length row ->
  parseRow names rowIndex (row ++ extra) = parseRow names rowIndex row.
Proof.
  intros Hlen.
  assert (Hcell : ∀ k, k ≤ length names -> cellAt (row ++ extra) k = cellAt row k).
  { intros k Hk. unfold cellAt, slotAt. rewrite lookup_app_l by lia. reflexivity. }
  unfold parseRow. rewrite (Hcell 0) by lia.
  destruct (decide (trim (cellText (cellAt row 0)) ≠ ""
                    ∧ slotAt names rowIndex ≠ Some (trim (cellText (cellAt row 0)))));
    [reflexivity|].
  apply mapSlotsResult_ext. intros j name Hname.
  rewrite Hcell; [reflexivity|]. apply slotAt_lt in Hname. lia.
Qed.

(** X11. What parseMatrixTable does not look at.  A data row without a
    filled cell (every slot empty, null, or a text that is blank once
    trimmed) can be inserted anywhere after the header, or removed, without
    changing the outcome, the exception and its coordinates included; and
    slots appended to a filled data row that already has a slot for every
    slot of the header row are not read: the outcome is the same. *)
Theorem parseMatrixTable_ignores (header : Row) (before after : Table) :
  (∀ blank : Row,
     someSlot isFilled blank = false ->
     parseMatrixTable (header :: before ++ blank :: after)
     = parseMatrixTable (header :: before ++ after))
  ∧ (∀ row extra : Row,
       someSlot isFilled row = true -> length header ≤ length row ->
       parseMatrixTable (header :: before ++ (row ++ extra)%list :: after)
       = parseMatrixTable (header :: before ++ row :: after)).
Proof.
  split.
  - intros blank Hblank.
    assert (Hbody : bodyRows (header :: before ++ blank :: after)
                    = bodyRows (header :: before ++ after)).
    { unfold bodyRows. cbn [tail]. rewrite !filter_app, filter_cons.
      destruct (decide (someSlot isFilled blank = true)); [congruence | reflexivity]. }
    apply parseMatrixTable_ext; try discriminate; try reflexivity.
    + rewrite Hbody. reflexivity.
    + intros names. rewrite Hbody. reflexivity.
  - intros row extra Hrow Hlen.
    assert (Hfilled : someSlot isFilled (row ++ extra)%list = true).
    { unfold someSlot in Hrow |- *. rewrite existsb_app, Hrow. reflexivity. }
    assert (Hbody : ∀ r, someSlot isFilled r = true ->
              bodyRows (header :: before ++ r :: after)
              = filter (fun row => someSlot isFilled row = true) before
                ++ r :: filter (fun row => someSlot isFilled row = true) after).
    { intros r Hr. unfold bodyRows. cbn [tail]. rewrite filter_app, filter_cons.
      destruct (decide (someSlot isFilled r = true)); [reflexivity | contradiction]. }
    unfold parseMatrixTable.
    destruct (decide (header :: before ++ (row ++ extra)%list :: after = [])); [discriminate|].
    destruct (decide (header :: before ++ row :: after = [])); [discriminate|].
    change (headerCells (header :: before ++ (row ++ extra)%list :: after))
      with (headerCells (header :: before ++ row :: after)).
    destruct (decide (headerCells (header :: before ++ row :: after) = [])); [reflexivity|].
    destruct (mapSlotsResult checkHeaderName (headerCells (header :: before ++ row :: after)))
      as [names|e] eqn:Hnames; [|reflexivity].
    cbn [mbind Result_bind]. apply checkHeader_Ok in Hnames as [-> _].
    rewrite (Hbody _ Hfilled), (Hbody _ Hrow). rewrite !length_app. cbn [length].
    destruct (decide (_ ≠ _)); [reflexivity|].
    rewrite (mapResult_pointwise _
               (filter (fun row => someSlot isFilled row = true) before
                ++ row :: filter (fun row => someSlot isFilled row = true) after)
               (filter (fun row => someSlot isFilled row = true) before
                ++ (row ++ extra)%list :: filter (fun row => someSlot isFilled row = true) after));
      [reflexivity | rewrite !length_app; reflexivity|].
    intros i x x' Hx Hx'. cbn [Nat.add].
    destruct (decide (i = length (filter (fun row => someSlot isFilled row = true) before)))
      as [->|Hi].
    + rewrite list_lookup_middle in Hx, Hx' by reflexivity.
      injection Hx as <-. injection Hx' as <-. apply parseRow_longer.
      unfold headerCells. cbn [head default from_option id]. rewrite length_mapSlots.
      destruct header as [|corner cells]; cbn [tail length] in *; [|lia].
      destruct row; [discriminate | cbn; lia].
    + assert (x' = x) as ->; [|reflexivity].
      destruct (decide (i < length (filter (fun row => someSlot isFilled row = true) before))).
      * rewrite lookup_app_l in Hx, Hx' by assumption. congruence.
      * rewrite lookup_app_r in Hx, Hx' by lia.
        destruct (i - length (filter (fun row => someSlot isFilled row = true) before))
          as [|d] eqn:Hd; [lia|]. cbn in Hx, Hx'. congruence.
Qed.

(** The names parseVariablesRows returns are trimmed and not blank. *)
Lemma parseVariablesRows_names rows :
  Forall (fun v => v ≠ "" ∧ trim v = v) (parseVariablesRows rows).
Proof.
  unfold parseVariablesRows. destruct rows as [|first rest]; [constructor|].
  apply Forall_forall. intros v Hv.
  apply list_elem_of_filter in Hv as [Hne Hv]. split; [exact Hne|].
  apply list_elem_of_fmap in Hv as (row & -> & _). apply trim_idempotent.
Qed.

Lemma dense_named (names : list string) :
  Forall (fun v => v ≠ "" ∧ trim v = v) names -> Forall named (dense names).
Proof.
  intros Hnames. unfold dense. apply Forall_fmap. eapply Forall_impl; [exact Hnames|].
  intros v [Hne Htrim]. exists v. split; [reflexivity | split; assumption].
Qed.

(** Names that agree with a header without empty slot, at every slot and in
    number, are that header. *)
Lemma dense_header (names : list string) (vars : list (option string)) :
  length names = length vars ->
  (∀ idx name, slotAt vars idx = Some name -> names !! idx = Some name) ->
  Forall (fun s => is_Some s) vars ->
  dense names = vars.
Proof.
  intros Hlen Hall Hfull. apply list_eq. intros i. unfold dense.
  rewrite list_lookup_fmap. destruct (vars !! i) as [s|] eqn:Hs.
  - rewrite Forall_lookup in Hfull. destruct (Hfull i s Hs) as [name ->].
    rewrite (Hall i name); [reflexivity|]. apply slotAt_Some. exact Hs.
  - rewrite lookup_ge_None_2; [reflexivity|]. apply lookup_ge_None in Hs. lia.
Qed.

(** X12. The import of the two CSV files.  It returns a dataset exactly
    when the matrix file alone is read as a dataset, the variables file
    lists as many names as the header of the matrix file has slots, and
    every name the header holds is the name of the same position in the
    variables file (an empty slot of the header is not compared); the
    dataset returned has the names of the variables file, which are trimmed
    and not blank, and the matrix read from the matrix file.  When the
    header has no empty slot this is the dataset of the matrix file, and it
    is well formed.  The exceptions come in the order of the code: a
    variables file without a name raises "variables.csv no tiene nombres
    validos." even when the matrix file is broken; then the exception of the
    matrix file; then the two lists of names are compared, first by length
    and then name by name. *)
Theorem importCsvFiles_outcomes (varsText matrixText : string) :
  (∀ ds, importCsvFiles varsText matrixText = Ok ds
         ↔ ∃ parsed,
             parseCsvMatrix matrixText = Ok parsed
             ∧ length (parseVariablesRows (readSheet varsText)) = length (variables parsed)
             ∧ (∀ idx name, slotAt (variables parsed) idx = Some name ->
                  parseVariablesRows (readSheet varsText) !! idx = Some name)
             ∧ ds = {| variables := dense (parseVariablesRows (readSheet varsText));
                       matrix := matrix parsed |})
  ∧ (∀ ds, importCsvFiles varsText matrixText = Ok ds ->
       Forall named (variables ds)
       ∧ ∃ parsed,
           parseCsvMatrix matrixText = Ok parsed ∧ shaped parsed
           ∧ matrix ds = matrix parsed
           ∧ (Forall (fun s => is_Some s) (variables parsed) -> ds = parsed ∧ wellFormed ds))
  ∧ (parseVariablesRows (readSheet varsText) = [] ->
     importCsvFiles varsText matrixText = Err NoValidNames)
  ∧ (parseVariablesRows (readSheet varsText) ≠ [] ->
     (∀ e, parseCsvMatrix matrixText = Err e -> importCsvFiles varsText matrixText = Err e)
     ∧ (∀ parsed, parseCsvMatrix matrixText = Ok parsed ->
          (length (parseVariablesRows (readSheet varsText)) ≠ length (variables parsed) ->
           importCsvFiles varsText matrixText = Err VariableCountMismatch)
          ∧ (length (parseVariablesRows (readSheet varsText)) = length (variables parsed) ->
             (∃ idx name, slotAt (variables parsed) idx = Some name
                          ∧ parseVariablesRows (readSheet varsText) !! idx ≠ Some name) ->
             importCsvFiles varsText matrixText = Err HeaderMismatch))).
Proof.
  assert (Hok : ∀ ds, importCsvFiles varsText matrixText = Ok ds
            ↔ ∃ parsed,
                parseCsvMatrix matrixText = Ok parsed
                ∧ length (parseVariablesRows (readSheet varsText)) = length (variables parsed)
                ∧ (∀ idx name, slotAt (variables parsed) idx = Some name ->
                     parseVariablesRows (readSheet varsText) !! idx = Some name)
                ∧ ds = {| variables := dense (parseVariablesRows (readSheet varsText));
                          matrix := matrix parsed |}).
  { intros ds. unfold importCsvFiles, parseCsvVariables.
    destruct (decide (parseVariablesRows (readSheet varsText) = [])) as [Hnil|Hnames].
    - cbn. split; [discriminate|]. intros (parsed & Hp & Hlen & _). exfalso.
      apply parseMatrixTable_shaped in Hp as [Hne _]. rewrite Hnil in Hlen.
      destruct (variables parsed); [contradiction | discriminate].
    - cbn [mbind Result_bind].
      destruct (parseCsvMatrix matrixText) as [parsed0|e]; cbn [mbind Result_bind].
      + destruct (decide (length (parseVariablesRows (readSheet varsText))
                          ≠ length (variables parsed0))) as [Hlen|Hlen].
        * split; [discriminate|]. intros (parsed & [= <-] & Hlen' & _). contradiction.
        * destruct (existsb _ _) eqn:Hex.
          -- split; [discriminate|]. intros (parsed & [= <-] & _ & Hall & _).
             apply differs_nowhere in Hall. congruence.
          -- split.
             ++ intros [= <-]. exists parsed0. split; [reflexivity|]. split; [lia|].
                split; [apply differs_nowhere; exact Hex | reflexivity].
             ++ intros (parsed & [= <-] & _ & _ & ->). reflexivity.
      + split; [discriminate|]. intros (parsed & Hp & _). discriminate. }
  split; [exact Hok|]. split; [|split].
  - intros ds Hds. apply Hok in Hds as (parsed & Hp & Hlen & Hall & ->). cbn [variables matrix].
    split; [apply dense_named, parseVariablesRows_names|].
    exists parsed. pose proof (parseMatrixTable_shaped _ _ Hp) as Hshape.
    split; [exact Hp|]. split; [exact Hshape|]. split; [reflexivity|].
    intros Hfull. rewrite (dense_header _ _ Hlen Hall Hfull).
    split; [destruct parsed; reflexivity|].
    apply shaped_wellFormed; [|exact Hfull]. destruct parsed; exact Hshape.
  - intros Hnil. unfold importCsvFiles, parseCsvVariables.
    destruct (decide (parseVariablesRows (readSheet varsText) = [])); [reflexivity|].
    contradiction.
  - intros Hnames. split.
    + intros e He. unfold importCsvFiles, parseCsvVariables.
      destruct (decide (parseVariablesRows (readSheet varsText) = [])); [contradiction|].
      cbn [mbind Result_bind]. rewrite He. reflexivity.
    + intros parsed Hp. split.
      * intros Hlen. unfold importCsvFiles, parseCsvVariables.
        destruct (decide (parseVariablesRows (readSheet varsText) = [])); [contradiction|].
        cbn [mbind Result_bind]. rewrite Hp. cbn [mbind Result_bind].
        destruct (decide (length (parseVariablesRows (readSheet varsText))
                          ≠ length (variables parsed))); [reflexivity | contradiction].
      * intros Hlen (idx & name & Hname & Hdiff). unfold importCsvFiles, parseCsvVariables.
        destruct (decide (parseVariablesRows (readSheet varsText) = [])); [contradiction|].
        cbn [mbind Result_bind]. rewrite Hp. cbn [mbind Result_bind].
        destruct (decide (length (parseVariablesRows (readSheet varsText))
                          ≠ length (variables parsed))); [contradiction|].
        destruct (existsb _ _) eqn:Hex; [reflexivity|].
        exfalso. apply Hdiff. apply (proj1 (differs_nowhere _ _) Hex). exact Hname.
Qed.

(** X13. The round trip through the two files.  For a well-formed dataset
    (names trimmed and not blank, one row of finite numbers per name), when
    the reader hands back the cells that datasetToCsvFiles wrote, the import
    of the two files returns the dataset; the table written for the dataset
    is read back as the dataset whatever the corner cell holds.  A name that
    contains the separator breaks the assumption on the reader. *)
Theorem importCsvFiles_written_dataset (corner : option Cell) (ds : ParsedDataset) :
  wellFormed ds ->
  readSheet (varsFile (datasetToCsvFiles ds)) = variableRows ds ->
  readSheet (matrixFile (datasetToCsvFiles ds)) = matrixRows corner ds ->
  dense (parseVariablesRows (variableRows ds)) = variables ds
  ∧ (∀ c, parseMatrixTable (matrixRows c ds) = Ok ds)
  ∧ importCsvFiles (varsFile (datasetToCsvFiles ds)) (matrixFile (datasetToCsvFiles ds))
    = Ok ds.
Proof.
  intros Hwf Hvars Hmatrix. pose proof Hwf as (_ & Hnames & _).
  split; [apply parseVariablesRows_written; exact Hnames|].
  split; [intros c; apply parseMatrixTable_written; exact Hwf|].
  apply (importCsvFiles_round_trip corner); assumption.
Qed.

End Outcomes.

#[local] Existing Instance plainBuiltins.

Lemma importCsvFiles_written_dataset_example :
  wellFormed exampleDataset
  ∧ importCsvFiles (varsFile (datasetToCsvFiles exampleDataset))
                   (matrixFile (datasetToCsvFiles exampleDataset))
    = Ok exampleDataset.
Proof.
  split; [exact exampleDataset_wellFormed|].
  apply (importCsvFiles_written_dataset None exampleDataset exampleDataset_wellFormed).
  - vm_compute. reflexivity.
  - vm_compute. reflexivity.
Defined.

(** The second slot of the header row is empty and is skipped; its third
    cell holds a no-break space only, a blank name. *)
Definition blankNameTable : Table :=
  [[None; Some (CStr "A"); None; Some (CStr NBSP)]; dense [CStr "A"; CNum 1]].

Lemma parseMatrixTable_header_outcomes_example :
  parseMatrixTable blankNameTable = Err (BlankHeaderName 3)
  ∧ parseMatrixTable [[Some (CStr "x")]] = Err NoHeader.
Proof.
  split.
  - destruct (parseMatrixTable_header_outcomes blankNameTable) as (_ & _ & Hblank & _).
    apply Hblank. exists 2. split; [reflexivity|]. split; [vm_compute; reflexivity|].
    intros k Hk. destruct k as [|[|k]]; [vm_compute; discriminate | vm_compute; discriminate | lia].
  - destruct (parseMatrixTable_header_outcomes [[Some (CStr "x")]]) as (_ & Hshort & _).
    apply Hshort. split; [discriminate | cbn; lia].
Defined.

(** The second data row is labelled B; the header holds no name at its
    position, the second slot of the header being empty. *)
Definition misplacedLabelTable : Table :=
  [[None; Some (CStr "A"); None]; dense [CStr "A"; CNum 0]; dense [CStr "B"; CNum 1]].

Lemma parseMatrixTable_row_label_example :
  parseMatrixTable misplacedLabelTable = Err (RowLabelMismatch "B" "undefined" 3).
Proof.
  destruct (parseMatrixTable_row_label misplacedLabelTable) as [Hlabel _].
  apply Hlabel. split.
  - split; [discriminate|]. split; [vm_compute; discriminate|]. split; [|reflexivity].
    repeat constructor; vm_compute; discriminate.
  - exists 1, (dense [CStr "B"; CNum 1%float]).
    split; [reflexivity|]. split; [reflexivity|]. split; [reflexivity|].
    split; [discriminate|]. split; [vm_compute; discriminate|]. split; [reflexivity|].
    intros k row' Hk Hrow'. assert (k = 0) as -> by lia.
    injection Hrow' as <-. eexists. vm_compute. reflexivity.
Defined.

(** A row of two no-break spaces is a row without a filled cell; a cell
    after the last header column is not read. *)
Lemma parseMatrixTable_ignores_example :
  parseMatrixTable [dense [CStr ""; CStr "A"];
                    [Some (CStr NBSP); Some (CStr NBSP)];
                    dense [CStr "A"; CNum 0]]
  = parseMatrixTable [dense [CStr ""; CStr "A"]; dense [CStr "A"; CNum 0]]
  ∧ parseMatrixTable [dense [CStr ""; CStr "A"]; dense [CStr "A"; CNum 0; CStr "x"]]
    = parseMatrixTable [dense [CStr ""; CStr "A"]; dense [CStr "A"; CNum 0]].
Proof.
  split.
  - destruct (parseMatrixTable_ignores (dense [CStr ""; CStr "A"]) []
                [dense [CStr "A"; CNum 0%float]]) as [Hblank _].
    apply (Hblank [Some (CStr NBSP); Some (CStr NBSP)]). reflexivity.
  - destruct (parseMatrixTable_ignores (dense [CStr ""; CStr "A"]) [] []) as [_ Hextra].
    apply (Hextra (dense [CStr "A"; CNum 0%float]) [Some (CStr "x")]);
      [reflexivity | cbn; lia].
Defined.

(** A variables file that lists A and C, next to a matrix file whose header
    lists A and B. *)
Definition otherNamesText : string := "name" +:+ LF +:+ "A" +:+ LF +:+ "C".

Definition squareMatrixText : string := ",A,B" +:+ LF +:+ "A,0,1" +:+ LF +:+ "B,2,0".

Lemma importCsvFiles_outcomes_example :
  importCsvFiles otherNamesText squareMatrixText = Err HeaderMismatch
  ∧ importCsvFiles "name" "" = Err NoValidNames.
Proof.
  split.
  - destruct (importCsvFiles_outcomes otherNamesText squareMatrixText) as (_ & _ & _ & Hrest).
    destruct Hrest as [_ Hcmp]; [vm_compute; discriminate|].
    destruct (Hcmp {| variables := dense ["A"; "B"];
                      matrix := map dense [[0; 1]; [2; 0]]%float |}) as [_ Hmis];
      [vm_compute; reflexivity|].
    apply Hmis; [reflexivity|].
    exists 1, "B". split; [reflexivity | vm_compute; discriminate].
  - destruct (importCsvFiles_outcomes "name" "") as (_ & _ & Hnil & _).
    apply Hnil. vm_compute. reflexivity.
Defined.

End ImporterFacts.


(** ** The threshold control of the graph: handleMinWeightChange, then
       loadGraph *)

Module GraphControls.
Import JsNumber GraphProjector.

(** The value of [minW] when the page is mounted. *)
Definition initialMinW : float := 0%float.

Section Controls.
Context `{DatasetImporter.Builtins}.

(** handleMinWeightChange, as the value [minW] holds after the call;
    [Number(raw)] is the conversion of the language. *)
Definition handleMinWeightChange (raw : string) : float :=
  let next := DatasetImporter.stringToNumber raw in
  if negb (isFinite next) || PrimFloat.ltb next 0%float then 0%float else next.

(** What loadGraph accepts as a threshold. *)
Definition accepted (minWeight : float) : Prop :=
  isFinite minWeight = true ∧ PrimFloat.ltb minWeight 0%float = false.

Lemma handleMinWeightChange_accepted raw : accepted (handleMinWeightChange raw).
Proof.
  unfold handleMinWeightChange, accepted.
  destruct (isFinite (DatasetImporter.stringToNumber raw)) eqn:Hf; cbn [negb orb];
    [|split; reflexivity].
  destruct (PrimFloat.ltb (DatasetImporter.stringToNumber raw) 0%float) eqn:Hlt;
    [split; reflexivity | split; assumption].
Qed.

(** X14. The threshold that the control stores is always finite and never
    below zero: a text that does not read as such a number stores 0, any
    other text stores the number read.  So, with a project selected, the
    call of loadGraph made with the stored threshold (or with the initial
    one) always goes to the request; the message "El umbral debe ser un
    numero positivo." is never set on that path. *)
Theorem handleMinWeightChange_always_accepted (raw : string) :
  accepted (handleMinWeightChange raw)
  ∧ accepted initialMinW
  ∧ (accepted (DatasetImporter.stringToNumber raw) ->
     handleMinWeightChange raw = DatasetImporter.stringToNumber raw)
  ∧ (¬ accepted (DatasetImporter.stringToNumber raw) -> handleMinWeightChange raw = 0%float)
  ∧ (∀ projectId requestJson isDirected st minWeight,
       minWeight = handleMinWeightChange raw ∨ minWeight = initialMinW ->
       noProject projectId = false ->
       loadGraph projectId requestJson minWeight isDirected st
       = match requestJson projectId minWeight isDirected with
         | Resolved data =>
             {| graph := Some data; graphError := None; graphLoading := false |}
         | Rejected message =>
             {| graph := None; graphError := Some message; graphLoading := false |}
         end).
Proof.
  split; [apply handleMinWeightChange_accepted|].
  split; [split; reflexivity|]. split; [|split].
  - intros [Hf Hlt]. unfold handleMinWeightChange. rewrite Hf, Hlt. reflexivity.
  - intros Hno. unfold handleMinWeightChange.
    destruct (isFinite (DatasetImporter.stringToNumber raw)) eqn:Hf; [|reflexivity].
    destruct (PrimFloat.ltb (DatasetImporter.stringToNumber raw) 0%float) eqn:Hlt;
      [reflexivity|].
    exfalso. apply Hno. split; assumption.
  - intros projectId requestJson isDirected st minWeight Hw Hp.
    assert (Hacc : accepted minWeight).
    { destruct Hw as [->| ->]; [apply handleMinWeightChange_accepted | split; reflexivity]. }
    destruct Hacc as [Hf Hlt]. unfold loadGraph. rewrite Hp, Hf, Hlt. reflexivity.
Qed.

End Controls.

End GraphControls.

(** ** The import of a workbook: parseExcelFile *)

Module ExcelImporter.
Import JsNumber DatasetImporter.

(** [s.startsWith(needle)] *)
Fixpoint startsWith (needle s : string) : bool :=
  match needle, s with
  | EmptyString, _ => true
  | String a needle', String b s' => bool_decide (a = b) && startsWith needle' s'
  | String _ _, EmptyString => false
  end.

(** [s.includes(needle)] *)
Fixpoint includes (needle s : string) : bool :=
  startsWith needle s
  || match s with
     | String _ rest => includes needle rest
     | EmptyString => false
     end.

(** A workbook as parseExcelFile reads it: the names of the sheets in
    order, and for a name the rows that
    [XLSX.utils.sheet_to_json(workbook.Sheets[name], {header: 1, blankrows: false})]
    returns. *)
Record Workbook := {
  SheetNames : list string;
  sheetRows : string -> Table
}.

(** The exceptions of parseExcelFile: its own, and those of parseMatrixTable. *)
Inductive ExcelError :=
| NoSheets
| TableError (e : ImportError).

Definition excelErrorMessage (e : ExcelError) : string :=
  match e with
  | NoSheets => "El Excel no tiene hojas para leer."
  | TableError e' => errorMessage e'
  end.

(** [sheetNames.find((name) => name.toLowerCase().includes(needle))] *)
Definition findSheet (needle : string) (sheetNames : list string) : option string :=
  find (fun name => includes needle (toLowerCase name)) sheetNames.

(** The name of the sheet the matrix is read from. *)
Definition matrixSheetName (first : string) (sheetNames : list string) : string :=
  default (default first (findSheet "matriz" sheetNames)) (findSheet "mat" sheetNames).

Section Excel.
Context `{Builtins}.

Definition parseExcelFile (workbook : Workbook) : ExcelError + ParsedDataset :=
  match SheetNames workbook with
  | [] => inl NoSheets
  | first :: _ =>
      let sheetNames := SheetNames workbook in
      match parseMatrixTable (sheetRows workbook (matrixSheetName first sheetNames)) with
      | Err e => inl (TableError e)
      | Ok parsed =>
          match findSheet "var" sheetNames with
          | Some varsSheetName =>
              let vars := parseVariablesRows (sheetRows workbook varsSheetName) in
              if decide (length vars = length (variables parsed))
              then inr {| variables := dense vars; matrix := matrix parsed |}
              else inr parsed
          | None => inr parsed
          end
      end
  end.

Lemma startsWith_trans (a b s : string) :
  startsWith a b = true -> startsWith b s = true -> startsWith a s = true.
Proof.
  revert b s. induction a as [|c a IH]; intros b s; [reflexivity|].
  destruct b as [|d b]; cbn [startsWith]; [discriminate|].
  destruct s as [|e s]; [discriminate|].
  intros Hab Hbs. apply andb_true_iff in Hab as [Hcd Hab].
  apply andb_true_iff in Hbs as [Hde Hbs].
  apply bool_decide_eq_true_1 in Hcd. apply bool_decide_eq_true_1 in Hde. subst.
  rewrite bool_decide_eq_true_2 by reflexivity. cbn. exact (IH _ _ Hab Hbs).
Qed.

Lemma includes_shorter (a b s : string) :
  startsWith a b = true -> includes b s = true -> includes a s = true.
Proof.
  intros Hab. induction s as [|d s IH]; cbn [includes]; intros Hin.
  - apply orb_true_iff in Hin as [Hin|Hin]; [|discriminate].
    rewrite (startsWith_trans _ _ _ Hab Hin). reflexivity.
  - apply orb_true_iff in Hin as [Hin|Hin].
    + rewrite (startsWith_trans _ _ _ Hab Hin). reflexivity.
    + rewrite (IH Hin). apply orb_true_r.
Qed.

(** The second search, for "matriz", never decides: a name that contains
    "matriz" contains "mat". *)
Lemma findSheet_matriz sheetNames :
  findSheet "mat" sheetNames = None -> findSheet "matriz" sheetNames = None.
Proof.
  unfold findSheet. induction sheetNames as [|name rest IH]; [reflexivity|].
  cbn [find]. destruct (includes "mat" (toLowerCase name)) eqn:Hmat; [discriminate|].
  intros Hrest. destruct (includes "matriz" (toLowerCase name)) eqn:Hmatriz; [|exact (IH Hrest)].
  apply (includes_shorter "mat" "matriz") in Hmatriz; [congruence | reflexivity].
Qed.

Lemma matrixSheetName_mat first sheetNames :
  matrixSheetName first sheetNames = default first (findSheet "mat" sheetNames).
Proof.
  unfold matrixSheetName. destruct (findSheet "mat" sheetNames) eqn:Hmat; [reflexivity|].
  rewrite (findSheet_matriz _ Hmat). reflexivity.
Qed.

(** X15. The import of a workbook.  The only exception of parseExcelFile
    itself is the one for a workbook without sheets; the matrix is read from
    the first sheet whose lower-cased name contains "mat", or else from the
    first sheet (the search for "matriz" never decides), and an exception of
    parseMatrixTable on that sheet is the exception of the import.  A
    dataset that is returned has the matrix of that sheet, with the shape
    parseMatrixTable gives it (one row per header slot, a finite number
    under every header name, an empty slot under every empty slot of the
    header); its names are those of the header, unless a sheet whose name
    contains "var" lists exactly as many names as the header has slots: then
    these names, trimmed and not blank, are taken as they are, without being
    compared with the header. *)
Theorem parseExcelFile_outcomes (workbook : Workbook) :
  (parseExcelFile workbook = inl NoSheets ↔ SheetNames workbook = [])
  ∧ (∀ first rest, SheetNames workbook = first :: rest ->
       matrixSheetName first (SheetNames workbook)
       = default first (findSheet "mat" (SheetNames workbook))
       ∧ (∀ e, parseExcelFile workbook = inl (TableError e)
               ↔ parseMatrixTable
                   (sheetRows workbook (default first (findSheet "mat" (SheetNames workbook))))
                 = Err e)
       ∧ (∀ ds, parseExcelFile workbook = inr ds ->
            ∃ parsed,
              parseMatrixTable
                (sheetRows workbook (default first (findSheet "mat" (SheetNames workbook))))
              = Ok parsed
              ∧ shaped parsed
              ∧ matrix ds = matrix parsed
              ∧ length (variables ds) = length (variables parsed)
              ∧ (variables ds = variables parsed
                 ∨ ∃ varsSheet,
                     findSheet "var" (SheetNames workbook) = Some varsSheet
                     ∧ variables ds = dense (parseVariablesRows (sheetRows workbook varsSheet))
                     ∧ Forall named (variables ds)))
       ∧ (∀ parsed varsSheet,
            parseMatrixTable
              (sheetRows workbook (default first (findSheet "mat" (SheetNames workbook))))
            = Ok parsed ->
            findSheet "var" (SheetNames workbook) = Some varsSheet ->
            length (parseVariablesRows (sheetRows workbook varsSheet))
            = length (variables parsed) ->
            parseExcelFile workbook
            = inr {| variables := dense (parseVariablesRows (sheetRows workbook varsSheet));
                     matrix := matrix parsed |})).
Proof.
  split.
  { unfold parseExcelFile. destruct (SheetNames workbook) as [|first rest] eqn:Hnames.
    - split; reflexivity.
    - split; [|discriminate].
      destruct (parseMatrixTable _) as [parsed|e]; [|discriminate].
      destruct (findSheet "var" (first :: rest)); [|discriminate].
      destruct (decide _); discriminate. }
  intros first rest Hnames.
  split; [apply matrixSheetName_mat|].
  unfold parseExcelFile. rewrite Hnames, matrixSheetName_mat.
  destruct (parseMatrixTable (sheetRows workbook (default first (findSheet "mat" (first :: rest)))))
    as [parsed|e0] eqn:Hp.
  - pose proof (parseMatrixTable_shaped _ _ Hp) as Hshape.
    split; [|split].
    + intros e. split; [|discriminate].
      destruct (findSheet "var" (first :: rest)); [|discriminate].
      destruct (decide _); discriminate.
    + intros ds Hds. exists parsed. split; [reflexivity|]. split; [exact Hshape|].
      destruct (findSheet "var" (first :: rest)) as [varsSheet|] eqn:Hvar.
      * destruct (decide (length (parseVariablesRows (sheetRows workbook varsSheet))
                          = length (variables parsed))) as [Hlen|Hlen];
          injection Hds as <-.
        -- split; [reflexivity|]. cbn [variables]. split.
           ++ unfold dense. rewrite length_map. exact Hlen.
           ++ right. exists varsSheet. split; [reflexivity|]. split; [reflexivity|].
              apply ImporterFacts.dense_named, ImporterFacts.parseVariablesRows_names.
        -- split; [reflexivity|]. split; [reflexivity|]. left. reflexivity.
      * injection Hds as <-. split; [reflexivity|]. split; [reflexivity|]. left. reflexivity.
    + intros parsed' varsSheet [= <-] Hvar Hlen. rewrite Hvar.
      destruct (decide (length (parseVariablesRows (sheetRows workbook varsSheet))
                        = length (variables parsed))); [reflexivity | contradiction].
  - split; [|split].
    + intros e. split; [intros [= ->]; reflexivity | intros [= ->]; reflexivity].
    + intros ds Hds. discriminate.
    + intros parsed varsSheet Hbad. discriminate.
Qed.

End Excel.

#[local] Existing Instance plainBuiltins.

(** A workbook of three sheets: the matrix is read from the sheet Matriz,
    and the two names of the sheet Variables replace those of its header. *)
Definition exampleWorkbook : Workbook :=
  {| SheetNames := ["Datos"; "Matriz"; "Variables"];
     sheetRows := fun name =>
       if decide (name = "Matriz")
       then [[None; Some (CStr "A"); Some (CStr "B")];
             dense [CStr "A"; CNum 0; CNum 1];
             dense [CStr "B"; CNum 2; CNum 0]]
       else if decide (name = "Variables")
       then [dense [CStr "Nombre"]; dense [CStr "Alfa"]; dense [CStr "Beta"]]
       else [] |}.

Lemma parseExcelFile_outcomes_example :
  parseExcelFile exampleWorkbook
  = inr {| variables := dense ["Alfa"; "Beta"];
           matrix := map dense [[0; 1]; [2; 0]]%float |}.
Proof.
  destruct (parseExcelFile_outcomes exampleWorkbook) as [_ Hrest].
  destruct (Hrest "Datos" ["Matriz"; "Variables"] eq_refl) as (_ & _ & _ & Hvars).
  rewrite (Hvars {| variables := dense ["A"; "B"];
                    matrix := map dense [[0; 1]; [2; 0]]%float |} "Variables");
    vm_compute; reflexivity.
Defined.

End ExcelImporter.


(** ** The SectorAnalysis component: toPoints, mean and the two averages *)

Module SectorAnalysis.
Import JsNumber.

(** The [ComputeOut] of the component: the two cuts are optional. *)
Record ComputeOut := {
  variables : list string;
  dependencia_x : list float;
  motricidad_y : list float;
  x_cut : option float;
  y_cut : option float
}.

Record Point := { name : string; x : float; y : float }.

(** The number of points: [Math.min] of the three lengths. *)
Definition pointCount (from : ComputeOut) : nat :=
  length (variables from) `min` (length (dependencia_x from) `min` length (motricidad_y from)).

(** [from.variables[i]] is read below the three lengths only;
    [Number(v ?? 0)] is [v] for a number and 0 for an absent entry. *)
Definition toPoints (from : ComputeOut) : list Point :=
  map (fun i => {| name := default "undefined" (variables from !! i);
                   x := default 0%float (dependencia_x from !! i);
                   y := default 0%float (motricidad_y from !! i) |})
      (seq 0 (pointCount from)).

Definition mean (nums : list float) : float :=
  if decide (length nums = 0) then 0%float
  else PrimFloat.div (foldl PrimFloat.add 0%float nums) (ofNat (length nums)).

(** [typeof data.x_cut === "number" ? data.x_cut : mean(points.map((d) => d.x))] *)
Definition xAvg (data : ComputeOut) : float :=
  match x_cut data with
  | Some cut => cut
  | None => mean (map x (toPoints data))
  end.

Definition yAvg (data : ComputeOut) : float :=
  match y_cut data with
  | Some cut => cut
  | None => mean (map y (toPoints data))
  end.

(** The result of the engine handed to the component, with its cuts or
    without them. *)
Definition ofEngine (withCuts : bool) (r : MatrixEngine.ComputeOut) : ComputeOut :=
  {| variables := MatrixEngine.variables r;
     dependencia_x := MatrixEngine.dependencia_x r;
     motricidad_y := MatrixEngine.motricidad_y r;
     x_cut := if withCuts then Some (MatrixEngine.x_cut r) else None;
     y_cut := if withCuts then Some (MatrixEngine.y_cut r) else None |}.

Lemma map_lookup_seq {A : Type} (d : A) (l : list A) (n : nat) :
  n ≤ length l -> map (fun i => default d (l !! i)) (seq 0 n) = take n l.
Proof.
  intros Hn. apply list_eq. intros i. rewrite list_lookup_fmap.
  destruct (decide (i < n)) as [Hi|Hi].
  - rewrite lookup_seq_lt by assumption. rewrite lookup_take_lt by assumption.
    destruct (lookup_lt_is_Some_2 l i) as [v Hv]; [lia|]. cbn. rewrite Hv. reflexivity.
  - rewrite lookup_seq_ge by lia. rewrite lookup_take_ge by lia. reflexivity.
Qed.

Lemma toPoints_x from : map x (toPoints from) = take (pointCount from) (dependencia_x from).
Proof.
  unfold toPoints. rewrite map_map. cbn [x].
  apply map_lookup_seq. unfold pointCount. lia.
Qed.

Lemma toPoints_y from : map y (toPoints from) = take (pointCount from) (motricidad_y from).
Proof.
  unfold toPoints. rewrite map_map. cbn [y].
  apply map_lookup_seq. unfold pointCount. lia.
Qed.

(** X16. The points and the averages of SectorAnalysis.  toPoints returns
    as many points as the shortest of the three vectors has entries, point i
    holding entry i of each; an average that is not handed over is the mean
    of the coordinates of the points, that is of the first entries of the
    vector only, not of the whole vector.  For a result of the page's engine
    there is one point per variable, and the two averages are the cuts of
    the engine whether the cuts are handed over or not. *)
Theorem toPoints_and_averages :
  (∀ from, length (toPoints from) = pointCount from)
  ∧ (∀ from i, i < pointCount from ->
       ∃ n vx vy, variables from !! i = Some n ∧ dependencia_x from !! i = Some vx
                  ∧ motricidad_y from !! i = Some vy
                  ∧ toPoints from !! i = Some {| name := n; x := vx; y := vy |})
  ∧ (∀ data, x_cut data = None ->
       xAvg data = mean (take (pointCount data) (dependencia_x data)))
  ∧ (∀ data, y_cut data = None ->
       yAvg data = mean (take (pointCount data) (motricidad_y data)))
  ∧ (∀ names matrix r withCuts,
       MatrixEngine.buildPreviewResult names matrix = Some r ->
       length (toPoints (ofEngine withCuts r)) = length names
       ∧ xAvg (ofEngine withCuts r) = MatrixEngine.x_cut r
       ∧ yAvg (ofEngine withCuts r) = MatrixEngine.y_cut r).
Proof.
  split; [intros from; unfold toPoints; rewrite length_map, length_seq; reflexivity|].
  split.
  { intros from i Hi. unfold pointCount in Hi.
    destruct (lookup_lt_is_Some_2 (variables from) i) as [n Hn]; [lia|].
    destruct (lookup_lt_is_Some_2 (dependencia_x from) i) as [vx Hx]; [lia|].
    destruct (lookup_lt_is_Some_2 (motricidad_y from) i) as [vy Hy]; [lia|].
    exists n, vx, vy. repeat split; try assumption.
    unfold toPoints. rewrite list_lookup_fmap, lookup_seq_lt by (unfold pointCount; lia).
    cbn. rewrite Hn, Hx, Hy. reflexivity. }
  split; [intros data Hc; unfold xAvg; rewrite Hc, toPoints_x; reflexivity|].
  split; [intros data Hc; unfold yAvg; rewrite Hc, toPoints_y; reflexivity|].
  intros names matrix r withCuts Hr.
  destruct (ResultsView.preview_fields names matrix r Hr)
    as (_ & Hlen & Hv & Hd & Hy & Hx & Hyc & _).
  destruct (MatrixEngine.computeXY_length matrix) as [Hdl Hyl].
  rewrite <- Hd in Hdl. rewrite <- Hy in Hyl.
  assert (Hcount : pointCount (ofEngine withCuts r) = length names).
  { unfold pointCount, ofEngine. cbn. rewrite Hv, Hdl, Hyl. lia. }
  split; [unfold toPoints; rewrite length_map, length_seq; exact Hcount|].
  unfold xAvg, yAvg. destruct withCuts; [split; reflexivity|].
  cbn [x_cut y_cut ofEngine]. rewrite toPoints_x, toPoints_y, Hcount.
  cbn [dependencia_x motricidad_y ofEngine].
  rewrite !take_ge by lia. rewrite Hx, Hyc. split; reflexivity.
Qed.

End SectorAnalysis.

(** ** handleImportFiles: which of the files dropped on the page are read *)

Module ImportSelection.
Import DatasetImporter ExcelImporter.

(** [s.endsWith(suffix)] *)
Fixpoint endsWith (suffix s : string) : bool :=
  bool_decide (s = suffix)
  || match s with
     | String _ rest => endsWith suffix rest
     | EmptyString => false
     end.

Section Selection.
(** The [File] objects of the list, compared by identity, and their names. *)
Context {File : Type} `{EqDecision File} (name : File -> string).

(** How handleImportFiles goes on: it returns at once, it asks for a project,
    it reads a workbook, it reads a pair of CSV files, or it raises one of its
    two exceptions about the files. *)
Inductive Selection :=
| Nothing
| NeedProject
| ReadExcel (single : File)
| ReadCsv (varsFile matrixFile : File)
| MissingPair
| WrongFiles.

Definition selectionMessage (s : Selection) : option string :=
  match s with
  | NeedProject => Some "Crea o selecciona un proyecto antes de importar."
  | MissingPair => Some "Sube variables.csv y matrix.csv."
  | WrongFiles => Some "Sube un Excel (.xlsx) o ambos CSV: variables.csv y matrix.csv."
  | _ => None
  end.

Definition lowerName (f : File) : string := toLowerCase (name f).

(** [files.length === 1 && lowerNames[0].endsWith(".xlsx")] *)
Definition isExcel (files : list File) : bool :=
  bool_decide (length files = 1)
  && match head files with
     | Some f => endsWith ".xlsx" (lowerName f)
     | None => false
     end.

Definition csvFiles (files : list File) : list File :=
  filter (fun f => endsWith ".csv" (lowerName f) = true) files.

(** [csvFiles.find((f) => f.name.toLowerCase().includes("var")) ?? csvFiles[0]] *)
Definition pickVars (csv : list File) : option File :=
  match find (fun f => includes "var" (lowerName f)) csv with
  | Some f => Some f
  | None => csv !! 0
  end.

(** The three attempts for the matrix file, [f !== varsFile] being the
    comparison of the objects. *)
Definition pickMatrix (csv : list File) (varsFile : option File) : option File :=
  match find (fun f => bool_decide (Some f ≠ varsFile) && includes "mat" (lowerName f)) csv with
  | Some f => Some f
  | None =>
      match find (fun f => bool_decide (Some f ≠ varsFile)) csv with
      | Some f => Some f
      | None => csv !! 1
      end
  end.

(** handleImportFiles up to the choice of the files that are read. *)
Definition handleImportFiles (projectId : option float) (files : list File) : Selection :=
  if decide (length files = 0) then Nothing
  else if GraphProjector.noProject projectId then NeedProject
  else
    match (if isExcel files then head files else None) with
    | Some single => ReadExcel single
    | None =>
        let csv := csvFiles files in
        if decide (2 ≤ length csv) then
          match pickVars csv, pickMatrix csv (pickVars csv) with
          | Some varsFile, Some matrixFile => ReadCsv varsFile matrixFile
          | _, _ => MissingPair
          end
        else WrongFiles
    end.

Lemma pickVars_Some csv :
  csv ≠ [] -> ∃ v, pickVars csv = Some v ∧ v ∈ csv.
Proof.
  intros Hne. unfold pickVars.
  destruct (find _ csv) as [f|] eqn:Hf.
  - exists f. split; [reflexivity|]. apply find_some in Hf as [Hin _].
    apply list_elem_of_In. exact Hin.
  - destruct csv as [|c0 rest]; [contradiction|]. exists c0. split; [reflexivity|].
    apply list_elem_of_here.
Qed.

Lemma pickMatrix_Some csv v :
  NoDup csv -> 2 ≤ length csv -> v ∈ csv ->
  ∃ m, pickMatrix csv (Some v) = Some m ∧ m ∈ csv ∧ m ≠ v.
Proof.
  intros Hnd Hlen Hv. unfold pickMatrix.
  destruct (find (fun f => bool_decide (Some f ≠ Some v) && includes "mat" (lowerName f)) csv)
    as [f|] eqn:Hf.
  - exists f. split; [reflexivity|]. apply find_some in Hf as [Hin Hp].
    apply andb_true_iff in Hp as [Hp _]. apply bool_decide_eq_true_1 in Hp.
    split; [apply list_elem_of_In; exact Hin | congruence].
  - destruct (find (fun f => bool_decide (Some f ≠ Some v)) csv) as [f|] eqn:Hg.
    + exists f. split; [reflexivity|]. apply find_some in Hg as [Hin Hp].
      apply bool_decide_eq_true_1 in Hp.
      split; [apply list_elem_of_In; exact Hin | congruence].
    + exfalso.
      assert (Hall : ∀ f, f ∈ csv -> f = v).
      { intros f Hin. apply list_elem_of_In in Hin.
        pose proof (find_none _ _ Hg f Hin) as Hp. cbn in Hp.
        apply bool_decide_eq_false_1 in Hp.
        destruct (decide (f = v)) as [|Hne]; [assumption|].
        exfalso. apply Hp. congruence. }
      destruct csv as [|c0 [|c1 rest]]; cbn in Hlen; [lia | lia|].
      apply NoDup_cons in Hnd as [Hnotin _]. apply Hnotin.
      rewrite (Hall c0) by apply list_elem_of_here.
      rewrite <- (Hall c1) at 1 by (right; apply list_elem_of_here).
      apply list_elem_of_here.
Qed.

Lemma isExcel_single files :
  isExcel files = true ↔ ∃ single, files = [single] ∧ endsWith ".xlsx" (lowerName single) = true.
Proof.
  unfold isExcel. split.
  - intros Hx. apply andb_true_iff in Hx as [Hlen Hx]. apply bool_decide_eq_true_1 in Hlen.
    destruct files as [|single [|f rest]]; try discriminate. exists single. split; [reflexivity|].
    exact Hx.
  - intros (single & -> & Hx). cbn. exact Hx.
Qed.

(** X17. Which files handleImportFiles reads.  Nothing happens for an empty
    list, and without a project only the request to create one is shown.
    Otherwise a workbook is read exactly when the list holds a single file
    whose lower-cased name ends in ".xlsx"; else, when at least two names end
    in ".csv", two of those files are read, and they are always two different
    files, so the exception "Sube variables.csv y matrix.csv." is never
    raised; else the exception that asks for a workbook or both CSV files is
    raised. *)
Theorem handleImportFiles_selection (projectId : option float) (files : list File) :
  NoDup files ->
  handleImportFiles projectId files ≠ MissingPair
  ∧ (handleImportFiles projectId files = Nothing ↔ files = [])
  ∧ (handleImportFiles projectId files = NeedProject
     ↔ files ≠ [] ∧ GraphProjector.noProject projectId = true)
  ∧ (∀ single, handleImportFiles projectId files = ReadExcel single
       ↔ GraphProjector.noProject projectId = false ∧ files = [single]
         ∧ endsWith ".xlsx" (lowerName single) = true)
  ∧ (∀ v m, handleImportFiles projectId files = ReadCsv v m ->
       v ≠ m ∧ v ∈ csvFiles files ∧ m ∈ csvFiles files)
  ∧ (files ≠ [] -> GraphProjector.noProject projectId = false -> isExcel files = false ->
     if decide (2 ≤ length (csvFiles files))
     then ∃ v m, handleImportFiles projectId files = ReadCsv v m
     else handleImportFiles projectId files = WrongFiles).
Proof.
  intros Hnd.
  assert (Hcsv : 2 ≤ length (csvFiles files) ->
            ∃ v m, pickVars (csvFiles files) = Some v
                   ∧ pickMatrix (csvFiles files) (pickVars (csvFiles files)) = Some m
                   ∧ v ≠ m ∧ v ∈ csvFiles files ∧ m ∈ csvFiles files).
  { intros Hlen.
    destruct (pickVars_Some (csvFiles files)) as (v & Hv & Hvin).
    { intros Hnil. rewrite Hnil in Hlen. cbn in Hlen. lia. }
    destruct (pickMatrix_Some (csvFiles files) v) as (m & Hm & Hmin & Hne);
      [apply NoDup_filter; exact Hnd | exact Hlen | exact Hvin|].
    exists v, m. rewrite Hv. repeat split; try assumption. congruence. }
  unfold handleImportFiles.
  destruct (decide (length files = 0)) as [Hz|Hz].
  { apply nil_length_inv in Hz. subst files.
    repeat split; try discriminate; try reflexivity; try contradiction.
    - intros [Hne _]. contradiction.
    - intros (_ & Hbad & _). discriminate. }
  assert (Hne : files ≠ []) by (intros ->; apply Hz; reflexivity).
  destruct (GraphProjector.noProject projectId) eqn:Hp.
  { repeat split; try discriminate; try assumption; try reflexivity.
    - intros ->. contradiction.
    - intros (Hbad & _). discriminate. }
  destruct (isExcel files) eqn:Hx.
  { apply isExcel_single in Hx as (single & -> & Hx). cbn [head].
    repeat split; try discriminate; try congruence.
    - intros [_ Hbad]. discriminate.
    - intros (_ & [= ->] & _). reflexivity. }
  destruct (decide (2 ≤ length (csvFiles files))) as [Hlen|Hlen].
  - destruct (Hcsv Hlen) as (v & m & Hv & Hm & Hvm & Hvin & Hmin). rewrite Hm, Hv.
    repeat split; try discriminate; try congruence.
    + intros [_ Hbad]. discriminate.
    + intros (_ & -> & Hbad).
      assert (isExcel [single] = true) by (apply isExcel_single; eauto). congruence.
    + intros _ _ _. exists v, m. reflexivity.
  - repeat split; try discriminate; try congruence.
    + intros [_ Hbad]. discriminate.
    + intros (_ & -> & Hbad).
      assert (isExcel [single] = true) by (apply isExcel_single; eauto). congruence.
Qed.

End Selection.

(** Two CSV files dropped together, named by their names. *)
Definition droppedPair : list string := ["variables.csv"; "matrix.csv"].

Lemma handleImportFiles_selection_example :
  NoDup droppedPair
  ∧ handleImportFiles id (Some 7%float) droppedPair = ReadCsv "variables.csv" "matrix.csv"
  ∧ handleImportFiles id (Some 7%float) droppedPair ≠ MissingPair.
Proof.
  assert (Hnd : NoDup droppedPair).
  { unfold droppedPair. apply NoDup_cons. split; [|apply NoDup_singleton].
    intros Hin. apply list_elem_of_singleton in Hin. discriminate. }
  split; [exact Hnd|]. split; [vm_compute; reflexivity|].
  exact (proj1 (handleImportFiles_selection id (Some 7%float) droppedPair Hnd)).
Defined.

End ImportSelection.

(** ** Renaming a variable, and the labels when a number is NaN *)

Module QuadrantFacts.
Import JsNumber MatrixEngine.

Lemma SFcompare_refl (a : spec_float) : a ≠ S754_nan -> SFcompare a a = Some Eq.
Proof.
  destruct a as [s|s| |s m e]; cbn; intros Hn; try contradiction;
    try (destruct s; reflexivity).
  rewrite Z.compare_refl.
  change (PosDef.Pos.compare_cont Eq m m) with (Pos.compare m m).
  rewrite Pos.compare_refl. destruct s; reflexivity.
Qed.

Lemma nan_spec (a : float) : PrimFloat.is_nan a = true -> Prim2SF a = S754_nan.
Proof.
  unfold PrimFloat.is_nan. rewrite FloatAxioms.eqb_spec. unfold SFeqb. intros Hn.
  destruct (Prim2SF a) as [sa|sa| |sa ma ea] eqn:Ha; [| |reflexivity|];
    rewrite SFcompare_refl in Hn by discriminate; discriminate.
Qed.

Lemma SFcompare_nan_r (a : spec_float) : SFcompare a S754_nan = None.
Proof. destruct a as [s|s| |s m e]; reflexivity. Qed.

(** A comparison with NaN on either side is false. *)
Lemma compare_nan (a b : float) :
  PrimFloat.is_nan a = true ∨ PrimFloat.is_nan b = true ->
  PrimFloat.ltb a b = false ∧ geb a b = false.
Proof.
  unfold geb. rewrite ltb_spec, leb_spec. unfold SFltb, SFleb.
  intros [Ha|Hb].
  - rewrite (nan_spec a Ha), SFcompare_nan_r. split; reflexivity.
  - rewrite (nan_spec b Hb), SFcompare_nan_r. split; reflexivity.
Qed.

Definition isLabel (label : string) : Prop :=
  label = "Determinante" ∨ label = "Reguladora" ∨ label = "Resultado" ∨ label = "Autonoma".

Lemma quadrantLabel_isLabel x y xCut yCut : isLabel (quadrantLabel x y xCut yCut).
Proof.
  unfold quadrantLabel, isLabel.
  destruct (geb y yCut && PrimFloat.ltb x xCut); [tauto|].
  destruct (geb y yCut && geb x xCut); [tauto|].
  destruct (PrimFloat.ltb y yCut && geb x xCut); tauto.
Qed.

Lemma quadrantLabel_nan x y xCut yCut :
  PrimFloat.is_nan x = true ∨ PrimFloat.is_nan y = true
  ∨ PrimFloat.is_nan xCut = true ∨ PrimFloat.is_nan yCut = true ->
  quadrantLabel x y xCut yCut = "Autonoma".
Proof.
  intros Hnan. unfold quadrantLabel.
  assert (Hcase : (PrimFloat.ltb x xCut = false ∧ geb x xCut = false)
                  ∨ (PrimFloat.ltb y yCut = false ∧ geb y yCut = false)).
  { destruct Hnan as [Hn|[Hn|[Hn|Hn]]];
      [left | right | left | right]; apply compare_nan; tauto. }
  destruct Hcase as [[-> ->]|[-> ->]]; rewrite ?andb_false_r; reflexivity.
Qed.

(** Every entry of the quadrant map was written by the loop. *)
Lemma buildQuadrants_entry names dep drv xCut yCut n key label :
  buildQuadrants names dep drv xCut yCut n !! key = Some label ->
  ∃ i, i < n ∧ label = quadrantLabel (numAt dep i) (numAt drv i) xCut yCut.
Proof.
  unfold buildQuadrants. induction n as [|n IH];
    [cbn [seq foldl]; rewrite lookup_empty; discriminate|].
  rewrite seq_S, foldl_app. cbn [foldl Nat.add]. rewrite setProperty_lookup.
  destruct (decide (nameAt names n = key ∧ nameAt names n ≠ "__proto__")) as [_|_].
  - intros [= <-]. exists n. split; [lia | reflexivity].
  - intros Hl. destruct (IH Hl) as (i & Hi & ->). exists i. split; [lia | reflexivity].
Qed.

(** X18. The labels of a preview.  Every label stored in the quadrant map
    is one of "Determinante", "Reguladora", "Resultado" and "Autonoma".  A
    comparison with NaN is false, so quadrantLabel answers "Autonoma"
    whenever one of its four arguments is NaN; when a cut of a preview is NaN
    every variable is labelled "Autonoma". *)
Theorem quadrantLabel_with_nan :
  (∀ x y xCut yCut, isLabel (quadrantLabel x y xCut yCut))
  ∧ (∀ x y xCut yCut,
       PrimFloat.is_nan x = true ∨ PrimFloat.is_nan y = true
       ∨ PrimFloat.is_nan xCut = true ∨ PrimFloat.is_nan yCut = true ->
       quadrantLabel x y xCut yCut = "Autonoma")
  ∧ (∀ names matrix r key label,
       buildPreviewResult names matrix = Some r ->
       quadrants r !! key = Some label ->
       isLabel label
       ∧ (PrimFloat.is_nan (x_cut r) = true ∨ PrimFloat.is_nan (y_cut r) = true ->
          label = "Autonoma")).
Proof.
  split; [exact quadrantLabel_isLabel|]. split; [exact quadrantLabel_nan|].
  intros names matrix r key label Hr Hl.
  destruct (ResultsView.preview_fields names matrix r Hr) as (_ & _ & _ & _ & _ & _ & _ & Hq).
  rewrite Hq in Hl. apply buildQuadrants_entry in Hl as (i & _ & ->).
  split; [apply quadrantLabel_isLabel|].
  intros Hnan. apply quadrantLabel_nan. tauto.
Qed.

(** X19. Renaming a variable.  setVarName replaces the name at the given
    position and nothing else; for a position outside the list it changes
    nothing.  The matrix is not touched and the number of names is the same,
    so consistent inputs stay consistent and the resize effect finds nothing
    to do; the preview after the renaming exists exactly when it existed
    before and has the same vectors and the same cuts; its names are the
    new list, and its quadrant map is the one the loop builds from the new
    list: when the new names are distinct the renamed variable is found
    under its new name with the label of its point, except that a variable
    renamed to "__proto__" gets no entry, the map never having an entry of
    that name. *)
Theorem setVarName_renames_one (idx : nat) (name : string) (st : PageInputs.Inputs) :
  length (PageInputs.variables (PageInputs.setVarName idx name st))
  = length (PageInputs.variables st)
  ∧ (idx < length (PageInputs.variables st) ->
     PageInputs.variables (PageInputs.setVarName idx name st) !! idx = Some name)
  ∧ (∀ k, k ≠ idx ->
       PageInputs.variables (PageInputs.setVarName idx name st) !! k
       = PageInputs.variables st !! k)
  ∧ (length (PageInputs.variables st) ≤ idx -> PageInputs.setVarName idx name st = st)
  ∧ PageInputs.matrix (PageInputs.setVarName idx name st) = PageInputs.matrix st
  ∧ (PageInputs.consistent st ->
     PageInputs.consistent (PageInputs.setVarName idx name st)
     ∧ PageInputs.resizeEffect (PageInputs.setVarName idx name st)
       = PageInputs.setVarName idx name st)
  ∧ (∀ r', buildPreviewResult (PageInputs.variables (PageInputs.setVarName idx name st))
                              (PageInputs.matrix (PageInputs.setVarName idx name st))
           = Some r'
           ↔ ∃ r, buildPreviewResult (PageInputs.variables st) (PageInputs.matrix st) = Some r
                  ∧ variables r' = PageInputs.variables (PageInputs.setVarName idx name st)
                  ∧ dependencia_x r' = dependencia_x r ∧ motricidad_y r' = motricidad_y r
                  ∧ x_cut r' = x_cut r ∧ y_cut r' = y_cut r
                  ∧ quadrants r'
                    = buildQuadrants (variables r') (dependencia_x r) (motricidad_y r)
                        (x_cut r) (y_cut r) (length (variables r')))
  ∧ (∀ r', buildPreviewResult (PageInputs.variables (PageInputs.setVarName idx name st))
                              (PageInputs.matrix (PageInputs.setVarName idx name st))
           = Some r' ->
       quadrants r' !! "__proto__" = None
       ∧ (NoDup (PageInputs.variables (PageInputs.setVarName idx name st)) ->
          idx < length (PageInputs.variables st) -> name ≠ "__proto__" ->
          ∃ xi yi, dependencia_x r' !! idx = Some xi ∧ motricidad_y r' !! idx = Some yi
                   ∧ quadrants r' !! name
                     = Some (quadrantLabel xi yi (x_cut r') (y_cut r')))).
Proof.
  assert (Hlen : length (PageInputs.variables (PageInputs.setVarName idx name st))
                 = length (PageInputs.variables st)) by apply length_imap.
  assert (Hlook : ∀ k, PageInputs.variables (PageInputs.setVarName idx name st) !! k
                       = (fun value => if decide (k = idx) then name else value)
                           <$> PageInputs.variables st !! k).
  { intros k. cbn [PageInputs.setVarName PageInputs.variables]. apply list_lookup_imap. }
  assert (Hnew : idx < length (PageInputs.variables st) ->
                 PageInputs.variables (PageInputs.setVarName idx name st) !! idx = Some name).
  { intros Hidx. rewrite Hlook.
    destruct (lookup_lt_is_Some_2 _ _ Hidx) as [old ->]. cbn.
    destruct (decide (idx = idx)); [reflexivity | contradiction]. }
  split; [exact Hlen|]. split; [exact Hnew|].
  split; [|split; [|split; [reflexivity|split; [|split]]]].
  - intros k Hk. rewrite Hlook. destruct (PageInputs.variables st !! k); [|reflexivity].
    cbn. destruct (decide (k = idx)); [contradiction | reflexivity].
  - intros Hidx. destruct st as [names cells]. unfold PageInputs.setVarName. cbn in *.
    f_equal. apply list_eq. intros k. rewrite list_lookup_imap.
    destruct (names !! k) eqn:Hk; [|reflexivity]. cbn.
    apply lookup_lt_Some in Hk. destruct (decide (k = idx)); [lia | reflexivity].
  - intros [Hsq Hz].
    assert (Hc : PageInputs.consistent (PageInputs.setVarName idx name st)).
    { split; [rewrite Hlen; exact Hsq | exact Hz]. }
    split; [exact Hc|]. destruct Hc as [Hsq' Hz'].
    unfold PageInputs.resizeEffect.
    rewrite (PageInputs.resizeMatrix_fixed _ _ Hsq' Hz'). reflexivity.
  - intros r'. unfold buildPreviewResult. rewrite Hlen.
    cbn [PageInputs.setVarName PageInputs.matrix].
    destruct (decide (length (PageInputs.variables st) = 0
                      ∨ length (PageInputs.matrix st) ≠ length (PageInputs.variables st)));
      [split; [discriminate | intros (r & Hr & _); discriminate]|].
    destruct (negb (hasValue (length (PageInputs.variables st)) (PageInputs.matrix st)));
      [split; [discriminate | intros (r & Hr & _); discriminate]|].
    split.
    + intros [= <-]. eexists. split; [reflexivity|]. cbn. rewrite length_imap.
      repeat split; reflexivity.
    + intros (r & [= <-] & Hv & Hd & Hy & Hx & Hyc & Hq). cbn in Hd, Hy, Hx, Hyc, Hq.
      destruct r' as [v d y xc yc q]. cbn in *. subst. rewrite length_imap. reflexivity.
  - intros r' Hr'. split; [exact (buildPreviewResult_proto _ _ _ Hr')|].
    intros Hnd Hidx Hproto.
    exact (buildPreviewResult_quadrant _ _ _ idx name Hr' Hnd (Hnew Hidx) Hproto).
Qed.

Definition twoInputs : PageInputs.Inputs :=
  {| PageInputs.variables := ["A"; "B"]; PageInputs.matrix := [[0; 1]; [3; 0]]%float |}.

(** The first variable renamed to "__proto__" has no entry in the quadrant
    map; the second variable renamed to Beta is found under its new name. *)
Lemma setVarName_renames_one_example :
  (∃ r', buildPreviewResult
           (PageInputs.variables (PageInputs.setVarName 0 "__proto__" twoInputs))
           (PageInputs.matrix (PageInputs.setVarName 0 "__proto__" twoInputs)) = Some r'
         ∧ quadrants r' !! "__proto__" = None)
  ∧ (∃ r', buildPreviewResult
             (PageInputs.variables (PageInputs.setVarName 1 "Beta" twoInputs))
             (PageInputs.matrix (PageInputs.setVarName 1 "Beta" twoInputs)) = Some r'
           ∧ quadrants r' !! "Beta" = Some "Determinante").
Proof.
  split.
  - destruct (buildPreviewResult
                (PageInputs.variables (PageInputs.setVarName 0 "__proto__" twoInputs))
                (PageInputs.matrix (PageInputs.setVarName 0 "__proto__" twoInputs)))
      as [r'|] eqn:Hr; [|vm_compute in Hr; discriminate].
    exists r'. split; [reflexivity|].
    destruct (setVarName_renames_one 0 "__proto__" twoInputs)
      as (_ & _ & _ & _ & _ & _ & _ & Hq).
    exact (proj1 (Hq r' Hr)).
  - destruct (buildPreviewResult
                (PageInputs.variables (PageInputs.setVarName 1 "Beta" twoInputs))
                (PageInputs.matrix (PageInputs.setVarName 1 "Beta" twoInputs)))
      as [r'|] eqn:Hr; [|vm_compute in Hr; discriminate].
    exists r'. split; [reflexivity|].
    destruct (setVarName_renames_one 1 "Beta" twoInputs)
      as (_ & _ & _ & _ & _ & _ & _ & Hq).
    destruct (Hq r' Hr) as [_ Hname].
    destruct Hname as (xi & yi & Hx & Hy & Hlabel).
    + change (NoDup ["A"; "Beta"]).
      repeat (apply NoDup_cons; split;
        [intros Hin; repeat (apply elem_of_cons in Hin as [Hin|Hin]; [discriminate|]);
         apply elem_of_nil in Hin; exact Hin|]). apply NoDup_nil. exact I.
    + cbn. lia.
    + discriminate.
    + rewrite Hlabel. vm_compute in Hr. injection Hr as <-.
      vm_compute in Hx, Hy. injection Hx as <-. injection Hy as <-.
      vm_compute. reflexivity.
Defined.

End QuadrantFacts.
